(** * The gateway request dataplane: proxy handler, error mapper, route
      table update and the stream body tracker.

    The development follows the Go sources: [proxy/proxy.go],
    [proxy/error_handler.go] and the stream context of package [middleware].
    Code of imported packages (the SRE breaker, the mux router, net/http)
    enters as section variables or as the interface it is used through. *)

From stdpp Require Import gmap strings list fin_maps.
From Stdlib Require Import ZArith QArith Ascii.
From Stdlib.Strings Require Import Byte.

Local Open Scope Z_scope.
Set Warnings "-clear-no-such-hyp".

(** ** Errors

    Go error values as the proxy inspects them: identity against a few
    sentinels through [errors.Is], and the text through [Error()]. *)

Inductive sentinel : Type :=
| context_Canceled
| context_DeadlineExceeded
| circuitbreaker_ErrNotAllowed
| middleware_ErrNotFound.

Inductive error : Type :=
| Sentinel (s : sentinel)
| errors_New (text : string)
| Wrapped (text : string) (inner : error).

Definition sentinel_eqb (a b : sentinel) : bool :=
  match a, b with
  | context_Canceled, context_Canceled => true
  | context_DeadlineExceeded, context_DeadlineExceeded => true
  | circuitbreaker_ErrNotAllowed, circuitbreaker_ErrNotAllowed => true
  | middleware_ErrNotFound, middleware_ErrNotFound => true
  | _, _ => false
  end.

(** [errors.Is(err, target)] for a sentinel target: walk the Unwrap chain. *)
Fixpoint errors_Is (err : error) (target : sentinel) : bool :=
  match err with
  | Sentinel s => sentinel_eqb s target
  | errors_New _ => false
  | Wrapped _ inner => errors_Is inner target
  end.

Definition sentinelText (s : sentinel) : string :=
  match s with
  | context_Canceled => "context canceled"
  | context_DeadlineExceeded => "context deadline exceeded"
  | circuitbreaker_ErrNotAllowed => "circuitbreaker: not allowed for circuit open"
  | middleware_ErrNotFound => "Middleware has not been registered"
  end.

(** [err.Error()] *)
Definition Error (err : error) : string :=
  match err with
  | Sentinel s => sentinelText s
  | errors_New text => text
  | Wrapped text _ => text
  end.

(** ** HTTP values *)

(** [http.Header] is [map[string][]string]; a value may be the nil slice
    ([None]) or a slice, possibly empty ([Some l]). *)
Abbreviation Header := (gmap string (option (list string))).

Definition sliceElems (v : option (list string)) : list string :=
  match v with None => [] | Some l => l end.

(** [h.Get(key)] for a key already in canonical form. *)
Definition Header_Get (h : Header) (key : string) : string :=
  match h !! key with
  | Some (Some (v :: _)) => v
  | _ => ""
  end.

(** [h.Set(key, value)] for a key already in canonical form. *)
Definition Header_Set (h : Header) (key value : string) : Header :=
  <[key := Some [value]]> h.

Inductive Protocol : Type := Protocol_HTTP | Protocol_GRPC.

Definition Protocol_eqb (a b : Protocol) : bool :=
  match a, b with
  | Protocol_HTTP, Protocol_HTTP | Protocol_GRPC, Protocol_GRPC => true
  | _, _ => false
  end.

Record Middleware := { mw_Name : string }.

Record Endpoint := {
  e_Path : string;
  e_Method : string;
  e_Host : string;
  e_Protocol : Protocol;
  e_Stream : bool;
  e_Middlewares : list Middleware;
}.

Record Request := {
  req_Method : string;
  req_URL : string;
  req_RemoteAddr : string;
  req_ProtoMajor : Z;
  req_Header : Header;
}.

(** An [io.ReadCloser] response body.  What a read after [Close] yields is
    up to the implementation: [io.NopCloser] ignores [Close], a body handed
    out by the net/http transport fails every later read. *)
Inductive BodyKind : Type := NopCloserBody | TransportBody.

Record Body := {
  b_kind : BodyKind;
  b_data : list byte;
  b_closed : bool;
}.

Definition Body_Close (b : Body) : Body :=
  {| b_kind := b_kind b; b_data := b_data b; b_closed := true |}.

Definition Body_readable (b : Body) : bool :=
  match b_kind b with
  | NopCloserBody => true
  | TransportBody => negb (b_closed b)
  end.

Record Response := {
  resp_StatusCode : Z;
  resp_Header : Header;
  resp_Trailer : Header;
  resp_ProtoMajor : Z;
  resp_Body : option Body;
}.

Definition Response_closeBody (r : Response) : Response :=
  {| resp_StatusCode := resp_StatusCode r;
     resp_Header := resp_Header r;
     resp_Trailer := resp_Trailer r;
     resp_ProtoMajor := resp_ProtoMajor r;
     resp_Body := Body_Close <$> resp_Body r |}.

(** The client side of a request: [http.ResponseWriter] as the net/http
    server implements it (the first [WriteHeader] wins). *)
Record ResponseWriter := {
  w_Header : Header;
  w_statusCode : option Z;
  w_body : list byte;
  w_flushes : nat;
}.

Definition newResponseWriter : ResponseWriter :=
  {| w_Header := ∅; w_statusCode := None; w_body := []; w_flushes := 0 |}.

Definition w_setHeader (h : Header) (w : ResponseWriter) : ResponseWriter :=
  {| w_Header := h; w_statusCode := w_statusCode w;
     w_body := w_body w; w_flushes := w_flushes w |}.

Definition WriteHeader (code : Z) (w : ResponseWriter) : ResponseWriter :=
  {| w_Header := w_Header w;
     w_statusCode := match w_statusCode w with Some c => Some c | None => Some code end;
     w_body := w_body w; w_flushes := w_flushes w |}.

Definition Write (p : list byte) (w : ResponseWriter) : ResponseWriter :=
  {| w_Header := w_Header w; w_statusCode := w_statusCode w;
     w_body := w_body w ++ p; w_flushes := w_flushes w |}.

Definition Flush (w : ResponseWriter) : ResponseWriter :=
  {| w_Header := w_Header w; w_statusCode := w_statusCode w;
     w_body := w_body w; w_flushes := S (w_flushes w) |}.

(** ** Retry policy and what one loop index meets *)

(** Modelled from the spec: the retry-condition type of the configuration
    package, which is missing; the spec names status-code ranges and header
    equality. *)
Inductive condition : Type :=
| byStatusCode (lo hi : Z)
| byHeader (name value : string).

Record retryStrategy := {
  attempts : Z;
  timeout : Z;
  perTryTimeout : Z;
  conditions : list condition;
}.

(** Everything outside the handler that one index of the attempt loop
    depends on: the feature gate, the breaker's random draw, the state of the
    request context and the answer of the tripper.  A [RoundTripper] returns
    either a response or an error. *)
Record Attempt := {
  retryEnabled : bool;
  draw : Z;
  ctxErr : option error;
  roundTrip : Response + error;
}.

(** [selector.DoneInfo] *)
Record DoneInfo := {
  di_Err : option error;
  di_ReplyMD : option Header;
}.

(** What [httputil.ReverseProxy] does with the hooks it is configured with:
    whether it reaches the transport, the hooks it calls, and whether it ends
    in [panic(http.ErrAbortHandler)], as it does when the copy of the response
    to the client fails, after [ModifyResponse]. *)
Inductive ProxyHook : Type :=
| HookErrorHandler (err : error)
| HookModifyResponse (resp : Response).

Record StreamRun := {
  sr_transport : bool;
  sr_hooks : list ProxyHook;
  sr_abort : bool;
}.

(** One request as it reaches an endpoint handler. *)
Record Arrival := {
  ar_req : Request;
  ar_body : list byte + error;
  ar_upstream : Z -> Attempt;
  ar_copyFault : option (nat * error);
  ar_stream : StreamRun;
  ar_flusher : bool;
}.

(** Observable calls of a handler, in program order.  The index carried by
    the retry events is the loop index the closure was called with. *)
Inductive Event : Type :=
| EvHandleReceivedBytes (n : Z)
| EvAllow (i : Z) (refusal : option error)
| EvMarkSuccess (i : Z)
| EvMarkFailed (i : Z)
| EvHandleRetry (i : Z) (state : string)
| EvRoundTrip (i : Z) (lastAttempt : bool)
| EvLogError (text : string)
| EvDoneFunc (info : DoneInfo)
| EvHandleSentBytes (n : Z)
| EvHandleRequest (statusCode : Z) (err : option error)
| EvDoOnResponse
| EvDoOnFinish
| EvHandleLatency.

(** ** The retry breaker

    [circuitbreaker.CircuitBreaker] of the aegis library.  [Allow] draws a
    random number, passed in here. *)
Class CircuitBreaker (B : Type) := {
  Allow : B -> Z -> option error;
  MarkSuccess : B -> B;
  MarkFailed : B -> B;
}.

(** A window-less rendering of the SRE breaker, used to run the model on
    concrete inputs: the request is let through while fewer than [request]
    calls were seen or the accepted ones, scaled by [k = 1/success], exceed
    the total; otherwise it is dropped with probability
    [(total - k*accepts) / (total + 1)], the draw being given in thousandths. *)
Module sre.

Record Breaker := {
  k : Q;
  request : Z;
  accepts : Z;
  total : Z;
}.

Definition NewBreaker (success : Q) (request : Z) : Breaker :=
  {| k := / success; request := request; accepts := 0; total := 0 |}.

Definition allow (b : Breaker) (draw : Z) : option error :=
  let requests := (k b * inject_Z (accepts b))%Q in
  if (total b <? request b) || negb (Qle_bool requests (inject_Z (total b)))
  then None
  else
    let ratio := ((inject_Z (total b) - requests) / inject_Z (total b + 1))%Q in
    let dr := if Qle_bool ratio 0 then 0%Q else ratio in
    if negb (Qle_bool dr (inject_Z draw / 1000)%Q)
    then Some (Sentinel circuitbreaker_ErrNotAllowed)
    else None.

Definition markSuccess (b : Breaker) : Breaker :=
  {| k := k b; request := request b; accepts := accepts b + 1; total := total b + 1 |}.

Definition markFailed (b : Breaker) : Breaker :=
  {| k := k b; request := request b; accepts := accepts b; total := total b + 1 |}.

#[global] Instance breaker : CircuitBreaker Breaker :=
  {| Allow := allow; MarkSuccess := markSuccess; MarkFailed := markFailed |}.

End sre.

(** ** Compiled endpoints and the route table *)

(** The transport of an endpoint: the client, wrapped innermost-first. *)
Inductive Tripper : Type :=
| TClient (client : nat)
| TStream (next : Tripper)
| TMiddleware (name : string) (next : Tripper).

(** The handler closure returned by [buildEndpoint].  The breaker it
    captured is a heap cell, named by its address. *)
Record Handler := {
  h_endpoint : Endpoint;
  h_tripper : Tripper;
  h_strategy : retryStrategy;
  h_retryBreaker : nat;
}.

Record Route := {
  rt_path : string;
  rt_method : string;
  rt_host : string;
  rt_handler : Handler;
  rt_closer : nat;
}.

(** What [ServeHTTP] of the mux router does with a request: it runs the
    handler of the route it matches, or one of the two fallback handlers. *)
Inductive Dispatch : Type :=
| DispatchRoute (r : Route)
| DispatchNotFound
| DispatchMethodNotAllowed.

(** Modelled from the spec: the request options and their constructor, of
    the middleware package, which is missing; the flag starts unset, the
    zero value of a Go bool. *)
Record RequestOptions := {
  ro_Endpoint : Endpoint;
  ro_LastAttempt : bool;
}.

Definition NewRequestOptions (e : Endpoint) : RequestOptions :=
  {| ro_Endpoint := e; ro_LastAttempt := false |}.

(** What a handler leaves behind; [sv_abort] tells whether the value it
    panicked with is [http.ErrAbortHandler]. *)
Record Served := {
  sv_w : ResponseWriter;
  sv_req : Request;
  sv_LastAttempt : bool;
  sv_trace : list Event;
  sv_panicked : bool;
  sv_abort : bool;
}.

Definition TrailerPrefix : string := "Trailer:".

(** [io.Copy(w, body)]: the bytes that reach the client and the error, if
    any.  A fault of the client connection after [n] bytes is an input. *)
Definition ioCopy (body : Body) (fault : option (nat * error)) : list byte * option error :=
  if Body_readable body then
    match fault with
    | None => (b_data body, None)
    | Some (n, err) => (take n (b_data body), Some err)
    end
  else ([], Some (errors_New "http: read on closed response body")).

(** [config.Gateway], as far as [Update] reads it. *)
Record Gateway := {
  c_Endpoints : list Endpoint;
  c_Middlewares : list Middleware;
}.

(** ** Sample values for running the model *)

Module Sample.

(** A stand-in for [net.SplitHostPort] on addresses without brackets: the
    port starts after the last colon, the host has no colon. *)
Fixpoint splitLastColon (s : string) : option (string * string) :=
  match s with
  | EmptyString => None
  | String c rest =>
      match splitLastColon rest with
      | Some (h, p) => Some (String c h, p)
      | None => if Ascii.eqb c ":"%char then Some (EmptyString, rest) else None
      end
  end.

Definition hasColon (s : string) : bool :=
  match splitLastColon s with Some _ => true | None => false end.

Definition SplitHostPort (s : string) : option (string * string) :=
  match splitLastColon s with
  | Some (h, p) => if hasColon h then None else Some (h, p)
  | None => None
  end.

(** [status.ToGRPCCode] of kratos on the codes the error mapper produces. *)
Definition ToGRPCCode (code : Z) : Z :=
  if code =? 200 then 0
  else if code =? 499 then 1
  else if code =? 504 then 4
  else if code =? 500 then 13
  else if code =? 503 then 14
  else 2.

Definition Itoa (n : Z) : string :=
  if n =? 0 then "0" else if n =? 1 then "1" else if n =? 2 then "2"
  else if n =? 4 then "4" else if n =? 13 then "13" else if n =? 14 then "14"
  else "?".

Fixpoint judgeRetryRequired (cs : list condition) (resp : Response) : bool :=
  match cs with
  | [] => false
  | byStatusCode lo hi :: cs =>
      ((lo <=? resp_StatusCode resp) && (resp_StatusCode resp <=? hi))
      || judgeRetryRequired cs resp
  | byHeader name value :: cs =>
      bool_decide (Header_Get (resp_Header resp) name = value)
      || judgeRetryRequired cs resp
  end.

Definition isNoBufferingResponse (resp : Response) : bool :=
  bool_decide (Header_Get (resp_Header resp) "Content-Type" = "text/event-stream").

Definition strategy (n : Z) : retryStrategy :=
  {| attempts := n; timeout := 1000; perTryTimeout := 100;
     conditions := [byStatusCode 500 504] |}.

Definition prepareRetryStrategy (e : Endpoint) : error + retryStrategy :=
  inr (strategy 3).

Definition endpoint (path : string) : Endpoint :=
  {| e_Path := path; e_Method := "GET"; e_Host := ""; e_Protocol := Protocol_HTTP;
     e_Stream := false; e_Middlewares := [] |}.

Definition grpcEndpoint : Endpoint :=
  {| e_Path := "/rpc"; e_Method := "POST"; e_Host := ""; e_Protocol := Protocol_GRPC;
     e_Stream := false; e_Middlewares := [] |}.

Definition streamEndpoint : Endpoint :=
  {| e_Path := "/ws"; e_Method := "GET"; e_Host := ""; e_Protocol := Protocol_HTTP;
     e_Stream := true; e_Middlewares := [] |}.

Definition request (remote : string) (h : Header) : Request :=
  {| req_Method := "GET"; req_URL := "/foo/bar"; req_RemoteAddr := remote;
     req_ProtoMajor := 1; req_Header := h |}.

Definition response (code : Z) (body : option Body) : Response :=
  {| resp_StatusCode := code; resp_Header := {[ "Testkey" := Some ["testValue"] ]};
     resp_Trailer := ∅; resp_ProtoMajor := 1; resp_Body := body |}.

Definition oops : list byte := String.list_byte_of_string "oops".

Definition transportBody (data : list byte) : Body :=
  {| b_kind := TransportBody; b_data := data; b_closed := false |}.

Definition nopBody (data : list byte) : Body :=
  {| b_kind := NopCloserBody; b_data := data; b_closed := false |}.

Definition answer (r : Response + error) : Attempt :=
  {| retryEnabled := true; draw := 0; ctxErr := None; roundTrip := r |}.

Definition arrival (up : Z -> Attempt) : Arrival :=
  {| ar_req := request "10.0.0.7:4242" ∅; ar_body := inl [];
     ar_upstream := up; ar_copyFault := None;
     ar_stream := {| sr_transport := true; sr_hooks := []; sr_abort := false |};
     ar_flusher := true |}.

(** An upstream that answers every call with [code] and a body handed
    out by the transport. *)
Definition always (code : Z) (data : list byte) : Arrival :=
  arrival (λ _, answer (inl (response code (Some (transportBody data))))).

(** An upstream that refuses every connection. *)
Definition unreachable : Arrival :=
  arrival (λ _, answer (inr (errors_New "connection refused"))).

(** An upstream whose response has no body. *)
Definition bodiless : Arrival :=
  arrival (λ _, answer (inl (response 200 None))).

(** An upstream that answers 500 once and 200 from then on. *)
Definition flaky (data : list byte) : Arrival :=
  arrival (λ i, answer (inl (response (if i =? 0 then 500 else 200)
                                      (Some (transportBody data))))).

(** An upstream that refuses the first connection, after which the
    deadline of the request has passed. *)
Definition expiring : Arrival :=
  arrival (λ i, {| retryEnabled := true; draw := 0;
                   ctxErr := if i =? 0 then None
                             else Some (Sentinel context_DeadlineExceeded);
                   roundTrip := inr (errors_New "connection refused") |}).

(** An upstream whose retry-eligible response has no body. *)
Definition bodiless500 : Arrival :=
  arrival (λ _, answer (inl (response 500 None))).

(** An upstream that answers 500 with a body, after which the deadline of
    the request has passed. *)
Definition lateDeadline : Arrival :=
  arrival (λ i, {| retryEnabled := true; draw := 0;
                   ctxErr := if i =? 0 then None
                             else Some (Sentinel context_DeadlineExceeded);
                   roundTrip := inl (response 500 (Some (transportBody oops))) |}).

(** A stream request whose response reaches [ModifyResponse] and whose
    copy to the client fails. *)
Definition abortedStream : Arrival :=
  {| ar_req := request "10.0.0.7:4242" ∅; ar_body := inl [];
     ar_upstream := λ _, answer (inr (errors_New "unused"));
     ar_copyFault := None;
     ar_stream := {| sr_transport := true;
                     sr_hooks := [HookModifyResponse (response 200 (Some (transportBody oops)))];
                     sr_abort := true |};
     ar_flusher := true |}.

(** A breaker that has seen ten failed retries. *)
Definition trippedBreaker : sre.Breaker :=
  Nat.iter 10 sre.markFailed (sre.NewBreaker (8 # 10) 10).

Definition clientFactory (e : Endpoint) : option error := None.

Definition middlewareFactory (m : Middleware) : option error := None.

Definition router_Handle (router : list Route) (r : Route) : option error := None.

Definition twoEndpoints : Gateway :=
  {| c_Endpoints := [endpoint "/a"; endpoint "/b"]; c_Middlewares := [] |}.

(** A gateway with one endpoint, on the path of the sample request. *)
Definition oneEndpoint : Gateway :=
  {| c_Endpoints := [endpoint "/foo/bar"]; c_Middlewares := [] |}.

(** A stand-in for the mux router that matches on the path alone. *)
Definition router_ServeHTTP (table : list Route) (req : Request) : Dispatch :=
  match list_find (λ r, rt_path r = req_URL req) table with
  | Some (_, r) => DispatchRoute r
  | None => DispatchNotFound
  end.

(** The header fields [http.Error] of the standard library writes. *)
Definition http_Error_Header (h : Header) : Header :=
  Header_Set (Header_Set (delete "Content-Length" h)
                "Content-Type" "text/plain; charset=utf-8")
    "X-Content-Type-Options" "nosniff".

End Sample.

(** ** The stream body tracker (package middleware) *)

Module MetaStream.

(** [int32] arithmetic of [atomic.AddInt32]. *)
Definition wrap32 (x : Z) : Z := (x + 2 ^ 31) mod 2 ^ 32 - 2 ^ 31.

Definition AddInt32 (x delta : Z) : Z := wrap32 (x + delta).

(** The counters of [MetaStreamContext] and the state of its
    [finishOnce]. *)
Record MetaStreamContext := {
  bodiesCount : Z;
  closedCount : Z;
  finishOnce : bool;
}.

Definition RegisterBody (s : MetaStreamContext) : MetaStreamContext :=
  {| bodiesCount := AddInt32 (bodiesCount s) 1;
     closedCount := closedCount s;
     finishOnce := finishOnce s |}.

(** The two atomic operations of [notifyBodyClosed]. *)
Definition addClosed (s : MetaStreamContext) : Z * MetaStreamContext :=
  let closed := AddInt32 (closedCount s) 1 in
  (closed, {| bodiesCount := bodiesCount s; closedCount := closed;
              finishOnce := finishOnce s |}).

Definition loadExpected (closed : Z) (s : MetaStreamContext) : bool :=
  let expected := bodiesCount s in
  (expected <=? closed) && (0 <? expected).

Definition notifyBodyClosed (s : MetaStreamContext) : bool * MetaStreamContext :=
  let '(closed, s') := addClosed s in
  (loadExpected closed s', s').

(** A stream request: its context, the [doneOnce] of every wrapped body
    in order of registration, the [closed] values held by the [Close]
    calls that stand between the two atomic operations of
    [notifyBodyClosed], the number of [Close] calls that [notifyBodyClosed]
    has answered with true and that have not reached [finishOnce.Do] yet,
    and a record of every run of the [OnFinish] hooks with the number of
    closed and of registered bodies at that moment. *)
Record Stream := {
  ctxValue : MetaStreamContext;
  doneOnce : list bool;
  inFlight : list Z;
  notified : nat;
  onFinishRuns : list (nat * nat);
}.

Definition initStream : Stream :=
  {| ctxValue := {| bodiesCount := 0; closedCount := 0; finishOnce := false |};
     doneOnce := []; inFlight := []; notified := 0; onFinishRuns := [] |}.

Definition closedBodies (s : Stream) : nat :=
  length (filter (λ d, d = true) (doneOnce s)).

(** [WrapReadCloserBody] and [WrapReadWriteCloserBody] *)
Definition WrapBody (s : Stream) : Stream :=
  {| ctxValue := RegisterBody (ctxValue s);
     doneOnce := doneOnce s ++ [false];
     inFlight := inFlight s;
     notified := notified s;
     onFinishRuns := onFinishRuns s |}.

(** [finishOnce.Do] around the loop over [OnFinish]. *)
Definition finishOnce_Do (s : Stream) : Stream :=
  if finishOnce (ctxValue s) then s
  else
    {| ctxValue := {| bodiesCount := bodiesCount (ctxValue s);
                      closedCount := closedCount (ctxValue s);
                      finishOnce := true |};
       doneOnce := doneOnce s;
       inFlight := inFlight s;
       notified := notified s;
       onFinishRuns := onFinishRuns s ++ [(closedBodies s, length (doneOnce s))] |}.

(** [Close] of a wrapped body, run without interruption. *)
Definition Close (b : nat) (s : Stream) : Stream :=
  match doneOnce s !! b with
  | Some false =>
      let '(all, c) := notifyBodyClosed (ctxValue s) in
      let s' := {| ctxValue := c; doneOnce := <[b := true]> (doneOnce s);
                   inFlight := inFlight s; notified := notified s;
                   onFinishRuns := onFinishRuns s |} in
      if all then finishOnce_Do s' else s'
  | _ => s
  end.

(** [Close] in its three steps, for runs in which several goroutines close
    and register bodies at once: up to the increment of [closedCount] ... *)
Definition closeBegin (b : nat) (s : Stream) : Stream :=
  match doneOnce s !! b with
  | Some false =>
      let '(closed, c) := addClosed (ctxValue s) in
      {| ctxValue := c; doneOnce := <[b := true]> (doneOnce s);
         inFlight := inFlight s ++ [closed]; notified := notified s;
         onFinishRuns := onFinishRuns s |}
  | _ => s
  end.

(** ... the load of [bodiesCount] and the comparison that end
    [notifyBodyClosed] ... *)
Definition closeLoad (t : nat) (s : Stream) : Stream :=
  match inFlight s !! t with
  | Some closed =>
      {| ctxValue := ctxValue s; doneOnce := doneOnce s;
         inFlight := delete t (inFlight s);
         notified := if loadExpected closed (ctxValue s)
                     then S (notified s) else notified s;
         onFinishRuns := onFinishRuns s |}
  | None => s
  end.

(** ... and [finishOnce.Do], reached when [notifyBodyClosed] has answered
    true. *)
Definition closeEnd (s : Stream) : Stream :=
  match notified s with
  | O => s
  | S n =>
      finishOnce_Do {| ctxValue := ctxValue s; doneOnce := doneOnce s;
                       inFlight := inFlight s; notified := n;
                       onFinishRuns := onFinishRuns s |}
  end.

Inductive action : Type :=
| ActWrap
| ActCloseBegin (b : nat)
| ActCloseLoad (t : nat)
| ActCloseEnd.

Definition step (s : Stream) (a : action) : Stream :=
  match a with
  | ActWrap => WrapBody s
  | ActCloseBegin b => closeBegin b s
  | ActCloseLoad t => closeLoad t s
  | ActCloseEnd => closeEnd s
  end.

Definition run (acts : list action) (s : Stream) : Stream :=
  fold_left step acts s.



End MetaStream.

(** ** What the middlewares share *)

(** [merr.ErrorInternal] and [merr.ErrorForbidden] with the message they
    are given; the status code of each is kept by package [merr]. *)
Inductive merr : Type :=
| ErrorInternal (message : string)
| ErrorForbidden (message : string).

(** [strings.SplitN(s, sep, 2)] for a separator of one byte: the string is
    cut at the first separator, if there is one. *)
Fixpoint splitFirst (sep : ascii) (s : string) : option (string * string) :=
  match s with
  | EmptyString => None
  | String c rest =>
      if Ascii.eqb c sep then Some (EmptyString, rest)
      else
        match splitFirst sep rest with
        | Some (head, tail) => Some (String c head, tail)
        | None => None
        end
  end.

Definition SplitN2 (s : string) (sep : ascii) : list string :=
  match splitFirst sep s with
  | Some (head, tail) => [head; tail]
  | None => [s]
  end.

(** ** The namespace middleware (package namespace) *)

Module Namespace.

(** [v1.ValidateApi] and [v1.Namespace].  [api_Headers] is a map, listed
    in the order the [range] statement visits it. *)
Record ValidateApi := {
  api_Url : string;
  api_Method : string;
  api_Headers : list (string * string);
  api_BodyTemplate : string;
  api_SuccessStatusCodes : list Z;
  api_Timeout : Z;
}.

Record Options := {
  o_Key : string;
  o_Required : bool;
  o_AllowedNamespaces : list string;
  o_ValidationMode : string;
  o_ValidateApi : option ValidateApi;
}.

(** The zero value of the options. *)
Definition noOptions : Options :=
  {| o_Key := ""; o_Required := false; o_AllowedNamespaces := [];
     o_ValidationMode := ""; o_ValidateApi := None |}.

(** The request sent to the validation API. *)
Record ApiRequest := {
  rq_Method : string;
  rq_Url : string;
  rq_Body : option (list byte);
  rq_Header : Header;
}.

(** The code of other packages the middleware calls: [text/template],
    [http.NewRequestWithContext], [Do] of a client with a timeout (the
    status code of the answer, or an error), the canonical form of a header
    key, [strings.ToLower] after [strings.TrimSpace], [%d], and the code and
    the JSON form of an error of package [merr]. *)
Record World := {
  template_Parse : string -> option error;
  template_Execute : string -> string -> list byte + error;
  http_NewRequest : string -> string -> option error;
  client_Do : Z -> ApiRequest -> Z + error;
  CanonicalHeaderKey : string -> string;
  ToLower_TrimSpace : string -> string;
  Itoa : Z -> string;
  Code : merr -> Z;
  json_Marshal : merr -> list byte + error;
}.

Definition defaultNamespaceKey : string := "X-Namespace".
Definition defaultTimeout : Z := 5 * 1000000000.
Definition modeWhitelist : string := "whitelist".
Definition modeAPI : string := "api".

(** What a validation comes to; a nil API configuration is dereferenced
    by [validateNamespaceViaAPI] at its first statement. *)
Inductive Verdict : Type :=
| Allowed
| Denied (err : merr)
| NilDereference.

Definition validateNamespaceViaAPI (W : World) (client : Z) (namespace : string)
  (apiConfig : option ValidateApi) : list ApiRequest * Verdict :=
  match apiConfig with
  | None => ([], NilDereference)
  | Some apiConfig =>
      let body : option (list byte) + merr :=
        if bool_decide (api_BodyTemplate apiConfig = "") then inl None
        else
          match template_Parse W (api_BodyTemplate apiConfig) with
          | Some err =>
              inr (ErrorInternal ("failed to parse body template: " +:+ Error err))
          | None =>
              match template_Execute W (api_BodyTemplate apiConfig) namespace with
              | inr err =>
                  inr (ErrorInternal ("failed to execute body template: " +:+ Error err))
              | inl buf => inl (Some buf)
              end
          end in
      match body with
      | inr err => ([], Denied err)
      | inl body =>
          let method :=
            if bool_decide (api_Method apiConfig = "") then "POST"
            else api_Method apiConfig in
          match http_NewRequest W method (api_Url apiConfig) with
          | Some err =>
              ([], Denied (ErrorInternal
                             ("failed to create validation request: " +:+ Error err)))
          | None =>
              let header :=
                fold_left (λ h kv, Header_Set h (CanonicalHeaderKey W kv.1) kv.2)
                  (api_Headers apiConfig) ∅ in
              let header := Header_Set header "Content-Type" "application/json" in
              let req := {| rq_Method := method; rq_Url := api_Url apiConfig;
                            rq_Body := body; rq_Header := header |} in
              match client_Do W client req with
              | inr err =>
                  ([req], Denied (ErrorInternal
                                    ("failed to validate namespace: " +:+ Error err)))
              | inl statusCode =>
                  let successCodes :=
                    if (length (api_SuccessStatusCodes apiConfig) =? 0)%nat then [200]
                    else api_SuccessStatusCodes apiConfig in
                  let isSuccess :=
                    bool_decide (MetaStream.wrap32 statusCode ∈ successCodes) in
                  if negb isSuccess
                  then ([req], Denied (ErrorForbidden
                                         ("namespace validation failed: status code "
                                          +:+ Itoa W statusCode)))
                  else ([req], Allowed)
              end
          end
      end
  end.

(** The three validation closures of [Middleware]. *)
Inductive Validation : Type :=
| ValidateWhitelist
| ValidateAPI
| ValidateDefault.

(** What the closure returned by [Middleware] holds on to. *)
Record Built := {
  namespaceKey : string;
  options : Options;
  httpClient : option Z;
  whitelistMap : gmap string bool;
  validation : Validation;
}.

Inductive BuildError : Type :=
| DecodeError (err : error)
| ConfigError (err : merr).

(** [Middleware]; [decoded] is [None] when the configuration carries no
    options, and otherwise what [anypb.UnmarshalTo] makes of them. *)
Definition Middleware (W : World) (decoded : option (Options + error))
  : Built + BuildError :=
  let unmarshalled : Options + error :=
    match decoded with
    | None => inl noOptions
    | Some r => r
    end in
  match unmarshalled with
  | inr err => inr (DecodeError err)
  | inl options =>
      let namespaceKey :=
        if bool_decide (o_Key options = "") then defaultNamespaceKey else o_Key options in
      let httpClient :=
        match o_ValidateApi options with
        | Some api =>
            if negb (bool_decide (api_Url api = ""))
            then Some (if api_Timeout api <=? 0 then defaultTimeout else api_Timeout api)
            else None
        | None => None
        end in
      let whitelistMap : gmap string bool :=
        fold_left (λ m ns, <[ns := true]> m) (o_AllowedNamespaces options) ∅ in
      let validationMode := ToLower_TrimSpace W (o_ValidationMode options) in
      let built v :=
        {| namespaceKey := namespaceKey; options := options; httpClient := httpClient;
           whitelistMap := whitelistMap; validation := v |} in
      if bool_decide (validationMode = modeWhitelist) then
        if bool_decide (size whitelistMap = 0%nat)
        then inr (ConfigError (ErrorInternal
               "whitelist validation mode is specified but no allowed_namespaces configured"))
        else inl (built ValidateWhitelist)
      else if bool_decide (validationMode = modeAPI) then
        match httpClient with
        | None => inr (ConfigError (ErrorInternal
               "api validation mode is specified but http client is not configured"))
        | Some _ => inl (built ValidateAPI)
        end
      else inl (built ValidateDefault)
  end.

(** [validationFunc(ctx, ns)] *)
Definition validationFunc (W : World) (b : Built) (ns : string)
  : list ApiRequest * Verdict :=
  let listed := default false (whitelistMap b !! ns) in
  match validation b with
  | ValidateWhitelist =>
      if listed then ([], Allowed)
      else ([], Denied (ErrorForbidden "namespace is not allowed"))
  | ValidateAPI =>
      match httpClient b with
      | Some client => validateNamespaceViaAPI W client ns (o_ValidateApi (options b))
      | None => ([], NilDereference)
      end
  | ValidateDefault =>
      if (0 <? size (whitelistMap b))%nat && listed then ([], Allowed)
      else
        match httpClient b with
        | Some client =>
            match validateNamespaceViaAPI W client ns (o_ValidateApi (options b)) with
            | (calls, Allowed) =>
                (calls, Denied (ErrorForbidden "namespace is not allowed"))
            | (calls, verdict) => (calls, verdict)
            end
        | None => ([], Denied (ErrorForbidden "namespace is not allowed"))
        end
  end.

(** [newForbiddenResponse] *)
Definition newForbiddenResponse (W : World) (err : merr) : Response + error :=
  match json_Marshal W err with
  | inr err => inr err
  | inl body =>
      inl {| resp_StatusCode := Code W err;
             resp_Header := Header_Set ∅ "Content-Type" "application/json";
             resp_Trailer := ∅; resp_ProtoMajor := 0;
             resp_Body := Some {| b_kind := NopCloserBody; b_data := body;
                                  b_closed := false |} |}
  end.

(** How the round tripper of the middleware answers a request. *)
Inductive Reply : Type :=
| Forwarded (answer : Response + error)
| Rejected (answer : Response + error)
| Panicked.

(** The round tripper the middleware puts around [next]: the calls to the
    validation API, and the reply. *)
Definition RoundTrip (W : World) (b : Built) (next : Request -> Response + error)
  (req : Request) : list ApiRequest * Reply :=
  let namespace := Header_Get (req_Header req) (CanonicalHeaderKey W (namespaceKey b)) in
  if o_Required (options b) && bool_decide (namespace = "")
  then ([], Rejected (newForbiddenResponse W (ErrorForbidden "namespace is required")))
  else if negb (bool_decide (namespace = "")) then
    match validationFunc W b namespace with
    | (calls, Allowed) => (calls, Forwarded (next req))
    | (calls, Denied err) => (calls, Rejected (newForbiddenResponse W err))
    | (calls, NilDereference) => (calls, Panicked)
    end
  else ([], Forwarded (next req)).

(** Stand-ins for running the middleware: an API that answers 200 to
    every call, templates that render to the namespace, ASCII lower-casing
    left out. *)
Definition sampleWorld : World :=
  {| template_Parse := λ _, None;
     template_Execute := λ _ ns, inl (String.list_byte_of_string ns);
     http_NewRequest := λ _ _, None;
     client_Do := λ _ _, inl 200;
     CanonicalHeaderKey := λ k, k;
     ToLower_TrimSpace := λ s, s;
     Itoa := λ _, "?";
     Code := λ e, match e with ErrorInternal _ => 500 | ErrorForbidden _ => 403 end;
     json_Marshal := λ e, inl (String.list_byte_of_string
                                 match e with
                                 | ErrorInternal m | ErrorForbidden m => m
                                 end) |}.

(** Options with a validation API and no whitelist, in the default mode. *)
Definition sampleOptions : Options :=
  {| o_Key := ""; o_Required := true; o_AllowedNamespaces := [];
     o_ValidationMode := "";
     o_ValidateApi := Some {| api_Url := "http://auth/validate"; api_Method := "";
                              api_Headers := [("Content-Type", "text/plain")];
                              api_BodyTemplate := ""; api_SuccessStatusCodes := [];
                              api_Timeout := 0 |} |}.

End Namespace.

(** ** The token middleware (package jwt) *)

Module Jwt.

(** [jwtv1.Jwt] *)
Record Options := {
  o_Secret : string;
  o_Algorithms : list string;
  o_Issuer : string;
}.

Definition noOptions : Options :=
  {| o_Secret := ""; o_Algorithms := []; o_Issuer := "" |}.

(** The code of other packages the middleware calls: [strings.EqualFold],
    [jwtv5.Parse] with the secret, the methods and the issuer of the options
    (whether the token it returns is valid, or its error), and the code and
    the JSON form of an error of package [merr]. *)
Record World := {
  EqualFold : string -> string -> bool;
  jwt_Parse : Options -> string -> bool + error;
  Code : merr -> Z;
  json_Marshal : merr -> list byte + error;
}.

(** [newForbiddenResponse] *)
Definition newForbiddenResponse (W : World) (err : merr) : Response + error :=
  match json_Marshal W err with
  | inr err => inr err
  | inl body =>
      inl {| resp_StatusCode := Code W err;
             resp_Header := Header_Set ∅ "Content-Type" "application/json";
             resp_Trailer := ∅; resp_ProtoMajor := 0;
             resp_Body := Some {| b_kind := NopCloserBody; b_data := body;
                                  b_closed := false |} |}
  end.

(** How the round tripper of the middleware answers a request. *)
Inductive Reply : Type :=
| Forwarded (answer : Response + error)
| Rejected (answer : Response + error).

(** [Middleware]: the options the closure holds on to, or the error of
    [anypb.UnmarshalTo]. *)
Definition Middleware (decoded : option (Options + error)) : Options + error :=
  match decoded with
  | None => inl noOptions
  | Some r => r
  end.

(** The round tripper the middleware puts around [next]. *)
Definition RoundTrip (W : World) (options : Options) (next : Request -> Response + error)
  (req : Request) : Reply :=
  let auths := SplitN2 (Header_Get (req_Header req) "Authorization") " " in
  match auths with
  | [scheme; jwtToken] =>
      if negb (EqualFold W scheme "Bearer")
      then Rejected (newForbiddenResponse W (ErrorForbidden "invalid token 0"))
      else
        match jwt_Parse W options jwtToken with
        | inr _ => Rejected (newForbiddenResponse W (ErrorForbidden "invalid token 1"))
        | inl valid =>
            if negb valid
            then Rejected (newForbiddenResponse W (ErrorForbidden "invalid token 2"))
            else Forwarded (next req)
        end
  | _ => Rejected (newForbiddenResponse W (ErrorForbidden "invalid token 0"))
  end.

End Jwt.

(** ** The discovery registry (package discovery) *)

Module Discovery.

(** [discoveryv1.Discovery], as far as the registry reads it. *)
Record Config := {
  d_Name : string;
  d_Required : bool;
}.

Section Registry.

(** [registry.Discovery] *)
Context {Impl : Type}.

Definition Factory : Type := Config -> Impl + error.

(** [discoveryRegistry]: the map of factories by name. *)
Definition discoveryRegistry : Type := gmap string Factory.

Definition NewRegistry : discoveryRegistry := ∅.

Definition Register (name : string) (factory : Factory) (d : discoveryRegistry)
  : discoveryRegistry :=
  <[name := factory]> d.

(** [Create]: the implementation, if any, and the error, if any. *)
Definition Create (d : discoveryRegistry) (discoveryConfig : option Config)
  : option Impl * option error :=
  match discoveryConfig with
  | None => (None, None)
  | Some discoveryConfig =>
      if d_Required discoveryConfig && bool_decide (d_Name discoveryConfig = "")
      then (None, Some (errors_New "discovery is required"))
      else
        match d !! d_Name discoveryConfig with
        | None =>
            (None, Some (errors_New ("discovery " +:+ d_Name discoveryConfig
                                     +:+ " has not been registered")))
        | Some factory =>
            match factory discoveryConfig with
            | inr err =>
                (None, Some (errors_New ("create discovery error: " +:+ Error err)))
            | inl impl => (Some impl, None)
            end
        end
  end.

End Registry.

End Discovery.

(** ** The control service (package control) *)

Module Control.

(** [sync.RWMutex]: the readers holding the lock, and the writers holding
    it or waiting for it.  A reader waits while a writer holds the lock or
    waits for it; a writer waits while anyone holds it. *)
Record RWMutex := {
  readers : nat;
  writers : nat;
}.

Definition RLock (m : RWMutex) : option RWMutex :=
  if (0 <? writers m)%nat then None
  else Some {| readers := S (readers m); writers := writers m |}.

Definition RUnlock (m : RWMutex) : RWMutex :=
  {| readers := pred (readers m); writers := writers m |}.

(** [Lock]: the mutex with the lock taken, or with the writer waiting. *)
Definition Lock (m : RWMutex) : RWMutex + RWMutex :=
  if (0 <? readers m)%nat || (0 <? writers m)%nat
  then inr {| readers := readers m; writers := S (writers m) |}
  else inl {| readers := readers m; writers := S (writers m) |}.

Definition Unlock (m : RWMutex) : RWMutex :=
  {| readers := readers m; writers := pred (writers m) |}.

(** A call returns, or its goroutine waits for the mutex. *)
Inductive Outcome (A : Type) : Type :=
| Done (a : A)
| Blocked.

Arguments Done {A} a.
Arguments Blocked {A}.

(** What the chain [os.Stat], [os.ReadFile], decode comes to for one
    file: the file does not exist, a step fails, or a value is decoded. *)
Inductive Loaded (A : Type) : Type :=
| Missing
| Failed (err : error)
| Decoded (a : A).

Arguments Missing {A}.
Arguments Failed {A} err.
Arguments Decoded {A} a.

(** The errors of the service: [statusError], or any other error. *)
Inductive Err : Type :=
| statusError (statusCode : Z) (message : string)
| otherError (err : error).

Record PriorityConfigItem := {
  it_Key : string;
  it_Config : string;
  it_Version : string;
}.

Record LoadResponse := {
  lr_Config : string;
  lr_Version : string;
  lr_PriorityConfigs : list PriorityConfigItem;
}.

Record LoadFeatureResponse := {
  lf_Gateway : string;
  lf_Features : gmap string bool;
}.

Record GatewayFeatures := {
  gf_Features : gmap string bool;
}.

Section Service.

(** [configv1.Gateway] and [configv1.PriorityConfig], with
    [protojson.Marshal] on each, [strings.TrimSpace] and [filepath.Ext]. *)
Context {Gateway PriorityConfig : Type}.
Variable marshalGateway : Gateway -> string + error.
Variable marshalPriorityConfig : PriorityConfig -> string + error.
Variable TrimSpace : string -> string.
Variable Ext : string -> string.

Record PriorityConfigData := {
  pc_Config : PriorityConfig;
  pc_Version : string;
}.

Record GatewayConfig := {
  gc_Config : Gateway;
  gc_Version : string;
  gc_PriorityConfigs : gmap string PriorityConfigData;
}.

Record ControlService := {
  mu : RWMutex;
  configs : gmap string GatewayConfig;
  features : gmap string GatewayFeatures;
}.

Definition NewControlService : ControlService :=
  {| mu := {| readers := 0; writers := 0 |}; configs := ∅; features := ∅ |}.

Definition setMu (m : RWMutex) (s : ControlService) : ControlService :=
  {| mu := m; configs := configs s; features := features s |}.

(** One entry of the priority directory: its name, whether it is a
    directory, the configuration decoded from it if every step succeeds, and
    the contents of its version file if that can be read. *)
Record DirEntry := {
  de_Name : string;
  de_IsDir : bool;
  de_Decoded : option PriorityConfig;
  de_VersionData : option string;
}.

(** The files of one gateway, as [loadConfigFromFile] finds them. *)
Record ConfigFiles := {
  cf_config : Loaded Gateway;
  cf_versionData : option string;
  cf_priority : option (list DirEntry);
}.

Definition versionOf (data : option string) : string :=
  match data with
  | Some versionData =>
      let version := TrimSpace versionData in
      if bool_decide (version = "") then "v1.0.0" else version
  | None => "v1.0.0"
  end.

(** The loop over the entries of the priority directory. *)
Definition loadPriorityConfigs (entries : list DirEntry) : gmap string PriorityConfigData :=
  fold_left
    (λ priorityConfigs entry,
       if de_IsDir entry || negb (bool_decide (Ext (de_Name entry) = ".yaml"))
       then priorityConfigs
       else
         let key :=
           String.substring 0 (String.length (de_Name entry) - 5)%nat (de_Name entry) in
         match de_Decoded entry with
         | None => priorityConfigs
         | Some pc =>
             <[key := {| pc_Config := pc;
                         pc_Version := versionOf (de_VersionData entry) |}]>
               priorityConfigs
         end)
    entries ∅.

(** [loadConfigFromFile], called with the read lock held. *)
Definition loadConfigFromFile (gateway : string) (files : ConfigFiles) (s : ControlService)
  : Outcome (option error) * ControlService :=
  match cf_config files with
  | Missing => (Done None, s)
  | Failed err => (Done (Some err), s)
  | Decoded cfg =>
      let version := versionOf (cf_versionData files) in
      let priorityConfigs :=
        match cf_priority files with
        | Some entries => loadPriorityConfigs entries
        | None => ∅
        end in
      match Lock (mu s) with
      | inr waiting => (Blocked, setMu waiting s)
      | inl locked =>
          (Done None,
           {| mu := Unlock locked;
              configs := <[gateway := {| gc_Config := cfg; gc_Version := version;
                                         gc_PriorityConfigs := priorityConfigs |}]>
                           (configs s);
              features := features s |})
      end
  end.

Definition loadFeaturesFromFile (gateway : string) (file : Loaded GatewayFeatures)
  (s : ControlService) : Outcome (option error) * ControlService :=
  match file with
  | Missing => (Done None, s)
  | Failed err => (Done (Some err), s)
  | Decoded feats =>
      match Lock (mu s) with
      | inr waiting => (Blocked, setMu waiting s)
      | inl locked =>
          (Done None,
           {| mu := Unlock locked; configs := configs s;
              features := <[gateway := feats]> (features s) |})
      end
  end.

(** The version check of [GetGatewayRelease]. *)
Definition priorityChanged (cfg : GatewayConfig) (lastPriorityVersions : gmap string string)
  : bool :=
  if (0 <? size lastPriorityVersions)%nat then
    map_fold
      (λ key version changed,
         changed
         || match gc_PriorityConfigs cfg !! key with
            | None => true
            | Some pc => negb (bool_decide (pc_Version pc = version))
            end)
      false lastPriorityVersions
  else (0 <? size (gc_PriorityConfigs cfg))%nat.

(** [GetGatewayRelease] from the version check on; the priority
    configurations are listed in the order of [map_to_list], where the Go
    runtime picks an order of its own. *)
Definition release (cfg : GatewayConfig) (lastVersion : string)
  (lastPriorityVersions : gmap string string) : LoadResponse + Err :=
  if negb (bool_decide (lastVersion = ""))
     && bool_decide (gc_Version cfg = lastVersion)
     && negb (priorityChanged cfg lastPriorityVersions)
  then inr (statusError 304 "config not modified")
  else
    match marshalGateway (gc_Config cfg) with
    | inr err => inr (otherError err)
    | inl configJSON =>
        let priorityConfigs :=
          omap (λ kv, match marshalPriorityConfig (pc_Config kv.2) with
                      | inr _ => None
                      | inl pcJSON =>
                          Some {| it_Key := kv.1; it_Config := pcJSON;
                                  it_Version := pc_Version kv.2 |}
                      end)
            (map_to_list (gc_PriorityConfigs cfg)) in
        inl {| lr_Config := configJSON; lr_Version := gc_Version cfg;
               lr_PriorityConfigs := priorityConfigs |}
    end.

Definition GetGatewayRelease (gateway lastVersion : string)
  (lastPriorityVersions : gmap string string) (files : ConfigFiles) (s : ControlService)
  : Outcome (LoadResponse + Err) * ControlService :=
  match RLock (mu s) with
  | None => (Blocked, s)
  | Some held =>
      let s := setMu held s in
      (* defer s.mu.RUnlock() *)
      match configs s !! gateway with
      | None =>
          match loadConfigFromFile gateway files s with
          | (Blocked, s) => (Blocked, s)
          | (Done (Some err), s) => (Done (inr (otherError err)), setMu (RUnlock (mu s)) s)
          | (Done None, s) =>
              match configs s !! gateway with
              | None =>
                  (Done (inr (statusError 404 "gateway config not found")),
                   setMu (RUnlock (mu s)) s)
              | Some cfg =>
                  (Done (release cfg lastVersion lastPriorityVersions),
                   setMu (RUnlock (mu s)) s)
              end
          end
      | Some cfg =>
          (Done (release cfg lastVersion lastPriorityVersions), setMu (RUnlock (mu s)) s)
      end
  end.

Definition GetGatewayFeatures (gateway : string) (file : Loaded GatewayFeatures)
  (s : ControlService) : Outcome (LoadFeatureResponse + error) * ControlService :=
  match RLock (mu s) with
  | None => (Blocked, s)
  | Some held =>
      let s := setMu held s in
      (* defer s.mu.RUnlock() *)
      match features s !! gateway with
      | None =>
          match loadFeaturesFromFile gateway file s with
          | (Blocked, s) => (Blocked, s)
          | (Done (Some err), s) => (Done (inr err), setMu (RUnlock (mu s)) s)
          | (Done None, s) =>
              match features s !! gateway with
              | None =>
                  (Done (inl {| lf_Gateway := gateway; lf_Features := ∅ |}),
                   setMu (RUnlock (mu s)) s)
              | Some feats =>
                  (Done (inl {| lf_Gateway := gateway; lf_Features := gf_Features feats |}),
                   setMu (RUnlock (mu s)) s)
              end
          end
      | Some feats =>
          (Done (inl {| lf_Gateway := gateway; lf_Features := gf_Features feats |}),
           setMu (RUnlock (mu s)) s)
      end
  end.

(** The requests the two handlers of the service pass on, each with the
    files it finds, and what the service answers. *)
Inductive Call : Type :=
| CallRelease (gateway lastVersion : string) (lastPriorityVersions : gmap string string)
    (files : ConfigFiles)
| CallFeatures (gateway : string) (file : Loaded GatewayFeatures).

Inductive Reply : Type :=
| ReplyRelease (r : Outcome (LoadResponse + Err))
| ReplyFeatures (r : Outcome (LoadFeatureResponse + error)).

Definition call (c : Call) (s : ControlService) : Reply * ControlService :=
  match c with
  | CallRelease gateway lastVersion lastPriorityVersions files =>
      let '(r, s) := GetGatewayRelease gateway lastVersion lastPriorityVersions files s in
      (ReplyRelease r, s)
  | CallFeatures gateway file =>
      let '(r, s) := GetGatewayFeatures gateway file s in
      (ReplyFeatures r, s)
  end.

(** Calls that start one after the other, each in a goroutine of its
    own. *)
Fixpoint serve (cs : list Call) (s : ControlService) : list Reply * ControlService :=
  match cs with
  | [] => ([], s)
  | c :: cs =>
      let '(r, s) := call c s in
      let '(rs, s) := serve cs s in
      (r :: rs, s)
  end.

(** Whether the file a call finds decodes. *)
Definition decodes (c : Call) : bool :=
  match c with
  | CallRelease _ _ _ files =>
      match cf_config files with Decoded _ => true | _ => false end
  | CallFeatures _ file =>
      match file with Decoded _ => true | _ => false end
  end.

(** The answer to a call whose goroutine waits, and the answer to a call
    that finds nothing to load. *)
Definition waits (c : Call) : Reply :=
  match c with
  | CallRelease _ _ _ _ => ReplyRelease Blocked
  | CallFeatures _ _ => ReplyFeatures Blocked
  end.

Definition unloaded (c : Call) : Reply :=
  match c with
  | CallRelease _ _ _ files =>
      ReplyRelease
        (Done (inr match cf_config files with
                   | Failed err => otherError err
                   | _ => statusError 404 "gateway config not found"
                   end))
  | CallFeatures gateway file =>
      ReplyFeatures
        (Done match file with
              | Failed err => inr err
              | _ => inl {| lf_Gateway := gateway; lf_Features := ∅ |}
              end)
  end.

(** The query of a request: the values given for each key; [Get] is the
    first of them. *)
Definition Query : Type := string -> list string.

Definition Query_Get (q : Query) (key : string) : string :=
  match q key with
  | v :: _ => v
  | [] => ""
  end.

(** The priority versions the release handler reads from the query. *)
Definition parsePriorityVersions (q : Query) : gmap string string :=
  if bool_decide (Query_Get q "supportPriorityConfig" = "1")
  then
    fold_left
      (λ lastPriorityVersions v,
         match SplitN2 v "=" with
         | [key; version] => <[key := version]> lastPriorityVersions
         | _ => lastPriorityVersions
         end)
      (q "lastPriorityVersions") ∅
  else ∅.

(** For the properties: the version a value of [lastPriorityVersions] gives
    for [key], if it is of the form [key=version]. *)
Definition versionFor (key v : string) : option string :=
  match splitFirst "=" v with
  | Some (k, version) => if bool_decide (k = key) then Some version else None
  | None => None
  end.

(** [json.NewEncoder(w).Encode] of an error message and of a release. *)
Variable encodeError : string -> list byte.
Variable encodeRelease : LoadResponse -> list byte.

(** The handler of [/v1/control/gateway/release]. *)
Definition releaseHandler (method : string) (q : Query) (files : ConfigFiles)
  (w : ResponseWriter) (s : ControlService) : Outcome ResponseWriter * ControlService :=
  if negb (bool_decide (method = "GET")) then (Done (WriteHeader 405 w), s)
  else
    let gateway := Query_Get q "gateway" in
    let lastVersion := Query_Get q "last_version" in
    let lastPriorityVersions := parsePriorityVersions q in
    match GetGatewayRelease gateway lastVersion lastPriorityVersions files s with
    | (Blocked, s) => (Blocked, s)
    | (Done (inr (statusError statusCode message)), s) =>
        let w := WriteHeader statusCode w in
        (Done (if negb (statusCode =? 304) then Write (encodeError message) w else w), s)
    | (Done (inr (otherError err)), s) =>
        (Done (Write (encodeError (Error err)) (WriteHeader 500 w)), s)
    | (Done (inl resp), s) =>
        let w := w_setHeader (Header_Set (w_Header w) "Content-Type" "application/json") w in
        (Done (Write (encodeRelease resp) w), s)
    end.

End Service.

End Control.

(** ** The proxy (package proxy) *)

Section Dataplane.

Context {B : Type} `{!CircuitBreaker B}.

(** [sre.NewBreaker(sre.WithSuccess(s), sre.WithRequest(n))] *)
Variable sre_NewBreaker : Q -> Z -> B.
(** [net.SplitHostPort], [status.ToGRPCCode], [strconv.Itoa] *)
Variable SplitHostPort : string -> option (string * string).
Variable ToGRPCCode : Z -> Z.
Variable Itoa : Z -> string.
(** Helpers kept in other files of the package. *)
Variable judgeRetryRequired : list condition -> Response -> bool.
Variable isNoBufferingResponse : Response -> bool.
Variable prepareRetryStrategy : Endpoint -> error + retryStrategy.
(** The factories handed to [New], and [Handle] of the mux router. *)
Variable clientFactory : Endpoint -> option error.
Variable middlewareFactory : Middleware -> option error.
Variable router_Handle : list Route -> Route -> option error.

Definition setXFFHeader (req : Request) : Request :=
  match SplitHostPort (req_RemoteAddr req) with
  | Some (clientIP, _) =>
      let prior := req_Header req !! "X-Forwarded-For" in
      let omit := match prior with Some None => true | _ => false end in
      let values := match prior with Some v => sliceElems v | None => [] end in
      let clientIP :=
        if (0 <? length values)%nat
        then String.concat ", " values +:+ ", " +:+ clientIP
        else clientIP in
      if negb omit
      then {| req_Method := req_Method req; req_URL := req_URL req;
              req_RemoteAddr := req_RemoteAddr req;
              req_ProtoMajor := req_ProtoMajor req;
              req_Header := Header_Set (req_Header req) "X-Forwarded-For" clientIP |}
      else req
  | None => req
  end.

(** The status the error mapper picks, and whether it logs. *)
Definition mapError (err : error) : Z * bool :=
  if errors_Is err context_Canceled || bool_decide (Error err = "client disconnected")
  then (499, false)
  else if errors_Is err context_DeadlineExceeded
  then (504, false)
  else (502, true).

Definition writeError (w : ResponseWriter) (r : Request) (e : Endpoint) (err : error)
  : list Event * ResponseWriter :=
  let '(statusCode, logged) := mapError err in
  let logs := if logged then [EvLogError (req_URL r)] else [] in
  let evs := logs ++ [EvHandleRequest statusCode (Some err)] in
  if Protocol_eqb (e_Protocol e) Protocol_GRPC
  then
    let code := Itoa (ToGRPCCode statusCode) in
    let h := Header_Set (w_Header w) "Content-Type" "application/grpc" in
    let h := Header_Set h "Grpc-Status" code in
    let h := Header_Set h "Grpc-Message" (Error err) in
    (evs, WriteHeader 200 (w_setHeader h w))
  else (evs, WriteHeader statusCode w).

(** The three closures returned by [splitRetryMetricsHandler]. *)
Definition retrySuccess (i : Z) : list Event :=
  if i <=? 0 then [] else [EvHandleRetry i "true"].

Definition retryFailed (i : Z) (err : error) : list Event :=
  if i <=? 0 then []
  else if errors_Is err context_Canceled then []
  else [EvHandleRetry i "false"].

Definition retryBreakerTripped (i : Z) : list Event :=
  if i <=? 0 then [] else [EvHandleRetry i "breaker"].

Definition splitRetryMetricsHandler
  : (Z -> list Event) * (Z -> error -> list Event) * (Z -> list Event) :=
  (retrySuccess, retryFailed, retryBreakerTripped).

(** The variables a handler invocation threads through the attempt loop:
    the breaker cell, [reqOpts.LastAttempt], [resp], [err], the calls made
    so far, and whether the goroutine has panicked. *)
Record loopState := {
  ls_breaker : B;
  ls_LastAttempt : bool;
  ls_resp : option Response;
  ls_err : option error;
  ls_trace : list Event;
  ls_panicked : bool;
}.

Definition emit (evs : list Event) (s : loopState) : loopState :=
  {| ls_breaker := ls_breaker s; ls_LastAttempt := ls_LastAttempt s;
     ls_resp := ls_resp s; ls_err := ls_err s; ls_trace := ls_trace s ++ evs;
     ls_panicked := ls_panicked s |}.

Definition setBreaker (b : B) (s : loopState) : loopState :=
  {| ls_breaker := b; ls_LastAttempt := ls_LastAttempt s;
     ls_resp := ls_resp s; ls_err := ls_err s; ls_trace := ls_trace s;
     ls_panicked := ls_panicked s |}.

Definition setLastAttempt (s : loopState) : loopState :=
  {| ls_breaker := ls_breaker s; ls_LastAttempt := true;
     ls_resp := ls_resp s; ls_err := ls_err s; ls_trace := ls_trace s;
     ls_panicked := ls_panicked s |}.

Definition setResp (r : option Response) (s : loopState) : loopState :=
  {| ls_breaker := ls_breaker s; ls_LastAttempt := ls_LastAttempt s;
     ls_resp := r; ls_err := ls_err s; ls_trace := ls_trace s;
     ls_panicked := ls_panicked s |}.

Definition setErr (err : option error) (s : loopState) : loopState :=
  {| ls_breaker := ls_breaker s; ls_LastAttempt := ls_LastAttempt s;
     ls_resp := ls_resp s; ls_err := err; ls_trace := ls_trace s;
     ls_panicked := ls_panicked s |}.

(** A panic: the goroutine unwinds to the recover of [ServeHTTP], running
    the deferred calls on its way. *)
Definition panic (s : loopState) : loopState :=
  {| ls_breaker := ls_breaker s; ls_LastAttempt := ls_LastAttempt s;
     ls_resp := ls_resp s; ls_err := ls_err s; ls_trace := ls_trace s;
     ls_panicked := true |}.

(** [markSuccess], [markFailed], [markBreaker] of [buildEndpoint] *)
Definition markSuccess (i : Z) (s : loopState) : loopState :=
  let s := emit (fst (fst splitRetryMetricsHandler) i) s in
  if 0 <? i
  then emit [EvMarkSuccess i] (setBreaker (MarkSuccess (ls_breaker s)) s)
  else s.

Definition markFailed (i : Z) (err : error) (s : loopState) : loopState :=
  let s := emit (snd (fst splitRetryMetricsHandler) i err) s in
  if 0 <? i
  then emit [EvMarkFailed i] (setBreaker (MarkFailed (ls_breaker s)) s)
  else s.

Definition markBreaker (i : Z) (s : loopState) : loopState :=
  emit (snd splitRetryMetricsHandler i) s.

Section Handler.

Variable strategy : retryStrategy.
Variable a : Arrival.

(** The head of the loop body: the feature gate and the breaker, for
    [i > 0].  The [err] of the [if] statement is its own variable. *)
Definition retryGate (i : Z) (s : loopState) : loopState * bool :=
  if 0 <? i then
    if negb (retryEnabled (ar_upstream a i)) then (s, false)
    else
      match Allow (ls_breaker s) (draw (ar_upstream a i)) with
      | Some err =>
          let s := emit [EvAllow i (Some err)] s in
          (if errors_Is err circuitbreaker_ErrNotAllowed
           then markBreaker i s
           else markFailed i err s, false)
      | None => (emit [EvAllow i None] s, true)
      end
  else (s, true).

(** One pass through the loop body; the flag tells whether the loop goes
    on to [i + 1] ([continue], or the end of the body) or stops ([break], or
    a panic: closing the body of a response that has none). *)
Definition attemptStep (i : Z) (s : loopState) : loopState * bool :=
  match retryGate i s with
  | (s, false) => (s, false)
  | (s, true) =>
      let s := if attempts strategy <=? i + 1 then setLastAttempt s else s in
      match ctxErr (ar_upstream a i) with
      | Some err => (markFailed i err (setErr (Some err) s), false)
      | None =>
          let s := setErr None s in
          let s := emit [EvRoundTrip i (ls_LastAttempt s)] s in
          match roundTrip (ar_upstream a i) with
          | inr err =>
              let s := markFailed i err (setErr (Some err) (setResp None s)) in
              (emit [EvLogError (req_URL (ar_req a))] s, true)
          | inl resp =>
              let s := setResp (Some resp) s in
              if negb (judgeRetryRequired (conditions strategy) resp)
              then (markSuccess i (setLastAttempt s), false)
              else
                let s := markFailed i (errors_New "assertion failed") s in
                (* resp.Body.Close() *)
                match resp_Body resp with
                | Some _ => (setResp (Some (Response_closeBody resp)) s, true)
                | None => (panic s, false)
                end
          end
      end
  end.

(** [for i := 0; i < retryStrategy.attempts; i++], with
    [fuel = attempts - i]. *)
Fixpoint attemptLoop (fuel : nat) (i : Z) (s : loopState) : loopState :=
  match fuel with
  | O => s
  | S fuel =>
      match attemptStep i s with
      | (s, true) => attemptLoop fuel (i + 1) s
      | (s, false) => s
      end
  end.

(** The attempts the loop makes: the indices at which it enters its
    body. *)
Fixpoint attemptCount (fuel : nat) (i : Z) (s : loopState) : nat :=
  match fuel with
  | O => O
  | S fuel =>
      match attemptStep i s with
      | (s, true) => S (attemptCount fuel (i + 1) s)
      | (_, false) => 1%nat
      end
  end.

End Handler.

Definition getReplyMD (ep : Endpoint) (resp : Response) : Header :=
  if Protocol_eqb (e_Protocol ep) Protocol_GRPC
  then resp_Trailer resp
  else resp_Header resp.

(** [for k, v := range resp.Trailer { headers[http.TrailerPrefix+k] = v }] *)
Definition copyTrailers (trailer headers : Header) : Header :=
  map_fold (λ k v h, <[TrailerPrefix +:+ k := v]> h) headers trailer.

(** [doCopyBody]: the calls it makes, the writer afterwards, and its
    error.  [copyNoBuffering] writes the bytes [io.Copy] writes and flushes
    the writer as it goes. *)
Definition doCopyBody (e : Endpoint) (a : Arrival) (resp : Response) (w : ResponseWriter)
  : list Event * ResponseWriter * option error :=
  match resp_Body resp with
  | None => ([], w, None)
  | Some body =>
      let '(sent, err) := ioCopy body (ar_copyFault a) in
      let w := Write sent w in
      let w := if isNoBufferingResponse resp && negb (bool_decide (sent = []))
               then Flush w else w in
      let n := Z.of_nat (length sent) in
      match err with
      | Some err =>
          ([EvHandleSentBytes n;
            EvDoneFunc {| di_Err := Some err; di_ReplyMD := None |};
            EvLogError (e_Path e)], w, Some err)
      | None =>
          ([EvHandleSentBytes n;
            EvDoneFunc {| di_Err := None; di_ReplyMD := Some (getReplyMD e resp) |}],
           w_setHeader (copyTrailers (resp_Trailer resp) (w_Header w)) w, None)
      end
  end.

(** The response relay: from [headers := w.Header()] to the terminal
    [HandleRequest]. *)
Definition relay (e : Endpoint) (a : Arrival) (req : Request) (resp : Response)
  (w : ResponseWriter) : list Event * ResponseWriter :=
  let w := w_setHeader (resp_Header resp ∪ w_Header w) w in
  let w := WriteHeader (resp_StatusCode resp) w in
  let w :=
    if Protocol_eqb (e_Protocol e) Protocol_GRPC
       && (req_ProtoMajor req =? 2)
       && bool_decide (Header_Get (resp_Header resp) "Grpc-Status" = "")
       && ar_flusher a
    then Flush w else w in
  let '(evs, w, err) := doCopyBody e a resp w in
  (evs ++ [EvHandleRequest (resp_StatusCode resp) err], w).

(** The hooks [proxyStream] gives to the reverse proxy. *)
Definition streamHook (e : Endpoint) (req : Request) (h : ProxyHook)
  (sw : loopState * ResponseWriter) : loopState * ResponseWriter :=
  let '(s, w) := sw in
  match h with
  | HookErrorHandler err =>
      let s := emit [EvDoneFunc {| di_Err := Some err; di_ReplyMD := None |}] s in
      let s := markFailed 0 err s in
      let '(evs, w) := writeError w req e err in
      (emit evs s, w)
  | HookModifyResponse resp =>
      let s := emit [EvDoneFunc {| di_Err := None;
                                   di_ReplyMD := Some (getReplyMD e resp) |}] s in
      let s := markSuccess 0 s in
      let s := emit [EvHandleRequest (resp_StatusCode resp) None] s in
      (emit [EvDoOnResponse] s, w)
  end.

(** [proxyStream]: the run of the reverse proxy, which may end in a
    panic, and the deferred [DoOnFinish], which runs either way. *)
Definition proxyStream (e : Endpoint) (a : Arrival) (req : Request)
  (s : loopState) (w : ResponseWriter) : loopState * ResponseWriter :=
  let s := setLastAttempt s in
  let s := if sr_transport (ar_stream a)
           then emit [EvRoundTrip 0 (ls_LastAttempt s)] s else s in
  let '(s, w) := fold_left (λ sw h, streamHook e req h sw) (sr_hooks (ar_stream a)) (s, w) in
  let s := if sr_abort (ar_stream a) then panic s else s in
  (emit [EvDoOnFinish] s, w).

(** The end of a handler invocation, by return or by panic: the deferred
    [HandleLatency] runs either way. *)
Definition served (req : Request) (s : loopState) (w : ResponseWriter)
  (panicked abort : bool) : Served * B :=
  ({| sv_w := w; sv_req := req; sv_LastAttempt := ls_LastAttempt s;
      sv_trace := ls_trace s ++ [EvHandleLatency]; sv_panicked := panicked;
      sv_abort := abort |},
   ls_breaker s).

(** The state a handler invocation starts in: fresh request options, no
    response and no error yet. *)
Definition startState (e : Endpoint) (b : B) : loopState :=
  {| ls_breaker := b; ls_LastAttempt := ro_LastAttempt (NewRequestOptions e);
     ls_resp := None; ls_err := None; ls_trace := []; ls_panicked := false |}.

(** The buffered path from the body capture to the end of the attempt
    loop. *)
Definition bufferedAttempts (e : Endpoint) (strategy : retryStrategy) (a : Arrival)
  (b : B) (body : list byte) : loopState :=
  let s := emit [EvHandleReceivedBytes (Z.of_nat (length body))] (startState e b) in
  attemptLoop strategy a (Z.to_nat (attempts strategy)) 0 s.

(** The attempts a request makes: those of the loop on the buffered path,
    none when the body of the request cannot be read, and the one of the
    reverse proxy in stream mode. *)
Definition attemptsMade (e : Endpoint) (strategy : retryStrategy) (a : Arrival)
  (b : B) : nat :=
  if e_Stream e then 1%nat
  else
    match ar_body a with
    | inr _ => O
    | inl body =>
        let s := emit [EvHandleReceivedBytes (Z.of_nat (length body))] (startState e b) in
        attemptCount strategy a (Z.to_nat (attempts strategy)) 0 s
    end.

(** The handler closure of [buildEndpoint], run on one request with the
    breaker cell in state [b].  A stream handler panics when the reverse
    proxy does, with [http.ErrAbortHandler]; a buffered handler panics on a
    nil dereference, a runtime error. *)
Definition endpointHandler (e : Endpoint) (strategy : retryStrategy)
  (b : B) (w : ResponseWriter) (a : Arrival) : Served * B :=
  let req := setXFFHeader (ar_req a) in
  if e_Stream e then
    let '(s, w) := proxyStream e a req (startState e b) w in
    served req s w (ls_panicked s) (ls_panicked s)
  else
    match ar_body a with
    | inr err =>
        let '(evs, w) := writeError w req e err in
        served req (emit evs (startState e b)) w false false
    | inl body =>
        let s := bufferedAttempts e strategy a b body in
        if ls_panicked s then served req s w true false
        else
          match ls_err s with
          | Some err =>
              let '(evs, w) := writeError w req e err in
              served req (emit evs s) w false false
          | None =>
              match ls_resp s with
              | Some resp =>
                  let '(evs, w) := relay e a req resp w in
                  served req (emit evs s) w false false
              | None => served req s w true false
              end
          end
    end.

(** ** Building endpoints and swapping the route table *)

(** The proxy and the heap around it: the route table behind the atomic
    value, the retry breakers allocated so far, the number of clients made
    by the factory, the clients closed so far, and the tables handed to
    [tryCloseRouter]. *)
Record Proxy := {
  p_router : option (list Route);
  p_breakers : list B;
  p_clients : nat;
  p_closed : list nat;
  p_draining : list (list Route);
}.

Definition closeClient (c : nat) (p : Proxy) : Proxy :=
  {| p_router := p_router p; p_breakers := p_breakers p; p_clients := p_clients p;
     p_closed := p_closed p ++ [c]; p_draining := p_draining p |}.

Definition closeOnError (closer : nat) (err : option error) (p : Proxy) : Proxy :=
  match err with
  | None => p
  | Some _ => closeClient closer p
  end.

(** The loop of [buildMiddleware] on [ms[len-1]], ..., [ms[0]]. *)
Fixpoint buildMiddlewareFrom (rms : list Middleware) (next : Tripper) : error + Tripper :=
  match rms with
  | [] => inr next
  | m :: rms =>
      match middlewareFactory m with
      | Some err =>
          if errors_Is err middleware_ErrNotFound
          then buildMiddlewareFrom rms next
          else inl err
      | None => buildMiddlewareFrom rms (TMiddleware (mw_Name m) next)
      end
  end.

Definition buildMiddleware (ms : list Middleware) (next : Tripper) : error + Tripper :=
  buildMiddlewareFrom (rev ms) next.

Definition allocClient (p : Proxy) : nat * Proxy :=
  (p_clients p,
   {| p_router := p_router p; p_breakers := p_breakers p; p_clients := S (p_clients p);
      p_closed := p_closed p; p_draining := p_draining p |}).

Definition allocBreaker (b : B) (p : Proxy) : nat * Proxy :=
  (length (p_breakers p),
   {| p_router := p_router p; p_breakers := p_breakers p ++ [b]; p_clients := p_clients p;
      p_closed := p_closed p; p_draining := p_draining p |}).

(** [buildEndpoint] up to its return statements, once the client exists. *)
Definition compileEndpoint (e : Endpoint) (ms : list Middleware) (client : nat) (p : Proxy)
  : (error + Handler) * Proxy :=
  let tripper := TClient client in
  let tripper := if e_Stream e then TStream tripper else tripper in
  match buildMiddleware (e_Middlewares e) tripper with
  | inl err => (inl err, p)
  | inr tripper =>
      match buildMiddleware ms tripper with
      | inl err => (inl err, p)
      | inr tripper =>
          match prepareRetryStrategy e with
          | inl err => (inl err, p)
          | inr retryStrategy =>
              let '(retryBreaker, p) := allocBreaker (sre_NewBreaker (8 # 10) 10) p in
              (inr {| h_endpoint := e; h_tripper := tripper;
                      h_strategy := retryStrategy;
                      h_retryBreaker := retryBreaker |}, p)
          end
      end
  end.

Definition buildEndpoint (e : Endpoint) (ms : list Middleware) (p : Proxy)
  : (error + Handler * nat) * Proxy :=
  match clientFactory e with
  | Some err => (inl err, p)
  | None =>
      let '(client, p) := allocClient p in
      let closer := client in
      (* defer closeOnError(closer, &retError) *)
      match compileEndpoint e ms client p with
      | (inl err, p) => (inl err, closeOnError closer (Some err) p)
      | (inr handler, p) => (inr (handler, closer), closeOnError closer None p)
      end
  end.

(** The loop of [Update]: the error it returns with, if any, the router
    under construction and the closers deferred so far, last first. *)
Fixpoint updateLoop (es : list Endpoint) (ms : list Middleware)
  (router : list Route) (deferred : list nat) (p : Proxy)
  : option error * list Route * list nat * Proxy :=
  match es with
  | [] => (None, router, deferred, p)
  | e :: es =>
      match buildEndpoint e ms p with
      | (inl err, p) => (Some err, router, deferred, p)
      | (inr (handler, closer), p) =>
          let deferred := closer :: deferred in
          let route := {| rt_path := e_Path e; rt_method := e_Method e;
                          rt_host := e_Host e; rt_handler := handler;
                          rt_closer := closer |} in
          match router_Handle router route with
          | Some err => (Some err, router, deferred, p)
          | None => updateLoop es ms (router ++ [route]) deferred p
          end
      end
  end.

(** The deferred [closeOnError(closer, &retError)] calls, run on return. *)
Definition runDeferred (deferred : list nat) (retError : option error) (p : Proxy) : Proxy :=
  fold_left (λ p closer, closeOnError closer retError p) deferred p.

Definition swapRouter (router : list Route) (p : Proxy) : option (list Route) * Proxy :=
  (p_router p,
   {| p_router := Some router; p_breakers := p_breakers p; p_clients := p_clients p;
      p_closed := p_closed p; p_draining := p_draining p |}).

(** [tryCloseRouter]: a table that was live is handed to a goroutine that
    closes it within 120 seconds. *)
Definition tryCloseRouter (old : option (list Route)) (p : Proxy) : Proxy :=
  match old with
  | None => p
  | Some r =>
      {| p_router := p_router p; p_breakers := p_breakers p; p_clients := p_clients p;
         p_closed := p_closed p; p_draining := p_draining p ++ [r] |}
  end.

Definition Update (c : Gateway) (p : Proxy) : option error * Proxy :=
  let '(retError, router, deferred, p) :=
    updateLoop (c_Endpoints c) (c_Middlewares c) [] [] p in
  match retError with
  | Some err => (Some err, runDeferred deferred (Some err) p)
  | None =>
      let '(old, p) := swapRouter router p in
      let p := tryCloseRouter old p in
      (None, runDeferred deferred None p)
  end.

Definition New : Proxy :=
  {| p_router := Some []; p_breakers := []; p_clients := 0%nat;
     p_closed := []; p_draining := [] |}.

(** A request dispatched to the handler of a route: the handler works on
    the breaker cell it captured when it was built. *)
Definition serveRoute (h : Handler) (w : ResponseWriter) (a : Arrival) (p : Proxy)
  : option (Served * Proxy) :=
  match p_breakers p !! h_retryBreaker h with
  | None => None
  | Some b =>
      let '(sv, b') := endpointHandler (h_endpoint h) (h_strategy h) b w a in
      Some (sv,
            {| p_router := p_router p;
               p_breakers := <[h_retryBreaker h := b']> (p_breakers p);
               p_clients := p_clients p; p_closed := p_closed p;
               p_draining := p_draining p |})
  end.

(** Requests served one after the other through one route. *)
Definition serveAll (h : Handler) (arrivals : list Arrival) (p : Proxy) : Proxy :=
  fold_left
    (λ p a, match serveRoute h newResponseWriter a p with
            | Some (_, p') => p'
            | None => p
            end)
    arrivals p.

(** ** The shape of the calls made by the attempt loop *)

(** The calls of [markFailed] and of [markSuccess]. *)
Definition failedEvents (i : Z) (err : error) : list Event :=
  retryFailed i err ++ (if 0 <? i then [EvMarkFailed i] else []).

Definition successEvents (i : Z) : list Event :=
  retrySuccess i ++ (if 0 <? i then [EvMarkSuccess i] else []).

(** The calls of the head of the loop body at index [i], and whether the
    body goes on. *)
Inductive gateCalls (i : Z) : list Event -> bool -> Prop :=
| gate_first : i <= 0 -> gateCalls i [] true
| gate_disabled : 0 < i -> gateCalls i [] false
| gate_tripped err :
    0 < i -> errors_Is err circuitbreaker_ErrNotAllowed = true ->
    gateCalls i (EvAllow i (Some err) :: retryBreakerTripped i) false
| gate_failed err :
    0 < i -> errors_Is err circuitbreaker_ErrNotAllowed = false ->
    gateCalls i (EvAllow i (Some err) :: failedEvents i err) false
| gate_allowed : 0 < i -> gateCalls i [EvAllow i None] true.

(** The calls of the rest of the loop body at index [i], entered with
    [LastAttempt = last], and whether the loop goes on to [i + 1]. *)
Inductive bodyCalls (i : Z) (last : bool) : list Event -> bool -> Prop :=
| body_context err : bodyCalls i last (failedEvents i err) false
| body_error err url :
    bodyCalls i last (EvRoundTrip i last :: failedEvents i err ++ [EvLogError url]) true
| body_success : bodyCalls i last (EvRoundTrip i last :: successEvents i) false
| body_retriable :
    bodyCalls i last
      (EvRoundTrip i last :: failedEvents i (errors_New "assertion failed")) true
| body_panic :
    bodyCalls i last
      (EvRoundTrip i last :: failedEvents i (errors_New "assertion failed")) false.

(** The calls of the loop from index [i] on, for [n] attempts. *)
Inductive loopCalls (n : Z) : Z -> list Event -> Prop :=
| loop_done i : n <= i -> loopCalls n i []
| loop_gate_break i g : i < n -> gateCalls i g false -> loopCalls n i g
| loop_break i g b :
    i < n -> gateCalls i g true -> bodyCalls i (n <=? i + 1) b false ->
    loopCalls n i (g ++ b)
| loop_next i g b rest :
    i < n -> gateCalls i g true -> bodyCalls i (n <=? i + 1) b true ->
    loopCalls n (i + 1) rest ->
    loopCalls n i (g ++ b ++ rest).

(** Calls that belong to the retry machinery or reach the upstream. *)
Definition retryCall (ev : Event) : bool :=
  match ev with
  | EvAllow _ _ | EvMarkSuccess _ | EvMarkFailed _ | EvHandleRetry _ _
  | EvRoundTrip _ _ => true
  | _ => false
  end.

(** The calls [markSuccess], [markFailed] and [markBreaker] can make at
    index [i]. *)
Definition markCall (i : Z) (ev : Event) : Prop :=
  0 < i /\ (ev = EvMarkSuccess i \/ ev = EvMarkFailed i \/ exists state, ev = EvHandleRetry i state).

Definition isHandleRetry (ev : Event) : bool :=
  match ev with EvHandleRetry _ _ => true | _ => false end.

Definition isRoundTrip (ev : Event) : bool :=
  match ev with EvRoundTrip _ _ => true | _ => false end.

Definition isDoneFunc (ev : Event) : bool :=
  match ev with EvDoneFunc _ => true | _ => false end.

Definition countOf (f : Event -> bool) (t : list Event) : nat :=
  length (filter (λ ev, f ev = true) t).

(** ** Readings of a handler run *)

(** The operation on the breaker cell that a call of the trace stands
    for. *)
Definition applyMark (b : B) (ev : Event) : B :=
  match ev with
  | EvMarkSuccess _ => MarkSuccess b
  | EvMarkFailed _ => MarkFailed b
  | _ => b
  end.

Definition replayMarks (t : list Event) (b : B) : B := fold_left applyMark t b.

(** The breaker cell of a run holds the breaker the run started with,
    after the marks of the trace so far. *)
Definition replayed (b0 : B) (s : loopState) : Prop :=
  ls_breaker s = replayMarks (ls_trace s) b0.

Definition isMark (ev : Event) : bool :=
  match ev with EvMarkSuccess _ | EvMarkFailed _ => true | _ => false end.

Definition isHandleLatency (ev : Event) : bool :=
  match ev with EvHandleLatency => true | _ => false end.

Definition isHandleRequest (ev : Event) : bool :=
  match ev with EvHandleRequest _ _ => true | _ => false end.

(** What the attempt loop holds in [err] and [resp] while it has not
    panicked: an error is the error of the request context or of the tripper
    at some index, and a response is the answer to the last round trip of the
    trace, its body closed if the answer called for a retry. *)
Definition answered (strategy : retryStrategy) (a : Arrival) (s : loopState) : Prop :=
  ls_panicked s = false ->
  (forall err,
     ls_err s = Some err ->
     exists j,
       0 <= j
       /\ (ctxErr (ar_upstream a j) = Some err \/ roundTrip (ar_upstream a j) = inr err))
  /\ (forall r,
        ls_resp s = Some r ->
        exists j resp pre post last,
          ls_trace s = pre ++ EvRoundTrip j last :: post
          /\ Forall (λ ev, isRoundTrip ev = false) post
          /\ ctxErr (ar_upstream a j) = None
          /\ roundTrip (ar_upstream a j) = inl resp
          /\ r = if judgeRetryRequired (conditions strategy) resp
                 then Response_closeBody resp else resp).

(** What the loop of [buildMiddleware] does with one entry: an error other
    than [ErrNotFound] ends the loop, [ErrNotFound] leaves the tripper as
    it is, and a middleware that was built wraps it. *)
Definition fatal (m : Middleware) : bool :=
  match middlewareFactory m with
  | Some err => negb (errors_Is err middleware_ErrNotFound)
  | None => false
  end.

Definition layer (m : Middleware) (next : Tripper) : Tripper :=
  match middlewareFactory m with
  | Some _ => next
  | None => TMiddleware (mw_Name m) next
  end.

(** Whether the factories and the retry-strategy parser let [buildEndpoint]
    build an endpoint under the middlewares [ms] of the gateway: the client
    factory, every middleware of the endpoint and of the gateway, and
    [prepareRetryStrategy] must not fail. *)
Definition buildable (e : Endpoint) (ms : list Middleware) : bool :=
  match clientFactory e, prepareRetryStrategy e with
  | None, inr _ => forallb (λ m, negb (fatal m)) (e_Middlewares e ++ ms)
  | _, _ => false
  end.

(** ** The entry point of the proxy *)

Section Entry.

(** [ServeHTTP] of the mux router. *)
Variable router_ServeHTTP : list Route -> Request -> Dispatch.
(** The header fields [http.Error] sets and deletes before it writes the
    status. *)
Variable http_Error_Header : Header -> Header.

Definition http_Error (w : ResponseWriter) (message : string) (code : Z) : ResponseWriter :=
  let w := w_setHeader (http_Error_Header (w_Header w)) w in
  let w := WriteHeader code w in
  Write (String.list_byte_of_string (message +:+ String "010" "")) w.

(** What a call of [Proxy.ServeHTTP] leaves behind: the writer, the run of
    the endpoint handler if one was reached, the error a fallback handler
    writes to the access log, the path and code labels of the request counter
    it increments, whether the deferred function recovered a panic, and
    whether it logged the panic with the stack and printed both to the
    standard error. *)
Record Reply := {
  rp_w : ResponseWriter;
  rp_served : option Served;
  rp_logged : option string;
  rp_counted : option (string * Z);
  rp_recovered : bool;
  rp_panicLogged : bool;
}.

Definition notFoundHandler (w : ResponseWriter) : Reply :=
  let code := 404 in
  let message := "404 page not found" in
  {| rp_w := http_Error w message code; rp_served := None;
     rp_logged := Some message;
     rp_counted := Some ("/404", code); rp_recovered := false;
     rp_panicLogged := false |}.

Definition methodNotAllowedHandler (w : ResponseWriter) : Reply :=
  let code := 405 in
  let message := "Method Not Allowed" in
  {| rp_w := http_Error w message code; rp_served := None;
     rp_logged := Some message;
     rp_counted := Some ("/405", code); rp_recovered := false;
     rp_panicLogged := false |}.

(** The deferred function of [ServeHTTP], for a panic it recovers:
    [abort] tells whether the value is [http.ErrAbortHandler], for which it
    returns at once; for any other value it writes 502 and logs. *)
Definition recovered (w : ResponseWriter) (sv : option Served) (abort : bool) : Reply :=
  if abort
  then {| rp_w := w; rp_served := sv; rp_logged := None;
          rp_counted := None; rp_recovered := true; rp_panicLogged := false |}
  else {| rp_w := WriteHeader 502 w; rp_served := sv; rp_logged := None;
          rp_counted := None; rp_recovered := true; rp_panicLogged := true |}.

(** [ServeHTTP]; [None] stands for a handler whose breaker cell is not on
    the heap, which no handler built by [Update] is.  A router that was never
    stored fails the type assertion, a runtime error. *)
Definition ServeHTTP (w : ResponseWriter) (a : Arrival) (p : Proxy)
  : option (Reply * Proxy) :=
  match p_router p with
  | None => Some (recovered w None false, p)
  | Some table =>
      match router_ServeHTTP table (ar_req a) with
      | DispatchRoute r =>
          match serveRoute (rt_handler r) w a p with
          | Some (sv, p') =>
              Some (if sv_panicked sv then recovered (sv_w sv) (Some sv) (sv_abort sv)
                    else {| rp_w := sv_w sv; rp_served := Some sv; rp_logged := None;
                            rp_counted := None; rp_recovered := false;
                            rp_panicLogged := false |}, p')
          | None => None
          end
      | DispatchNotFound => Some (notFoundHandler w, p)
      | DispatchMethodNotAllowed => Some (methodNotAllowedHandler w, p)
      end
  end.

End Entry.

(** ** The bodies of a stream request *)

Section StreamBodies.

(** [strings.EqualFold], and whether a response body is an
    [io.ReadWriteCloser], as the body of a protocol upgrade is. *)
Variable EqualFold : string -> string -> bool.
Variable isReadWriteCloser : Body -> bool.

Definition isWebSocketRequest (r : Request) : bool :=
  EqualFold (Header_Get (req_Header r) "Connection") "Upgrade"
  && EqualFold (Header_Get (req_Header r) "Upgrade") "websocket".

(** [wrapStreamRequestBody], on the tracker of the request; [hasBody]
    tells whether [req.Body] is set. *)
Definition wrapStreamRequestBody (hasBody : bool) (req : Request)
  (ctxValue : MetaStream.Stream) : MetaStream.Stream :=
  if negb hasBody then ctxValue
  else if req_ProtoMajor req =? 1 then
    if isWebSocketRequest req then ctxValue
    else MetaStream.WrapBody ctxValue
  else if req_ProtoMajor req =? 2 then MetaStream.WrapBody ctxValue
  else ctxValue.

(** [wrapStreamResponseBody]: on HTTP/1 the body of an upgrade goes into
    a read-write wrapper and any other body into a read wrapper; both
    register the body with the tracker. *)
Definition wrapStreamResponseBody (resp : Response) (ctxValue : MetaStream.Stream)
  : MetaStream.Stream :=
  match resp_Body resp with
  | None => ctxValue
  | Some body =>
      if resp_ProtoMajor resp =? 1 then
        if isReadWriteCloser body then MetaStream.WrapBody ctxValue
        else MetaStream.WrapBody ctxValue
      else if resp_ProtoMajor resp =? 2 then MetaStream.WrapBody ctxValue
      else ctxValue
  end.

(** The tripper [builtinStreamTripper] puts around the client, on one
    request: [hasOptions] and [hasContext] tell whether the request options
    and the stream context are found in the context of the request, and
    [answer] is what the client returns. *)
Definition builtinStreamTripper (hasOptions hasContext : bool)
  (answer : Response + error) (ctxValue : MetaStream.Stream)
  : (Response + error) * MetaStream.Stream :=
  if negb hasOptions then (answer, ctxValue)
  else if negb hasContext then (answer, ctxValue)
  else
    match answer with
    | inr err => (inr err, ctxValue)
    | inl resp => (inl resp, wrapStreamResponseBody resp ctxValue)
    end.

End StreamBodies.

(** The proxies that calls of [Update] and requests served through
    handlers lead to from a new proxy. *)
Inductive reachable : Proxy -> Prop :=
| reach_New : reachable New
| reach_Update c p : reachable p -> reachable (Update c p).2
| reach_serve h w a p sv p' :
    reachable p -> serveRoute h w a p = Some (sv, p') -> reachable p'.

(** What holds of the proxy between two calls: every client closed so
    far, and every client of a table handed to [tryCloseRouter], was made by
    the factory; and every route of the live table has its breaker cell on
    the heap and a client that was made, was not closed, and belongs to no
    table handed to [tryCloseRouter]. *)
Definition liveRoutes (p : Proxy) : list Route :=
  match p_router p with Some table => table | None => [] end.

Definition consistent (p : Proxy) : Prop :=
  (forall c, c ∈ p_closed p -> (c < p_clients p)%nat)
  /\ (forall t r, t ∈ p_draining p -> r ∈ t -> (rt_closer r < p_clients p)%nat)
  /\ forall r, r ∈ liveRoutes p ->
       (h_retryBreaker (rt_handler r) < length (p_breakers p))%nat
       /\ (rt_closer r < p_clients p)%nat
       /\ (rt_closer r ∉ p_closed p)
       /\ forall t r', t ∈ p_draining p -> r' ∈ t -> rt_closer r' <> rt_closer r.

(** * Properties *)

(** ** Entry: the forwarded-for header *)

Lemma append_assoc (a b c : string) : (a +:+ b) +:+ c = a +:+ b +:+ c.
Proof.
  induction a as [|ch a IH]; [done|].
  change (String ch ((a +:+ b) +:+ c) = String ch (a +:+ b +:+ c)).
  by rewrite IH.
Qed.

Lemma concat_snoc (sep x : string) (l : list string) :
  l ≠ [] -> String.concat sep (l ++ [x]) = String.concat sep l +:+ sep +:+ x.
Proof.
  induction l as [|y l IH]; [done|]. intros _.
  destruct l as [|z l].
  - reflexivity.
  - change (String.concat sep ((y :: z :: l) ++ [x]))
      with (y +:+ sep +:+ String.concat sep ((z :: l) ++ [x])).
    rewrite IH by done.
    change (String.concat sep (y :: z :: l))
      with (y +:+ sep +:+ String.concat sep (z :: l)).
    rewrite !append_assoc. reflexivity.
Qed.

(** C10. A remote address that does not split into host and port leaves the
    request as it is.  One that does leaves it as it is when the header is
    present with the nil slice; otherwise the header becomes the single
    value made of the prior values and the client address, joined by a comma
    and a space, and no other field of the request changes. *)
Theorem setXFFHeader_frame (req : Request) :
  match SplitHostPort (req_RemoteAddr req) with
  | None => setXFFHeader req = req
  | Some (clientIP, _) =>
      match req_Header req !! "X-Forwarded-For" with
      | Some None => setXFFHeader req = req
      | prior =>
          let values := match prior with Some (Some l) => l | _ => [] end in
          setXFFHeader req =
          {| req_Method := req_Method req; req_URL := req_URL req;
             req_RemoteAddr := req_RemoteAddr req;
             req_ProtoMajor := req_ProtoMajor req;
             req_Header :=
               <["X-Forwarded-For" := Some [String.concat ", " (values ++ [clientIP])]]>
                 (req_Header req) |}
      end
  end.
Proof.
  unfold setXFFHeader.
  destruct (SplitHostPort (req_RemoteAddr req)) as [[clientIP port]|]; [|done].
  destruct (req_Header req !! "X-Forwarded-For") as [[values|]|] eqn:Hprior;
    cbn [negb sliceElems]; [|done|done].
  destruct values as [|v values]; [done|].
  rewrite concat_snoc by done. reflexivity.
Qed.

(** ** The error mapper *)

Lemma Header_Set_lookup (h : Header) (k v : string) :
  Header_Set h k v !! k = Some (Some [v]).
Proof. apply lookup_insert_eq. Qed.

Lemma Header_Set_lookup_ne (h : Header) (k k' v : string) :
  k ≠ k' -> Header_Set h k v !! k' = h !! k'.
Proof. intros. by apply lookup_insert_ne. Qed.

(** C3. On a writer whose header is not yet written, the error mapper picks
    499 for a canceled context or the text "client disconnected", 504 for an
    exceeded deadline and 502, with an error log, for anything else; it
    reports the request to the observer with that status; for a gRPC endpoint
    it sets Content-Type, Grpc-Status (the translated status) and
    Grpc-Message (the error text) and writes 200, for any other endpoint it
    writes the mapped status and leaves the headers alone. *)
Theorem writeError_mapping (w : ResponseWriter) (r : Request) (e : Endpoint) (err : error) :
  w_statusCode w = None ->
  let statusCode :=
    if errors_Is err context_Canceled || bool_decide (Error err = "client disconnected")
    then 499
    else if errors_Is err context_DeadlineExceeded then 504 else 502 in
  let evs := fst (writeError w r e err) in
  let w' := snd (writeError w r e err) in
  evs = (if statusCode =? 502 then [EvLogError (req_URL r)] else [])
        ++ [EvHandleRequest statusCode (Some err)]
  /\ w_body w' = w_body w
  /\ match e_Protocol e with
     | Protocol_GRPC =>
         w_Header w' !! "Content-Type" = Some (Some ["application/grpc"])
         /\ w_Header w' !! "Grpc-Status" = Some (Some [Itoa (ToGRPCCode statusCode)])
         /\ w_Header w' !! "Grpc-Message" = Some (Some [Error err])
         /\ w_statusCode w' = Some 200
     | Protocol_HTTP =>
         w_Header w' = w_Header w /\ w_statusCode w' = Some statusCode
     end.
Proof.
  intros Hfresh. unfold writeError, mapError.
  destruct (errors_Is err context_Canceled || bool_decide (Error err = "client disconnected"));
    [|destruct (errors_Is err context_DeadlineExceeded)];
    destruct (e_Protocol e); cbn -[Header_Set]; rewrite ?Hfresh;
    repeat split;
    try (rewrite !Header_Set_lookup_ne by done); apply Header_Set_lookup.
Qed.

(** ** The attempt loop *)

Lemma markFailed_trace i err s :
  ls_trace (markFailed i err s) = ls_trace s ++ failedEvents i err.
Proof.
  unfold markFailed, failedEvents; simpl.
  destruct (0 <? i); simpl; by rewrite ?app_assoc, ?app_nil_r.
Qed.

Lemma markSuccess_trace i s :
  ls_trace (markSuccess i s) = ls_trace s ++ successEvents i.
Proof.
  unfold markSuccess, successEvents; simpl.
  destruct (0 <? i); simpl; by rewrite ?app_assoc, ?app_nil_r.
Qed.

Lemma markFailed_LastAttempt i err s :
  ls_LastAttempt (markFailed i err s) = ls_LastAttempt s.
Proof. unfold markFailed. by destruct (0 <? i). Qed.

Lemma markSuccess_LastAttempt i s :
  ls_LastAttempt (markSuccess i s) = ls_LastAttempt s.
Proof. unfold markSuccess. by destruct (0 <? i). Qed.

Lemma retryGate_calls a i s :
  exists g,
    ls_trace (retryGate a i s).1 = ls_trace s ++ g
    /\ ls_LastAttempt (retryGate a i s).1 = ls_LastAttempt s
    /\ gateCalls i g (retryGate a i s).2.
Proof.
  unfold retryGate. destruct (0 <? i) eqn:Hi.
  - apply Z.ltb_lt in Hi.
    destruct (negb _); simpl.
    { exists []. rewrite app_nil_r. eauto using gateCalls. }
    destruct (Allow _ _) as [err|]; simpl.
    + destruct (errors_Is err circuitbreaker_ErrNotAllowed) eqn:Herr.
      * exists (EvAllow i (Some err) :: retryBreakerTripped i).
        unfold markBreaker; simpl. rewrite <- app_assoc.
        eauto using gateCalls.
      * exists (EvAllow i (Some err) :: failedEvents i err).
        rewrite markFailed_trace, markFailed_LastAttempt; simpl.
        rewrite <- app_assoc. eauto using gateCalls.
    + exists [EvAllow i None]. eauto using gateCalls.
  - apply Z.ltb_ge in Hi. exists []. simpl. rewrite app_nil_r.
    eauto using gateCalls.
Qed.

Lemma attemptStep_calls strategy a i s :
  ls_LastAttempt s = false ->
  let r := attemptStep strategy a i s in
  (exists g, r.2 = false /\ ls_trace r.1 = ls_trace s ++ g /\ gateCalls i g false)
  \/ (exists g b,
        ls_trace r.1 = ls_trace s ++ g ++ b
        /\ gateCalls i g true
        /\ bodyCalls i (attempts strategy <=? i + 1) b r.2
        /\ (r.2 = true -> ls_LastAttempt r.1 = (attempts strategy <=? i + 1))).
Proof.
  intros Hlast. unfold attemptStep.
  destruct (retryGate_calls a i s) as (g & Hg & Hl & Hgate).
  destruct (retryGate a i s) as [s1 [|]]; simpl in *.
  2: { left. eauto. }
  right. exists g.
  assert (Hflag : ls_LastAttempt
            (if attempts strategy <=? i + 1 then setLastAttempt s1 else s1)
          = (attempts strategy <=? i + 1))
    by (destruct (_ <=? _); simpl; congruence).
  assert (Htr : ls_trace
            (if attempts strategy <=? i + 1 then setLastAttempt s1 else s1)
          = ls_trace s ++ g)
    by (by destruct (_ <=? _)).
  set (s2 := if _ <=? _ then _ else _) in *.
  destruct (ctxErr _) as [err|]; simpl.
  - exists (failedEvents i err).
    rewrite markFailed_trace; simpl. rewrite Htr, <- app_assoc.
    split_and!; [done|done|constructor|done].
  - destruct (roundTrip _) as [resp|err]; simpl.
    + destruct (negb _); simpl.
      * exists (EvRoundTrip i (attempts strategy <=? i + 1) :: successEvents i).
        rewrite markSuccess_trace; simpl. rewrite Htr, Hflag, <- !app_assoc.
        split_and!; [done|done|constructor|done].
      * exists (EvRoundTrip i (attempts strategy <=? i + 1)
                :: failedEvents i (errors_New "assertion failed")).
        destruct (resp_Body resp); simpl;
          rewrite markFailed_trace, ?markFailed_LastAttempt; simpl;
          rewrite Htr, Hflag, <- !app_assoc;
          (split_and!; [done|done|constructor|done]).
    + exists (EvRoundTrip i (attempts strategy <=? i + 1)
              :: failedEvents i err ++ [EvLogError (req_URL (ar_req a))]).
      rewrite markFailed_trace, markFailed_LastAttempt; simpl.
      rewrite Htr, Hflag, <- !app_assoc.
      split_and!; [done|done|constructor|done].
Qed.

Lemma attemptLoop_calls strategy a fuel i s :
  fuel = Z.to_nat (attempts strategy - i) ->
  ls_LastAttempt s = false ->
  exists evs,
    ls_trace (attemptLoop strategy a fuel i s) = ls_trace s ++ evs
    /\ loopCalls (attempts strategy) i evs.
Proof.
  revert i s. induction fuel as [|fuel IH]; intros i s Hfuel Hlast.
  - exists []. rewrite app_nil_r. split; [done|]. constructor. lia.
  - assert (Hi : i < attempts strategy) by lia.
    simpl. destruct (attemptStep_calls strategy a i s Hlast)
      as [(g & Hstop & Htr & Hg)|(g & b & Htr & Hg & Hb & Hflag)];
      destruct (attemptStep strategy a i s) as [s1 c]; simpl in *.
    + subst c. exists g. eauto using loopCalls.
    + destruct c.
      * destruct (decide (fuel = 0%nat)) as [->|Hmore].
        { exists (g ++ b ++ []). split; [by rewrite app_nil_r|].
          eapply loop_next; eauto. constructor. lia. }
        destruct (IH (i + 1) s1) as (rest & Hrest & Hloop); [lia| |].
        { rewrite Hflag by done. apply Z.leb_gt. lia. }
        exists (g ++ b ++ rest). rewrite Hrest, Htr, <- !app_assoc.
        eauto using loopCalls.
      * exists (g ++ b). eauto using loopCalls.
Qed.

(** *** Which calls the loop makes *)

Lemma failedEvents_nonpos i err : i <= 0 -> failedEvents i err = [].
Proof.
  intros Hi. unfold failedEvents, retryFailed.
  destruct (Z.leb_spec i 0), (Z.ltb_spec 0 i); (done || lia).
Qed.

Lemma failedEvents_pos i err :
  0 < i ->
  failedEvents i err
  = (if errors_Is err context_Canceled then [] else [EvHandleRetry i "false"])
    ++ [EvMarkFailed i].
Proof.
  intros Hi. unfold failedEvents, retryFailed.
  destruct (Z.leb_spec i 0), (Z.ltb_spec 0 i); (done || lia).
Qed.

Lemma successEvents_nonpos i : i <= 0 -> successEvents i = [].
Proof.
  intros Hi. unfold successEvents, retrySuccess.
  destruct (Z.leb_spec i 0), (Z.ltb_spec 0 i); (done || lia).
Qed.

Lemma successEvents_pos i :
  0 < i -> successEvents i = [EvHandleRetry i "true"; EvMarkSuccess i].
Proof.
  intros Hi. unfold successEvents, retrySuccess.
  destruct (Z.leb_spec i 0), (Z.ltb_spec 0 i); (done || lia).
Qed.

Lemma retryBreakerTripped_pos i : 0 < i -> retryBreakerTripped i = [EvHandleRetry i "breaker"].
Proof. intros Hi. unfold retryBreakerTripped. destruct (Z.leb_spec i 0); (done || lia). Qed.

Lemma failedEvents_elem i err ev : ev ∈ failedEvents i err -> markCall i ev.
Proof.
  destruct (Z.leb_spec i 0) as [Hi|Hi].
  - rewrite failedEvents_nonpos by done. by intros ?%elem_of_nil.
  - rewrite failedEvents_pos by done. unfold markCall.
    destruct (errors_Is _ _); set_solver.
Qed.

Lemma successEvents_elem i ev : ev ∈ successEvents i -> markCall i ev.
Proof.
  destruct (Z.leb_spec i 0) as [Hi|Hi].
  - rewrite successEvents_nonpos by done. by intros ?%elem_of_nil.
  - rewrite successEvents_pos by done. unfold markCall. set_solver.
Qed.

Lemma gateCalls_elem i g c ev :
  gateCalls i g c -> ev ∈ g ->
  0 < i /\ ((exists r, ev = EvAllow i r) \/ markCall i ev).
Proof.
  intros Hg Hev. inversion Hg; subst; try by apply elem_of_nil in Hev.
  - rewrite retryBreakerTripped_pos in Hev by done. unfold markCall. set_solver.
  - apply elem_of_cons in Hev as [->|Hev%failedEvents_elem]; eauto.
  - set_solver.
Qed.

Lemma bodyCalls_elem i last b c ev :
  bodyCalls i last b c -> ev ∈ b ->
  ev = EvRoundTrip i last \/ markCall i ev \/ exists url, ev = EvLogError url.
Proof.
  intros Hb Hev. inversion Hb; subst.
  - apply failedEvents_elem in Hev. eauto.
  - apply elem_of_cons in Hev as [->|Hev]; [eauto|].
    apply elem_of_app in Hev as [Hev%failedEvents_elem|Hev]; [eauto|].
    apply list_elem_of_singleton in Hev. eauto.
  - apply elem_of_cons in Hev as [->|Hev%successEvents_elem]; eauto.
  - apply elem_of_cons in Hev as [->|Hev%failedEvents_elem]; eauto.
  - apply elem_of_cons in Hev as [->|Hev%failedEvents_elem]; eauto.
Qed.

(** Every call of the loop belongs to an index the loop reaches; the
    breaker and the retry metric are touched at positive indices only, and a
    round trip at [j] sees [LastAttempt] set exactly when [j] is the final
    index. *)
Lemma loopCalls_elem n i evs ev :
  loopCalls n i evs -> ev ∈ evs ->
  exists j, i <= j < n
    /\ ((0 < j /\ exists r, ev = EvAllow j r)
        \/ markCall j ev
        \/ ev = EvRoundTrip j (n <=? j + 1)
        \/ exists url, ev = EvLogError url).
Proof.
  induction 1 as [i Hn|i g Hi Hg|i g b Hi Hg Hb|i g b rest Hi Hg Hb Hrest IH];
    intros Hev.
  - by apply elem_of_nil in Hev.
  - destruct (gateCalls_elem _ _ _ _ Hg Hev) as [? [?|?]]; exists i; eauto with lia.
  - apply elem_of_app in Hev as [Hev|Hev].
    + destruct (gateCalls_elem _ _ _ _ Hg Hev) as [? [?|?]]; exists i; eauto with lia.
    + destruct (bodyCalls_elem _ _ _ _ _ Hb Hev) as [?|[?|?]]; exists i;
        eauto 6 with lia.
  - apply elem_of_app in Hev as [Hev|Hev].
    + destruct (gateCalls_elem _ _ _ _ Hg Hev) as [? [?|?]]; exists i; eauto with lia.
    + apply elem_of_app in Hev as [Hev|Hev].
      * destruct (bodyCalls_elem _ _ _ _ _ Hb Hev) as [?|[?|?]]; exists i;
          eauto 6 with lia.
      * destruct (IH Hev) as (j & Hj & Hcase). exists j. split; [lia|done].
Qed.

(** *** The order of the calls *)

Lemma markCall_not_trip i j l : markCall i (EvRoundTrip j l) -> False.
Proof. intros [_ [?|[?|[? ?]]]]; discriminate. Qed.

Lemma markCall_not_allow i j r : markCall i (EvAllow j r) -> False.
Proof. intros [_ [?|[?|[? ?]]]]; discriminate. Qed.

Lemma gateCalls_no_trip i g c k j l :
  gateCalls i g c -> g !! k = Some (EvRoundTrip j l) -> False.
Proof.
  intros Hg Hk%list_elem_of_lookup_2.
  destruct (gateCalls_elem _ _ _ _ Hg Hk) as [_ [[r ?]|?%markCall_not_trip]]; done.
Qed.

Lemma bodyCalls_trip i last b c k j l :
  bodyCalls i last b c -> b !! k = Some (EvRoundTrip j l) ->
  k = 0%nat /\ j = i /\ l = last.
Proof.
  intros Hb Hk. inversion Hb; subst.
  - apply list_elem_of_lookup_2, failedEvents_elem, markCall_not_trip in Hk. done.
  - destruct k as [|k]; [by simplify_eq/=|]. simpl in Hk.
    apply list_elem_of_lookup_2, elem_of_app in Hk
      as [Hk%failedEvents_elem%markCall_not_trip|Hk%list_elem_of_singleton]; done.
  - destruct k as [|k]; [by simplify_eq/=|]. simpl in Hk.
    apply list_elem_of_lookup_2, successEvents_elem, markCall_not_trip in Hk. done.
  - destruct k as [|k]; [by simplify_eq/=|]. simpl in Hk.
    apply list_elem_of_lookup_2, failedEvents_elem, markCall_not_trip in Hk. done.
  - destruct k as [|k]; [by simplify_eq/=|]. simpl in Hk.
    apply list_elem_of_lookup_2, failedEvents_elem, markCall_not_trip in Hk. done.
Qed.

Lemma bodyCalls_no_allow i last b c k j r :
  bodyCalls i last b c -> b !! k = Some (EvAllow j r) -> False.
Proof.
  intros Hb Hk%list_elem_of_lookup_2.
  destruct (bodyCalls_elem _ _ _ _ _ Hb Hk) as [?|[?%markCall_not_allow|[? ?]]]; done.
Qed.

Lemma gateCalls_enter i g :
  gateCalls i g true -> (i <= 0 /\ g = []) \/ (0 < i /\ g = [EvAllow i None]).
Proof. inversion 1; subst; eauto. Qed.

Lemma loopCalls_done n i evs : n <= i -> loopCalls n i evs -> evs = [].
Proof. intros Hn. inversion 1; subst; (done || lia). Qed.

(** A round trip at a positive index comes after a granted [Allow] for
    that index. *)
Lemma loopCalls_allow_first n i evs p j l :
  loopCalls n i evs -> evs !! p = Some (EvRoundTrip j l) -> 0 < j ->
  EvAllow j None ∈ take p evs.
Proof.
  intros Hloop. revert p.
  induction Hloop as [i Hn|i g Hi Hg|i g b Hi Hg Hb|i g b rest Hi Hg Hb Hrest IH];
    intros p Hp Hj.
  - done.
  - by destruct (gateCalls_no_trip _ _ _ _ _ _ Hg Hp).
  - apply lookup_app_Some in Hp as [Hp|[Hle Hp]];
      [by destruct (gateCalls_no_trip _ _ _ _ _ _ Hg Hp)|].
    destruct (bodyCalls_trip _ _ _ _ _ _ _ Hb Hp) as (Hk & -> & ->).
    destruct (gateCalls_enter _ _ Hg) as [[? _]|[_ ->]]; [lia|].
    simpl in *. assert (p = 1%nat) as -> by lia. set_solver.
  - apply lookup_app_Some in Hp as [Hp|[Hle Hp]];
      [by destruct (gateCalls_no_trip _ _ _ _ _ _ Hg Hp)|].
    apply lookup_app_Some in Hp as [Hp|[Hle' Hp]].
    + destruct (bodyCalls_trip _ _ _ _ _ _ _ Hb Hp) as (Hk & -> & ->).
      destruct (gateCalls_enter _ _ Hg) as [[? _]|[_ ->]]; [lia|].
      simpl in *. assert (p = 1%nat) as -> by lia. set_solver.
    + specialize (IH _ Hp Hj).
      rewrite take_app_ge by lia. rewrite take_app_ge by lia.
      set_solver.
Qed.

(** A refused [Allow] ends the loop: what follows is the breaker event or
    the calls of [markFailed], and nothing else. *)
Lemma loopCalls_refusal n i evs p j err :
  loopCalls n i evs -> evs !! p = Some (EvAllow j (Some err)) ->
  drop (S p) evs
  = if errors_Is err circuitbreaker_ErrNotAllowed
    then retryBreakerTripped j else failedEvents j err.
Proof.
  intros Hloop. revert p.
  induction Hloop as [i Hn|i g Hi Hg|i g b Hi Hg Hb|i g b rest Hi Hg Hb Hrest IH];
    intros p Hp.
  - done.
  - inversion Hg as [| |err' H0 Herr|err' H0 Herr|]; subst; try done.
    + destruct p as [|p]; simpl in Hp.
      * simplify_eq. by rewrite Herr.
      * rewrite retryBreakerTripped_pos in Hp by done.
        destruct p; simplify_eq/=.
    + destruct p as [|p]; simpl in Hp.
      * simplify_eq. by rewrite Herr.
      * apply list_elem_of_lookup_2, failedEvents_elem, markCall_not_allow in Hp. done.
  - apply lookup_app_Some in Hp as [Hp|[Hle Hp]].
    + destruct (gateCalls_enter _ _ Hg) as [[_ ->]|[_ ->]]; [done|].
      destruct p; simplify_eq/=.
    + by destruct (bodyCalls_no_allow _ _ _ _ _ _ _ Hb Hp).
  - apply lookup_app_Some in Hp as [Hp|[Hle Hp]].
    + destruct (gateCalls_enter _ _ Hg) as [[_ ->]|[_ ->]]; [done|].
      destruct p; simplify_eq/=.
    + apply lookup_app_Some in Hp as [Hp|[Hle' Hp]];
        [by destruct (bodyCalls_no_allow _ _ _ _ _ _ _ Hb Hp)|].
      rewrite <- (IH _ Hp).
      rewrite drop_app_ge by lia. rewrite drop_app_ge by lia.
      f_equal. lia.
Qed.

(** Round trips happen in the order of their indices. *)
Lemma loopCalls_trip_order n i evs p q j j' l l' :
  loopCalls n i evs ->
  evs !! p = Some (EvRoundTrip j l) -> evs !! q = Some (EvRoundTrip j' l') ->
  (p < q)%nat -> j < j'.
Proof.
  intros Hloop. revert p q.
  induction Hloop as [i Hn|i g Hi Hg|i g b Hi Hg Hb|i g b rest Hi Hg Hb Hrest IH];
    intros p q Hp Hq Hpq.
  - done.
  - by destruct (gateCalls_no_trip _ _ _ _ _ _ Hg Hp).
  - apply lookup_app_Some in Hp as [Hp|[Hle Hp]];
      [by destruct (gateCalls_no_trip _ _ _ _ _ _ Hg Hp)|].
    apply lookup_app_Some in Hq as [Hq|[Hle' Hq]];
      [by destruct (gateCalls_no_trip _ _ _ _ _ _ Hg Hq)|].
    destruct (bodyCalls_trip _ _ _ _ _ _ _ Hb Hp) as (Hk & _).
    destruct (bodyCalls_trip _ _ _ _ _ _ _ Hb Hq) as (Hk' & _). lia.
  - apply lookup_app_Some in Hp as [Hp|[Hle Hp]];
      [by destruct (gateCalls_no_trip _ _ _ _ _ _ Hg Hp)|].
    apply lookup_app_Some in Hq as [Hq|[Hle' Hq]];
      [by destruct (gateCalls_no_trip _ _ _ _ _ _ Hg Hq)|].
    apply lookup_app_Some in Hp as [Hp|[Hlp Hp]];
      apply lookup_app_Some in Hq as [Hq|[Hlq Hq]].
    + destruct (bodyCalls_trip _ _ _ _ _ _ _ Hb Hp) as (Hk & _).
      destruct (bodyCalls_trip _ _ _ _ _ _ _ Hb Hq) as (Hk' & _). lia.
    + destruct (bodyCalls_trip _ _ _ _ _ _ _ Hb Hp) as (_ & -> & _).
      apply list_elem_of_lookup_2 in Hq.
      destruct (loopCalls_elem _ _ _ _ Hrest Hq)
        as (k & Hk & [[_ [? ?]]|[?%markCall_not_trip|[?|[? ?]]]]); simplify_eq; lia.
    + apply lookup_lt_Some in Hq. lia.
    + eapply IH; eauto. lia.
Qed.

(** *** Counting retry events and round trips *)

Lemma countOf_nil f : countOf f [] = 0%nat.
Proof. reflexivity. Qed.

Lemma countOf_cons f ev t :
  countOf f (ev :: t) = ((if f ev then 1 else 0) + countOf f t)%nat.
Proof.
  unfold countOf. rewrite filter_cons.
  destruct (f ev); case_decide; simpl; congruence.
Qed.

Lemma countOf_app f t1 t2 : countOf f (t1 ++ t2) = (countOf f t1 + countOf f t2)%nat.
Proof. unfold countOf. by rewrite filter_app, length_app. Qed.

Lemma countOf_zero f t : Forall (λ ev, f ev = false) t -> countOf f t = 0%nat.
Proof.
  induction 1 as [|ev t Hev _ IH]; [done|].
  rewrite countOf_cons, Hev, IH. done.
Qed.

Ltac count_calls :=
  repeat (rewrite countOf_app || rewrite countOf_cons || rewrite countOf_nil);
  cbn [isRoundTrip isHandleRetry].

Lemma failedEvents_count i err :
  countOf isRoundTrip (failedEvents i err) = 0%nat
  /\ (countOf isHandleRetry (failedEvents i err) <= if (0 <? i)%Z then 1 else 0)%nat.
Proof.
  destruct (Z.ltb_spec 0 i) as [Hi|Hi].
  - rewrite failedEvents_pos by done. destruct (errors_Is _ _); count_calls; lia.
  - rewrite failedEvents_nonpos by done. done.
Qed.

Lemma successEvents_count i :
  countOf isRoundTrip (successEvents i) = 0%nat
  /\ (countOf isHandleRetry (successEvents i) <= if (0 <? i)%Z then 1 else 0)%nat.
Proof.
  destruct (Z.ltb_spec 0 i) as [Hi|Hi].
  - rewrite successEvents_pos by done. count_calls; lia.
  - rewrite successEvents_nonpos by done. done.
Qed.

Lemma gateCalls_count i g c :
  gateCalls i g c ->
  countOf isRoundTrip g = 0%nat
  /\ (countOf isHandleRetry g <= 1)%nat
  /\ (c = true -> countOf isHandleRetry g = 0%nat)
  /\ (c = false -> 0 < i).
Proof.
  inversion 1 as [| |err Hi Herr|err Hi Herr|]; subst; try (by count_calls; eauto with lia).
  - rewrite retryBreakerTripped_pos by done. count_calls. eauto with lia.
  - destruct (failedEvents_count i err) as [Ht Hr].
    destruct (Z.ltb_spec 0 i); [|lia].
    count_calls. rewrite Ht. split_and!; (done || lia).
Qed.

Lemma bodyCalls_count i last b c :
  bodyCalls i last b c ->
  (countOf isHandleRetry b <= if (0 <? i)%Z then 1 else 0)%nat
  /\ (c = true -> countOf isRoundTrip b = 1%nat).
Proof.
  inversion 1 as [err|err url| | |]; subst; count_calls.
  - destruct (failedEvents_count i err) as [Ht Hr]. split; [done|done].
  - destruct (failedEvents_count i err) as [Ht Hr]. rewrite Ht. split; [lia|done].
  - destruct (successEvents_count i) as [Ht Hr]. split; [done|done].
  - destruct (failedEvents_count i (errors_New "assertion failed")) as [Ht Hr].
    rewrite Ht. split; [done|done].
  - destruct (failedEvents_count i (errors_New "assertion failed")) as [Ht Hr].
    split; [done|done].
Qed.

(** The loop emits at most one retry event per positive index it reaches,
    hence no more than it makes round trips when it starts at index 0. *)
Lemma loopCalls_count n i evs :
  loopCalls n i evs ->
  (countOf isHandleRetry evs
   <= countOf isRoundTrip evs + if (0 <? i)%Z then 1 else 0)%nat
  /\ (countOf isHandleRetry evs <= Z.to_nat (n - Z.max i 1)%Z)%nat.
Proof.
  induction 1 as [i Hn|i g Hi Hg|i g b Hi Hg Hb|i g b rest Hi Hg Hb Hrest IH].
  - rewrite !countOf_nil. split; lia.
  - destruct (gateCalls_count _ _ _ Hg) as (Ht & Hr & _ & Hpos).
    specialize (Hpos eq_refl). destruct (Z.ltb_spec 0 i); lia.
  - destruct (gateCalls_count _ _ _ Hg) as (Ht & _ & Hr & _).
    destruct (bodyCalls_count _ _ _ _ Hb) as (Hr' & _).
    rewrite !countOf_app, Hr by done.
    destruct (Z.ltb_spec 0 i); lia.
  - destruct (gateCalls_count _ _ _ Hg) as (Ht & _ & Hr & _).
    destruct (bodyCalls_count _ _ _ _ Hb) as (Hr' & Ht').
    destruct IH as [IH1 IH2].
    rewrite !countOf_app, Hr, Ht, Ht' by done.
    destruct (Z.ltb_spec 0 i), (Z.ltb_spec 0 (i + 1)); lia.
Qed.

(** ** The handler around the loop *)

Lemma writeError_events w r e err :
  Forall (λ ev, retryCall ev = false) (writeError w r e err).1
  /\ countOf isDoneFunc (writeError w r e err).1 = 0%nat.
Proof.
  unfold writeError. destruct (mapError err) as [statusCode [|]];
    destruct (Protocol_eqb _ _); simpl; split; repeat constructor.
Qed.

Lemma doCopyBody_events e a resp w :
  Forall (λ ev, retryCall ev = false) (doCopyBody e a resp w).1.1
  /\ countOf isDoneFunc (doCopyBody e a resp w).1.1
     = match resp_Body resp with Some _ => 1%nat | None => 0%nat end.
Proof.
  unfold doCopyBody. destruct (resp_Body resp) as [body|]; [|by split].
  destruct (ioCopy body (ar_copyFault a)) as [sent [err|]]; simpl;
    split; repeat constructor.
Qed.

Lemma relay_events e a req resp w :
  Forall (λ ev, retryCall ev = false) (relay e a req resp w).1
  /\ countOf isDoneFunc (relay e a req resp w).1
     = match resp_Body resp with Some _ => 1%nat | None => 0%nat end.
Proof.
  unfold relay.
  destruct (doCopyBody_events e a resp
              (if Protocol_eqb (e_Protocol e) Protocol_GRPC
                  && (req_ProtoMajor req =? 2)
                  && bool_decide (Header_Get (resp_Header resp) "Grpc-Status" = "")
                  && ar_flusher a
               then Flush (WriteHeader (resp_StatusCode resp)
                             (w_setHeader (resp_Header resp ∪ w_Header w) w))
               else WriteHeader (resp_StatusCode resp)
                      (w_setHeader (resp_Header resp ∪ w_Header w) w)))
    as [Hq Hd].
  destruct (doCopyBody _ _ _ _) as [[evs w'] err]; simpl in *.
  split.
  - apply Forall_app. split; [done|]. repeat constructor.
  - rewrite countOf_app, Hd. rewrite countOf_cons, countOf_nil. simpl. lia.
Qed.

Lemma streamHook_events e req h s w :
  exists evs,
    ls_trace (streamHook e req h (s, w)).1 = ls_trace s ++ evs
    /\ ls_LastAttempt (streamHook e req h (s, w)).1 = ls_LastAttempt s
    /\ Forall (λ ev, retryCall ev = false) evs
    /\ countOf isDoneFunc evs = 1%nat.
Proof.
  destruct h as [err|resp]; simpl.
  - destruct (writeError_events w req e err) as [Hq Hd].
    destruct (writeError w req e err) as [evs w']; simpl in *.
    exists (EvDoneFunc {| di_Err := Some err; di_ReplyMD := None |} :: evs).
    split_and!.
    + by rewrite <- !app_assoc.
    + done.
    + by constructor.
    + by rewrite countOf_cons, Hd.
  - eexists [_; _; _]. split_and!; [by rewrite <- !app_assoc|done| |done].
    repeat constructor.
Qed.

Lemma streamHooks_events e req hooks s w :
  exists evs,
    ls_trace (fold_left (λ sw h, streamHook e req h sw) hooks (s, w)).1
    = ls_trace s ++ evs
    /\ ls_LastAttempt (fold_left (λ sw h, streamHook e req h sw) hooks (s, w)).1
       = ls_LastAttempt s
    /\ Forall (λ ev, retryCall ev = false) evs
    /\ countOf isDoneFunc evs = length hooks.
Proof.
  revert s w. induction hooks as [|h hooks IH]; intros s w; cbn [fold_left].
  - exists []. by rewrite app_nil_r.
  - destruct (streamHook_events e req h s w) as (evs1 & Ht1 & Hl1 & Hq1 & Hd1).
    destruct (streamHook e req h (s, w)) as [s1 w1]; cbn [fst snd] in *.
    destruct (IH s1 w1) as (evs2 & Ht2 & Hl2 & Hq2 & Hd2).
    exists (evs1 ++ evs2). split_and!.
    + by rewrite Ht2, Ht1, app_assoc.
    + congruence.
    + by apply Forall_app.
    + rewrite countOf_app. cbn [length]. lia.
Qed.

Lemma bufferedAttempts_calls e strategy a b body :
  exists evs,
    ls_trace (bufferedAttempts e strategy a b body)
    = EvHandleReceivedBytes (Z.of_nat (length body)) :: evs
    /\ loopCalls (attempts strategy) 0 evs.
Proof.
  unfold bufferedAttempts.
  destruct (attemptLoop_calls strategy a (Z.to_nat (attempts strategy)) 0
              (emit [EvHandleReceivedBytes (Z.of_nat (length body))] (startState e b)))
    as (evs & Htr & Hloop); [f_equal; lia|done|].
  exists evs. by rewrite Htr.
Qed.

(** The calls of a handler: those of the attempt loop, or the one round
    trip of the reverse proxy, between calls that neither touch the retry
    machinery nor reach the upstream. *)
Lemma endpointHandler_calls e strategy b w a :
  exists pre evs post,
    sv_trace (endpointHandler e strategy b w a).1 = pre ++ evs ++ post
    /\ Forall (λ ev, retryCall ev = false) pre
    /\ Forall (λ ev, retryCall ev = false) post
    /\ if e_Stream e
       then evs = [] \/ evs = [EvRoundTrip 0 true]
       else evs = [] \/ loopCalls (attempts strategy) 0 evs.
Proof.
  unfold endpointHandler. destruct (e_Stream e) eqn:Hstream.
  - unfold proxyStream.
    set (s0 := if sr_transport (ar_stream a) then _ else _).
    destruct (streamHooks_events e (setXFFHeader (ar_req a))
                (sr_hooks (ar_stream a)) s0 w) as (evs & Ht & _ & Hq & _).
    destruct (fold_left _ _ _) as [s1 w1].
    exists [], (ls_trace s0), (evs ++ [EvDoOnFinish; EvHandleLatency]).
    split_and!.
    + destruct (sr_abort (ar_stream a)); simpl in *; rewrite Ht;
        by rewrite <- ?app_assoc.
    + done.
    + apply Forall_app. split; [done|repeat constructor].
    + subst s0. destruct (sr_transport _); simpl; eauto.
  - destruct (ar_body a) as [body|err].
    + destruct (bufferedAttempts_calls e strategy a b body) as (evs & Ht & Hloop).
      destruct (ls_panicked _).
      { exists [EvHandleReceivedBytes (Z.of_nat (length body))], evs,
          [EvHandleLatency]; simpl.
        rewrite Ht. split_and!; [by rewrite <- ?app_assoc|repeat constructor..|eauto]. }
      destruct (ls_err _) as [err|].
      * destruct (writeError_events w (setXFFHeader (ar_req a)) e err) as [Hq _].
        destruct (writeError _ _ _ _) as [evs' w']; simpl in *.
        exists [EvHandleReceivedBytes (Z.of_nat (length body))], evs,
          (evs' ++ [EvHandleLatency]).
        rewrite Ht. split_and!; [by rewrite <- ?app_assoc|repeat constructor| |eauto].
        apply Forall_app. split; [done|repeat constructor].
      * destruct (ls_resp _) as [resp|].
        -- destruct (relay_events e a (setXFFHeader (ar_req a)) resp w) as [Hq _].
           destruct (relay _ _ _ _ _) as [evs' w']; simpl in *.
           exists [EvHandleReceivedBytes (Z.of_nat (length body))], evs,
             (evs' ++ [EvHandleLatency]).
           rewrite Ht. split_and!; [by rewrite <- ?app_assoc|repeat constructor| |eauto].
           apply Forall_app. split; [done|repeat constructor].
        -- exists [EvHandleReceivedBytes (Z.of_nat (length body))], evs,
             [EvHandleLatency]; simpl.
           rewrite Ht. split_and!; [by rewrite <- ?app_assoc|repeat constructor..|eauto].
    + destruct (writeError_events w (setXFFHeader (ar_req a)) e err) as [Hq _].
      destruct (writeError _ _ _ _) as [evs' w']; simpl in *.
      exists [], [], (evs' ++ [EvHandleLatency]).
      split_and!; [done|done| |eauto].
      apply Forall_app. split; [done|repeat constructor].
Qed.

Lemma endpointHandler_loop e strategy b w a :
  exists pre evs post n,
    sv_trace (endpointHandler e strategy b w a).1 = pre ++ evs ++ post
    /\ Forall (λ ev, retryCall ev = false) pre
    /\ Forall (λ ev, retryCall ev = false) post
    /\ loopCalls n 0 evs.
Proof.
  destruct (endpointHandler_calls e strategy b w a)
    as (pre & evs & post & Ht & Hpre & Hpost & Hevs).
  exists pre, evs, post.
  destruct (e_Stream e); destruct Hevs as [->|Hevs].
  - exists 0. split_and!; try done. constructor. lia.
  - exists 1. subst evs. split_and!; try done.
    apply (loop_break 1 0 [] [EvRoundTrip 0 true]); [lia|by constructor|].
    apply (body_success 0 true).
  - exists 0. split_and!; try done. constructor. lia.
  - exists (attempts strategy). done.
Qed.

Lemma frame_lookup (pre evs post : list Event) p ev :
  Forall (λ ev, retryCall ev = false) pre ->
  Forall (λ ev, retryCall ev = false) post ->
  (pre ++ evs ++ post) !! p = Some ev ->
  retryCall ev = true ->
  (length pre <= p)%nat /\ evs !! (p - length pre)%nat = Some ev.
Proof.
  intros Hpre Hpost Hp Hev.
  apply lookup_app_Some in Hp as [Hp|[Hle Hp]].
  { apply (Forall_lookup_1 _ _ _ _ Hpre) in Hp. congruence. }
  split; [done|].
  apply lookup_app_Some in Hp as [Hp|[_ Hp]]; [done|].
  apply (Forall_lookup_1 _ _ _ _ Hpost) in Hp. congruence.
Qed.

(** C4. In the calls of a handler: [Allow] is only ever asked for an index
    above 0, and [MarkSuccess]/[MarkFailed] only reach the breaker for such
    an index (with index 0 or below the closures leave the breaker as it
    is); an upstream call at an index above 0 comes after a granted [Allow]
    for that index; and after a refused [Allow] the handler makes no further
    upstream call: it emits the breaker event when the refusal is
    [ErrNotAllowed], the calls of [markFailed] otherwise, and then only calls
    outside the retry machinery. *)
Theorem breaker_guards_retries_only e strategy b w a :
  let t := sv_trace (endpointHandler e strategy b w a).1 in
  (forall p i r, t !! p = Some (EvAllow i r) -> 0 < i)
  /\ (forall p i,
        t !! p = Some (EvMarkSuccess i) \/ t !! p = Some (EvMarkFailed i) -> 0 < i)
  /\ (forall i err s,
        i <= 0 ->
        ls_breaker (markSuccess i s) = ls_breaker s
        /\ ls_breaker (markFailed i err s) = ls_breaker s)
  /\ (forall p i last,
        t !! p = Some (EvRoundTrip i last) -> 0 < i -> EvAllow i None ∈ take p t)
  /\ (forall p i err,
        t !! p = Some (EvAllow i (Some err)) ->
        exists post,
          drop (S p) t
          = (if errors_Is err circuitbreaker_ErrNotAllowed
             then [EvHandleRetry i "breaker"]
             else retryFailed i err ++ [EvMarkFailed i]) ++ post
          /\ Forall (λ ev, retryCall ev = false) post).
Proof.
  destruct (endpointHandler_loop e strategy b w a)
    as (pre & evs & post & n & Ht & Hpre & Hpost & Hloop).
  cbv zeta. rewrite Ht.
  assert (Hallow : forall p i r, (pre ++ evs ++ post) !! p = Some (EvAllow i r) -> 0 < i).
  { intros p i r Hp.
    apply (frame_lookup _ _ _ _ _ Hpre Hpost) in Hp as [_ Hp]; [|done].
    apply list_elem_of_lookup_2 in Hp.
    destruct (loopCalls_elem _ _ _ _ Hloop Hp)
      as (j & _ & [[Hj [r' ?]]|[?%markCall_not_allow|[?|[? ?]]]]); by simplify_eq. }
  split_and!.
  - done.
  - intros p i [Hp|Hp];
      (apply (frame_lookup _ _ _ _ _ Hpre Hpost) in Hp as [_ Hp]; [|done]);
      apply list_elem_of_lookup_2 in Hp;
      destruct (loopCalls_elem _ _ _ _ Hloop Hp)
        as (j & _ & [[Hj [r' ?]]|[[Hj [?|[?|[? ?]]]]|[?|[? ?]]]]); by simplify_eq.
  - intros i err s Hi. unfold markSuccess, markFailed.
    destruct (Z.ltb_spec 0 i); [lia|done].
  - intros p i last Hp Hi.
    apply (frame_lookup _ _ _ _ _ Hpre Hpost) in Hp as [Hle Hp]; [|done].
    pose proof (loopCalls_allow_first _ _ _ _ _ _ Hloop Hp Hi) as Hin.
    rewrite take_app_ge by done.
    rewrite take_app_le by (apply lookup_lt_Some in Hp; lia).
    apply elem_of_app. by right.
  - intros p i err Hp. pose proof (Hallow _ _ _ Hp) as Hi.
    apply (frame_lookup _ _ _ _ _ Hpre Hpost) in Hp as [Hle Hp]; [|done].
    pose proof (loopCalls_refusal _ _ _ _ _ _ Hloop Hp) as Hdrop.
    exists post. split; [|done].
    rewrite drop_app_ge by lia.
    rewrite drop_app_le by (apply lookup_lt_Some in Hp; lia).
    replace (S p - length pre)%nat with (S (p - length pre)) by lia.
    rewrite Hdrop, retryBreakerTripped_pos by done.
    unfold failedEvents. by destruct (Z.ltb_spec 0 i); [|lia].
Qed.

Lemma quiet_counts t :
  Forall (λ ev, retryCall ev = false) t ->
  countOf isHandleRetry t = 0%nat /\ countOf isRoundTrip t = 0%nat.
Proof.
  intros Hq. split; apply countOf_zero; eapply Forall_impl; eauto;
    intros [] ?; simpl in *; congruence.
Qed.

Lemma gateCalls_retry i g c j state :
  gateCalls i g c -> EvHandleRetry j state ∈ g -> j = i /\ 0 < i.
Proof.
  intros Hg Hev.
  destruct (gateCalls_elem _ _ _ _ Hg Hev) as [Hi [[r ?]|[_ [?|[?|[st ?]]]]]];
    by simplify_eq.
Qed.

Lemma bodyCalls_retry i last b c j state :
  bodyCalls i last b c -> EvHandleRetry j state ∈ b -> j = i /\ 0 < i.
Proof.
  intros Hb Hev.
  destruct (bodyCalls_elem _ _ _ _ _ Hb Hev) as [?|[[Hi [?|[?|[st ?]]]]|[url ?]]];
    by simplify_eq.
Qed.

Lemma bodyCalls_trips i last b c :
  bodyCalls i last b c -> (countOf isRoundTrip b <= 1)%nat.
Proof.
  inversion 1 as [err|err url| | |]; subst; count_calls;
    rewrite ?(proj1 (failedEvents_count i _)), ?(proj1 (successEvents_count i)); lia.
Qed.

(** The retry events of the loop against the attempts it makes: an index
    emits at most one event, and none at index 0. *)
Lemma attemptLoop_attempts strategy a fuel i s :
  fuel = Z.to_nat (attempts strategy - i) ->
  ls_LastAttempt s = false ->
  0 <= i ->
  let n := attemptCount strategy a fuel i s in
  exists evs,
    ls_trace (attemptLoop strategy a fuel i s) = ls_trace s ++ evs
    /\ (countOf isHandleRetry evs
        + (if (0 <? i)%Z then 0 else match fuel with O => 0 | S _ => 1 end) <= n)%nat
    /\ (countOf isRoundTrip evs <= n)%nat
    /\ (n <= fuel)%nat
    /\ (forall j state, EvHandleRetry j state ∈ evs -> 0 < j /\ i <= j < i + Z.of_nat n).
Proof.
  revert i s. induction fuel as [|fuel IH]; intros i s Hfuel Hlast Hi; cbv zeta.
  { exists []. rewrite app_nil_r. cbn [attemptLoop attemptCount].
    split_and!; [done|destruct (0 <? i); rewrite countOf_nil; lia|
                 rewrite countOf_nil; lia|lia|by intros j st ?%elem_of_nil]. }
  assert (Hlt : i < attempts strategy) by lia.
  cbn [attemptLoop attemptCount].
  destruct (attemptStep_calls strategy a i s Hlast)
    as [(g & Hstop & Htr & Hg)|(g & b & Htr & Hg & Hb & Hflag)];
    destruct (attemptStep strategy a i s) as [s1 c]; cbn [fst snd] in *.
  - subst c. exists g.
    destruct (gateCalls_count _ _ _ Hg) as (Ht & Hr & _ & Hpos).
    specialize (Hpos eq_refl). destruct (Z.ltb_spec 0 i); [|lia].
    split_and!; [done|lia|lia|lia|].
    intros j st Hev. destruct (gateCalls_retry _ _ _ _ _ Hg Hev). lia.
  - destruct (gateCalls_count _ _ _ Hg) as (Ht & _ & Hr & _).
    destruct (bodyCalls_count _ _ _ _ Hb) as (Hr' & _).
    pose proof (bodyCalls_trips _ _ _ _ Hb) as Ht'.
    assert (Hstep : forall j st, EvHandleRetry j st ∈ g ++ b -> j = i /\ 0 < i).
    { intros j st [Hev|Hev]%elem_of_app;
        [by eapply gateCalls_retry|by eapply bodyCalls_retry]. }
    destruct c.
    + destruct (decide (fuel = 0%nat)) as [->|Hmore].
      { exists (g ++ b). cbn [attemptLoop attemptCount].
        rewrite !countOf_app, Hr, Ht by done.
        split_and!; [done|destruct (Z.ltb_spec 0 i); lia|lia|lia|].
        intros j st Hev. destruct (Hstep _ _ Hev). lia. }
      destruct (IH (i + 1) s1) as (rest & Hrest & Hcount & Htrips & Hle & Hidx);
        [lia| |lia|].
      { rewrite Hflag by done. apply Z.leb_gt. lia. }
      exists (g ++ b ++ rest). rewrite Hrest, Htr, <- !app_assoc.
      rewrite !countOf_app, Hr, Ht by done.
      destruct (Z.ltb_spec 0 (i + 1)); [|lia].
      split_and!; [done|destruct (Z.ltb_spec 0 i); lia|lia|lia|].
      intros j st Hev. rewrite app_assoc in Hev.
      apply elem_of_app in Hev as [Hev|Hev].
      * destruct (Hstep _ _ Hev). lia.
      * destruct (Hidx _ _ Hev). lia.
    + exists (g ++ b). rewrite !countOf_app, Hr, Ht by done.
      split_and!; [done|destruct (Z.ltb_spec 0 i); lia|lia|lia|].
      intros j st Hev. destruct (Hstep _ _ Hev). lia.
Qed.

(** The calls of a handler against the attempts the request makes. *)
Lemma endpointHandler_attempts e strategy b w a :
  let n := attemptsMade e strategy a b in
  exists pre evs post,
    sv_trace (endpointHandler e strategy b w a).1 = pre ++ evs ++ post
    /\ Forall (λ ev, retryCall ev = false) pre
    /\ Forall (λ ev, retryCall ev = false) post
    /\ (countOf isHandleRetry evs <= n - 1)%nat
    /\ (countOf isRoundTrip evs <= n)%nat
    /\ (forall j state, EvHandleRetry j state ∈ evs -> 0 < j < Z.of_nat n).
Proof.
  cbv zeta. unfold endpointHandler, attemptsMade. destruct (e_Stream e) eqn:Hstream.
  - unfold proxyStream.
    set (s0 := if sr_transport (ar_stream a) then _ else _).
    destruct (streamHooks_events e (setXFFHeader (ar_req a))
                (sr_hooks (ar_stream a)) s0 w) as (evs & Ht & _ & Hq & _).
    destruct (fold_left _ _ _) as [s1 w1].
    exists [], (ls_trace s0), (evs ++ [EvDoOnFinish; EvHandleLatency]).
    split_and!.
    + destruct (sr_abort (ar_stream a)); simpl in *; rewrite Ht;
        by rewrite <- ?app_assoc.
    + done.
    + apply Forall_app. split; [done|repeat constructor].
    + subst s0. destruct (sr_transport _); simpl; count_calls; lia.
    + subst s0. destruct (sr_transport _); simpl; count_calls; lia.
    + subst s0. destruct (sr_transport _); simpl; set_solver.
  - destruct (ar_body a) as [body|err].
    + cbv zeta.
      destruct (attemptLoop_attempts strategy a (Z.to_nat (attempts strategy)) 0
                  (emit [EvHandleReceivedBytes (Z.of_nat (length body))] (startState e b)))
        as (evs & Ht & Hr & Htr & Hle & Hidx); [f_equal; lia|done|done|].
      fold (bufferedAttempts e strategy a b body) in Ht.
      cbv zeta in Hr, Htr, Hle, Hidx.
      set (n := attemptCount _ _ _ _ _) in *.
      assert (Hcount : (countOf isHandleRetry evs <= n - 1)%nat).
      { cbn in Hr. destruct (Z.to_nat (attempts strategy)); lia. }
      clear Hle.
      assert (Hin : forall j state, EvHandleRetry j state ∈ evs -> 0 < j < Z.of_nat n).
      { intros j st Hev. destruct (Hidx _ _ Hev). lia. }
      cbn [emit ls_trace startState app] in Ht.
      destruct (ls_panicked _).
      { exists [EvHandleReceivedBytes (Z.of_nat (length body))], evs,
          [EvHandleLatency]; simpl.
        rewrite Ht. split_and!; [by rewrite <- ?app_assoc|repeat constructor..|done|done|done]. }
      destruct (ls_err _) as [err|].
      * destruct (writeError_events w (setXFFHeader (ar_req a)) e err) as [Hq _].
        destruct (writeError _ _ _ _) as [evs' w']; simpl in *.
        exists [EvHandleReceivedBytes (Z.of_nat (length body))], evs,
          (evs' ++ [EvHandleLatency]).
        rewrite Ht. split_and!; [by rewrite <- ?app_assoc|repeat constructor| |done..].
        apply Forall_app. split; [done|repeat constructor].
      * destruct (ls_resp _) as [resp|].
        -- destruct (relay_events e a (setXFFHeader (ar_req a)) resp w) as [Hq _].
           destruct (relay _ _ _ _ _) as [evs' w']; simpl in *.
           exists [EvHandleReceivedBytes (Z.of_nat (length body))], evs,
             (evs' ++ [EvHandleLatency]).
           rewrite Ht. split_and!; [by rewrite <- ?app_assoc|repeat constructor| |done..].
           apply Forall_app. split; [done|repeat constructor].
        -- exists [EvHandleReceivedBytes (Z.of_nat (length body))], evs,
             [EvHandleLatency]; simpl.
           rewrite Ht. split_and!; [by rewrite <- ?app_assoc|repeat constructor..|done|done|done].
    + destruct (writeError_events w (setXFFHeader (ar_req a)) e err) as [Hq _].
      destruct (writeError _ _ _ _) as [evs' w']; simpl in *.
      exists [], [], (evs' ++ [EvHandleLatency]).
      split_and!; [done|done| |rewrite countOf_nil; lia..|by intros j st ?%elem_of_nil].
      apply Forall_app. split; [done|repeat constructor].
Qed.

(** C5.  Retry metric events are emitted only for an attempt index above
    0: the index of an event is that of an attempt the request made after the
    first, so that a request making [n] attempts (indices of the loop it
    enters, at most the configured number) emits at most [n - 1] retry
    events, and none when it makes a single attempt; the three closures emit
    nothing at index 0 or below; and the failed closure emits nothing for a
    context-canceled error. *)
Theorem retry_events_bound e strategy b w a :
  let t := sv_trace (endpointHandler e strategy b w a).1 in
  let n := attemptsMade e strategy a b in
  (forall i state, EvHandleRetry i state ∈ t -> 0 < i < Z.of_nat n)
  /\ (countOf isHandleRetry t <= n - 1)%nat
  /\ (countOf isRoundTrip t <= n)%nat
  /\ (e_Stream e = false -> (n <= Z.to_nat (attempts strategy))%nat)
  /\ (forall i err,
        i <= 0 ->
        fst (fst splitRetryMetricsHandler) i = []
        /\ snd (fst splitRetryMetricsHandler) i err = []
        /\ snd splitRetryMetricsHandler i = [])
  /\ (forall i err,
        errors_Is err context_Canceled = true ->
        snd (fst splitRetryMetricsHandler) i err = []).
Proof.
  cbv zeta.
  destruct (endpointHandler_attempts e strategy b w a)
    as (pre & evs & post & Ht & Hpre & Hpost & Hr & Htr & Hidx).
  rewrite Ht.
  destruct (quiet_counts _ Hpre) as [Hr1 Ht1].
  destruct (quiet_counts _ Hpost) as [Hr2 Ht2].
  split_and!.
  - intros i state Hin.
    apply elem_of_app in Hin as [Hin|Hin];
      [by apply (proj1 (Forall_forall _ _) Hpre) in Hin|].
    apply elem_of_app in Hin as [Hin|Hin];
      [|by apply (proj1 (Forall_forall _ _) Hpost) in Hin].
    by apply (Hidx i state).
  - rewrite !countOf_app, Hr1, Hr2. lia.
  - rewrite !countOf_app, Ht1, Ht2. lia.
  - unfold attemptsMade. intros ->. destruct (ar_body a) as [body|err]; [|lia].
    destruct (attemptLoop_attempts strategy a (Z.to_nat (attempts strategy)) 0
                (emit [EvHandleReceivedBytes (Z.of_nat (length body))] (startState e b)))
      as (evs' & _ & _ & _ & Hle & _); [f_equal; lia|done|done|done].
  - intros i err Hi. simpl. unfold retrySuccess, retryFailed, retryBreakerTripped.
    by destruct (Z.leb_spec i 0); [|lia].
  - intros i err Herr. simpl. unfold retryFailed. rewrite Herr. by destruct (i <=? 0).
Qed.

Lemma proxyStream_LastAttempt e a req s w :
  ls_LastAttempt (proxyStream e a req s w).1 = true.
Proof.
  unfold proxyStream.
  set (s0 := if sr_transport (ar_stream a) then _ else _).
  destruct (streamHooks_events e req (sr_hooks (ar_stream a)) s0 w) as (evs & _ & Hl & _).
  destruct (fold_left _ _ _) as [s1 w1]; destruct (sr_abort (ar_stream a)); simpl in *;
    rewrite Hl; subst s0; by destruct (sr_transport _).
Qed.

(** C8 (as the code has it).  In stream mode the flag is set before the
    upstream call and stays set.  In buffered mode an upstream call at index
    [i] runs with [LastAttempt] set exactly when [i] is the final configured
    index, and a call that runs with the flag set is the last upstream call
    of the request. *)
Theorem lastAttempt_during_calls e strategy b w a :
  let t := sv_trace (endpointHandler e strategy b w a).1 in
  if e_Stream e
  then (forall i last, EvRoundTrip i last ∈ t -> last = true)
       /\ sv_LastAttempt (endpointHandler e strategy b w a).1 = true
  else forall p i last,
         t !! p = Some (EvRoundTrip i last) ->
         last = (attempts strategy <=? i + 1)
         /\ (last = true ->
             forall q j l, (p < q)%nat -> t !! q <> Some (EvRoundTrip j l)).
Proof.
  destruct (endpointHandler_calls e strategy b w a)
    as (pre & evs & post & Ht & Hpre & Hpost & Hevs).
  cbv zeta. rewrite Ht. destruct (e_Stream e) eqn:Hstream.
  - split.
    + intros i last Hin.
      apply elem_of_app in Hin as [Hin|Hin];
        [by apply (proj1 (Forall_forall _ _) Hpre) in Hin|].
      apply elem_of_app in Hin as [Hin|Hin];
        [|by apply (proj1 (Forall_forall _ _) Hpost) in Hin].
      destruct Hevs as [-> | ->]; [set_solver|].
      apply list_elem_of_singleton in Hin. by simplify_eq.
    + unfold endpointHandler. rewrite Hstream.
      pose proof (proxyStream_LastAttempt e a (setXFFHeader (ar_req a))
                    (startState e b) w) as Hl.
      by destruct (proxyStream _ _ _ _ _) as [s1 w1].
  - intros p i last Hp.
    apply (frame_lookup _ _ _ _ _ Hpre Hpost) in Hp as [Hle Hp]; [|done].
    destruct Hevs as [->|Hloop]; [done|].
    assert (Hflag : last = (attempts strategy <=? i + 1) /\ i < attempts strategy).
    { pose proof (list_elem_of_lookup_2 _ _ _ Hp) as Hin.
      destruct (loopCalls_elem _ _ _ _ Hloop Hin)
        as (j & Hj & [[_ [? ?]]|[?%markCall_not_trip|[?|[? ?]]]]);
        try done; simplify_eq.
      split; [done|lia]. }
    destruct Hflag as [-> Hi]. split; [done|].
    intros Hlast%Z.leb_le q j l Hpq Hq.
    apply (frame_lookup _ _ _ _ _ Hpre Hpost) in Hq as [Hle' Hq]; [|done].
    assert (i < j)
      by (eapply (loopCalls_trip_order _ _ _ _ _ _ _ _ _ Hloop Hp Hq); lia).
    pose proof (list_elem_of_lookup_2 _ _ _ Hq) as Hin.
    destruct (loopCalls_elem _ _ _ _ Hloop Hin)
      as (k & Hk & [[_ [? ?]]|[?%markCall_not_trip|[?|[? ?]]]]);
      try done; simplify_eq.
    lia.
Qed.

(** ** The selector finalizer *)

Lemma filter_none (f : Event -> bool) t :
  Forall (λ ev, f ev = false) t -> filter (λ ev, f ev = true) t = [].
Proof.
  induction 1 as [|ev t Hev _ IH]; [done|].
  rewrite filter_cons. case_decide; [congruence|done].
Qed.

Lemma loopCalls_no_done n i evs :
  loopCalls n i evs -> Forall (λ ev, isDoneFunc ev = false) evs.
Proof.
  intros Hloop. apply Forall_forall. intros ev Hin.
  destruct (loopCalls_elem _ _ _ _ Hloop Hin)
    as (j & _ & [[_ [? ->]]|[[_ [-> |[-> |[? ->]]]]|[-> |[? ->]]]]); done.
Qed.

Lemma filter_done_skip ev t :
  isDoneFunc ev = false ->
  filter (λ ev, isDoneFunc ev = true) (ev :: t) = filter (λ ev, isDoneFunc ev = true) t.
Proof. intros Hev. rewrite filter_cons. case_decide; [congruence|done]. Qed.

Lemma filter_done_keep info t :
  filter (λ ev, isDoneFunc ev = true) (EvDoneFunc info :: t)
  = EvDoneFunc info :: filter (λ ev, isDoneFunc ev = true) t.
Proof. rewrite filter_cons. case_decide; [done|]. simpl in *. congruence. Qed.

Lemma relay_doneFunc e a req resp w body :
  resp_Body resp = Some body ->
  filter (λ ev, isDoneFunc ev = true) (relay e a req resp w).1
  = [EvDoneFunc
       match (ioCopy body (ar_copyFault a)).2 with
       | Some err => {| di_Err := Some err; di_ReplyMD := None |}
       | None => {| di_Err := None; di_ReplyMD := Some (getReplyMD e resp) |}
       end].
Proof.
  intros Hbody. unfold relay, doCopyBody. rewrite Hbody.
  destruct (ioCopy body (ar_copyFault a)) as [sent [err|]]; simpl;
    rewrite filter_done_skip, filter_done_keep by done;
    by rewrite ?filter_done_skip by done.
Qed.

Lemma filter_done_none t :
  countOf isDoneFunc t = 0%nat -> filter (λ ev, isDoneFunc ev = true) t = [].
Proof. unfold countOf. apply nil_length_inv. Qed.

(** What the hooks of [proxyStream] tell the selector: each hook calls
    [DoneFunc] once, the error hook with the error and the response hook with
    the reply metadata. *)
Lemma streamHooks_doneFunc e req hooks s w :
  exists evs,
    ls_trace (fold_left (λ sw h, streamHook e req h sw) hooks (s, w)).1
    = ls_trace s ++ evs
    /\ filter (λ ev, isDoneFunc ev = true) evs
       = (λ h, EvDoneFunc
                 match h with
                 | HookErrorHandler err => {| di_Err := Some err; di_ReplyMD := None |}
                 | HookModifyResponse resp =>
                     {| di_Err := None; di_ReplyMD := Some (getReplyMD e resp) |}
                 end) <$> hooks.
Proof.
  revert s w. induction hooks as [|h hooks IH]; intros s w; cbn [fold_left].
  { exists []. by rewrite app_nil_r. }
  assert (exists evs1,
            ls_trace (streamHook e req h (s, w)).1 = ls_trace s ++ evs1
            /\ filter (λ ev, isDoneFunc ev = true) evs1
               = [EvDoneFunc
                    match h with
                    | HookErrorHandler err => {| di_Err := Some err; di_ReplyMD := None |}
                    | HookModifyResponse resp =>
                        {| di_Err := None; di_ReplyMD := Some (getReplyMD e resp) |}
                    end]) as (evs1 & Ht1 & Hd1).
  { destruct h as [err|resp]; cbn [streamHook].
    - destruct (writeError_events w req e err) as [_ Hd].
      destruct (writeError w req e err) as [evs w']; cbn [fst] in *.
      exists (EvDoneFunc {| di_Err := Some err; di_ReplyMD := None |} :: evs).
      split; [simpl; by rewrite <- !app_assoc|].
      by rewrite filter_done_keep, (filter_done_none _ Hd).
    - eexists [_; _; _]. split; [simpl; by rewrite <- !app_assoc|].
      rewrite filter_done_keep. by rewrite !filter_done_skip. }
  destruct (streamHook e req h (s, w)) as [s1 w1]; cbn [fst] in *.
  destruct (IH s1 w1) as (evs2 & Ht2 & Hd2).
  exists (evs1 ++ evs2). split.
  - by rewrite Ht2, Ht1, app_assoc.
  - rewrite filter_app, Hd1, Hd2. by rewrite fmap_cons.
Qed.

(** C9 (as the code has it).  In stream mode the handler calls [DoneFunc]
    once in every hook the reverse proxy invokes, in the error hook with the
    error and in the response hook with the reply metadata, and nowhere
    else.  In buffered mode it calls [DoneFunc] at most once; when the loop
    ends without panic and without error on a response that has a body, it
    calls it exactly once: with the error of the body copy when that fails,
    with the reply metadata otherwise. *)
Theorem doneFunc_calls e strategy b w a :
  let t := sv_trace (endpointHandler e strategy b w a).1 in
  if e_Stream e
  then filter (λ ev, isDoneFunc ev = true) t
       = (λ h, EvDoneFunc
                 match h with
                 | HookErrorHandler err => {| di_Err := Some err; di_ReplyMD := None |}
                 | HookModifyResponse resp =>
                     {| di_Err := None; di_ReplyMD := Some (getReplyMD e resp) |}
                 end) <$> sr_hooks (ar_stream a)
  else (countOf isDoneFunc t <= 1)%nat
       /\ forall payload resp body,
            ar_body a = inl payload ->
            ls_panicked (bufferedAttempts e strategy a b payload) = false ->
            ls_err (bufferedAttempts e strategy a b payload) = None ->
            ls_resp (bufferedAttempts e strategy a b payload) = Some resp ->
            resp_Body resp = Some body ->
            filter (λ ev, isDoneFunc ev = true) t
            = [EvDoneFunc
                 match (ioCopy body (ar_copyFault a)).2 with
                 | Some err => {| di_Err := Some err; di_ReplyMD := None |}
                 | None => {| di_Err := None; di_ReplyMD := Some (getReplyMD e resp) |}
                 end].
Proof.
  cbv zeta. unfold endpointHandler. destruct (e_Stream e) eqn:Hstream.
  - unfold proxyStream.
    set (s0 := if sr_transport (ar_stream a) then _ else _).
    destruct (streamHooks_doneFunc e (setXFFHeader (ar_req a))
                (sr_hooks (ar_stream a)) s0 w) as (evs & Ht & Hd).
    destruct (fold_left _ _ _) as [s1 w1]; destruct (sr_abort (ar_stream a)); simpl in *;
      rewrite Ht, !filter_app, Hd; subst s0;
      destruct (sr_transport _); simpl;
      rewrite ?filter_done_skip by done; by rewrite !filter_nil, !app_nil_r.
  - destruct (ar_body a) as [payload|err].
    + destruct (bufferedAttempts_calls e strategy a b payload) as (evs & Ht & Hloop).
      pose proof (loopCalls_no_done _ _ _ Hloop) as Hnone.
      destruct (ls_panicked _) eqn:Hpanic.
      { split; [|intros; congruence]. simpl.
        rewrite Ht. count_calls. rewrite (countOf_zero _ _ Hnone). simpl. lia. }
      destruct (ls_err _) as [err|] eqn:Herr.
      * destruct (writeError_events w (setXFFHeader (ar_req a)) e err) as [_ Hd].
        destruct (writeError _ _ _ _) as [evs' w']; simpl in *.
        split; [|intros; congruence].
        rewrite Ht. count_calls. rewrite Hd, (countOf_zero _ _ Hnone). simpl. lia.
      * destruct (ls_resp _) as [resp|] eqn:Hresp.
        -- destruct (relay_events e a (setXFFHeader (ar_req a)) resp w) as [_ Hd].
           pose proof (relay_doneFunc e a (setXFFHeader (ar_req a)) resp w) as Hf.
           destruct (relay _ _ _ _ _) as [evs' w']; simpl in *.
           split.
           ++ rewrite Ht. count_calls. rewrite Hd, (countOf_zero _ _ Hnone). simpl.
              destruct (resp_Body resp); lia.
           ++ intros payload' resp' body Hp _ _ Hr Hbody. simplify_eq.
              rewrite Ht, !filter_app, (Hf _ Hbody).
              rewrite filter_done_skip, (filter_none _ _ Hnone) by done.
              by rewrite filter_done_skip.
        -- split; [|intros; congruence]. simpl.
           rewrite Ht. count_calls. rewrite (countOf_zero _ _ Hnone). simpl. lia.
    + destruct (writeError_events w (setXFFHeader (ar_req a)) e err) as [_ Hd].
      destruct (writeError _ _ _ _) as [evs' w']; simpl in *.
      split; [|intros; congruence].
      count_calls. rewrite Hd. simpl. lia.
Qed.

(** ** Building endpoints and swapping the route table *)

Lemma compileEndpoint_spec e ms client p :
  match compileEndpoint e ms client p with
  | (inl _, p') => p' = p
  | (inr h, p') =>
      h_retryBreaker h = length (p_breakers p)
      /\ p_breakers p' = p_breakers p ++ [sre_NewBreaker (8 # 10) 10]
      /\ p_router p' = p_router p /\ p_draining p' = p_draining p
      /\ p_clients p' = p_clients p /\ p_closed p' = p_closed p
  end.
Proof.
  unfold compileEndpoint.
  destruct (buildMiddleware _ _) as [err|tripper]; [done|].
  destruct (buildMiddleware _ _) as [err|tripper']; [done|].
  destruct (prepareRetryStrategy e) as [err|retryStrategy]; [done|].
  simpl. done.
Qed.

Lemma buildEndpoint_spec e ms p :
  match buildEndpoint e ms p with
  | (inl _, p') =>
      p_breakers p' = p_breakers p
      /\ p_router p' = p_router p /\ p_draining p' = p_draining p
      /\ ((p_clients p' = p_clients p /\ p_closed p' = p_closed p)
          \/ (p_clients p' = S (p_clients p)
              /\ p_closed p' = p_closed p ++ [p_clients p]))
  | (inr (h, closer), p') =>
      closer = p_clients p
      /\ h_retryBreaker h = length (p_breakers p)
      /\ p_breakers p' = p_breakers p ++ [sre_NewBreaker (8 # 10) 10]
      /\ p_router p' = p_router p /\ p_draining p' = p_draining p
      /\ p_clients p' = S (p_clients p) /\ p_closed p' = p_closed p
  end.
Proof.
  unfold buildEndpoint. destruct (clientFactory e) as [err|]; [by eauto 10|].
  pose proof (compileEndpoint_spec e ms (p_clients p) (allocClient p).2) as Hc.
  simpl in *. destruct (compileEndpoint _ _ _ _) as [[err|h] p']; simpl.
  - subst p'. simpl. eauto 10.
  - destruct Hc as (? & ? & ? & ? & ? & ?). by split_and!.
Qed.

Lemma runDeferred_None deferred p : runDeferred deferred None p = p.
Proof. unfold runDeferred. induction deferred as [|c ds IH]; simpl; done. Qed.

Lemma runDeferred_Some deferred err p :
  runDeferred deferred (Some err) p
  = {| p_router := p_router p; p_breakers := p_breakers p; p_clients := p_clients p;
       p_closed := p_closed p ++ deferred; p_draining := p_draining p |}.
Proof.
  unfold runDeferred. revert p. induction deferred as [|c ds IH]; intros p; simpl.
  - rewrite app_nil_r. by destruct p.
  - rewrite IH. simpl. by rewrite <- app_assoc.
Qed.

(** What the loop of [Update] leaves behind: the live table and the
    draining tables are untouched; every client made since the loop began is
    either among the deferred closers or already closed, once; and a loop
    that ends without error closed nothing and gave every endpoint a fresh
    breaker cell of its own. *)
Lemma updateLoop_spec es ms router deferred p :
  match updateLoop es ms router deferred p with
  | (retError, router', deferred', p') =>
      p_router p' = p_router p /\ p_draining p' = p_draining p
      /\ (p_clients p <= p_clients p')%nat
      /\ exists ds cs,
           deferred' = ds ++ deferred
           /\ p_closed p' = p_closed p ++ cs
           /\ ds ++ cs ≡ₚ seq (p_clients p) (p_clients p' - p_clients p)
           /\ (retError = None ->
               cs = []
               /\ p_breakers p'
                  = p_breakers p ++ replicate (length es) (sre_NewBreaker (8 # 10) 10)
               /\ exists routes,
                    router' = router ++ routes
                    /\ map rt_closer routes = seq (p_clients p) (length es)
                    /\ map (λ r, h_retryBreaker (rt_handler r)) routes
                       = seq (length (p_breakers p)) (length es))
  end.
Proof.
  revert router deferred p.
  induction es as [|e es IH]; intros router deferred p; simpl.
  - split_and!; try done. exists [], []. rewrite !app_nil_r, Nat.sub_diag.
    split_and!; try done. intros _. split_and!; try done.
    exists []. by rewrite app_nil_r.
  - pose proof (buildEndpoint_spec e ms p) as Hb.
    destruct (buildEndpoint e ms p) as [[err|[h closer]] p1].
    + destruct Hb as (Hbr & Hr & Hd & [[Hc Hcl]|[Hc Hcl]]).
      * split_and!; [done|done|lia|]. exists [], [].
        rewrite Hcl, Hc, app_nil_r, Nat.sub_diag. by split_and!.
      * split_and!; [done|done|lia|]. exists [], [p_clients p].
        rewrite Hcl, Hc. replace (S (p_clients p) - p_clients p)%nat with 1%nat by lia.
        by split_and!.
    + destruct Hb as (-> & Hcell & Hbr & Hr & Hd & Hc & Hcl).
      destruct (router_Handle _ _) as [err|].
      * split_and!; [done|done|lia|]. exists [p_clients p], [].
        rewrite Hcl, Hc, app_nil_r.
        replace (S (p_clients p) - p_clients p)%nat with 1%nat by lia.
        by split_and!.
      * specialize (IH (router ++ [{| rt_path := e_Path e; rt_method := e_Method e;
                                      rt_host := e_Host e; rt_handler := h;
                                      rt_closer := p_clients p |}])
                      (p_clients p :: deferred) p1).
        destruct (updateLoop es ms _ _ p1) as [[[retError router'] deferred'] p'].
        destruct IH as (Hr' & Hd' & Hle & ds & cs & Hdef & Hclosed & Hperm & Hok).
        split_and!; [congruence|congruence|lia|].
        exists (ds ++ [p_clients p]), cs. split_and!.
        -- by rewrite Hdef, <- app_assoc.
        -- congruence.
        -- replace (p_clients p' - p_clients p)%nat
             with (S (p_clients p' - p_clients p1)) by lia.
           simpl. rewrite <- Hc, <- Hperm, <- app_assoc. simpl.
           by rewrite <- Permutation_middle.
        -- intros Hnone. destruct (Hok Hnone) as (-> & Hbr' & routes & Hrt & Hcs & Hcells).
           split_and!; [done| |].
           ++ rewrite Hbr', Hbr, <- app_assoc. done.
           ++ eexists (_ :: routes). rewrite Hrt, <- app_assoc. split_and!; [done| |].
              ** simpl. by rewrite Hcs, Hc.
              ** simpl. rewrite Hcells, Hcell, Hbr, length_app. simpl.
                 by rewrite Nat.add_1_r.
Qed.

(** What [buildMiddleware] returns. *)
Lemma buildMiddlewareFrom_layers rms next :
  match buildMiddlewareFrom rms next with
  | inr tripper =>
      Forall (λ m, fatal m = false) rms
      /\ tripper = fold_left (λ t m, layer m t) rms next
  | inl err =>
      exists pre m post,
        rms = pre ++ m :: post
        /\ Forall (λ m, fatal m = false) pre
        /\ middlewareFactory m = Some err /\ fatal m = true
  end.
Proof.
  revert next. induction rms as [|m rms IH]; intros next; cbn [buildMiddlewareFrom].
  { by split. }
  destruct (middlewareFactory m) as [err|] eqn:Hm.
  - destruct (errors_Is err middleware_ErrNotFound) eqn:Hnf.
    + specialize (IH next). destruct (buildMiddlewareFrom rms next) as [err'|t].
      * destruct IH as (pre & m' & post & -> & Hpre & Hm' & Hf).
        exists (m :: pre), m', post. split_and!; try done.
        constructor; [|done]. unfold fatal. by rewrite Hm, Hnf.
      * destruct IH as [Hall ->]. split.
        -- constructor; [|done]. unfold fatal. by rewrite Hm, Hnf.
        -- cbn [fold_left].
           assert (layer m next = next) as -> by (unfold layer; by rewrite Hm).
           done.
    + exists [], m, rms. split_and!; try done. unfold fatal. by rewrite Hm, Hnf.
  - specialize (IH (TMiddleware (mw_Name m) next)).
    destruct (buildMiddlewareFrom rms _) as [err'|t].
    + destruct IH as (pre & m' & post & -> & Hpre & Hm' & Hf).
      exists (m :: pre), m', post. split_and!; try done.
      constructor; [|done]. unfold fatal. by rewrite Hm.
    + destruct IH as [Hall ->]. split.
      * constructor; [|done]. unfold fatal. by rewrite Hm.
      * cbn [fold_left].
        assert (layer m next = TMiddleware (mw_Name m) next) as ->
          by (unfold layer; by rewrite Hm).
        done.
Qed.

Lemma buildMiddleware_spec ms next :
  match buildMiddleware ms next with
  | inr tripper =>
      Forall (λ m, fatal m = false) ms /\ tripper = foldr layer next ms
  | inl err =>
      exists pre m post,
        ms = pre ++ m :: post
        /\ middlewareFactory m = Some err /\ fatal m = true
        /\ Forall (λ m, fatal m = false) post
  end.
Proof.
  unfold buildMiddleware.
  pose proof (buildMiddlewareFrom_layers (rev ms) next) as H.
  destruct (buildMiddlewareFrom (rev ms) next) as [err|t].
  - destruct H as (pre & m & post & Hrev & Hpre & Hm & Hf).
    exists (rev post), m, (rev pre). split_and!; try done.
    + rewrite <- (rev_involutive ms), Hrev, rev_app_distr. cbn [rev].
      by rewrite <- app_assoc.
    + by apply Forall_rev.
  - destruct H as [Hall ->]. split.
    + rewrite <- (rev_involutive ms). by apply Forall_rev.
    + rewrite <- (rev_involutive ms) at 2. by rewrite fold_left_rev_right.
Qed.

Lemma forallb_not_fatal (ms : list Middleware) :
  forallb (λ m, negb (fatal m)) ms = true <-> Forall (λ m, fatal m = false) ms.
Proof.
  induction ms as [|m ms IH]; cbn [forallb]; [by split|].
  rewrite andb_true_iff, negb_true_iff, IH. split.
  - intros [? ?]. by constructor.
  - by inversion 1.
Qed.

(** Why [buildEndpoint] fails, when it does. *)
Lemma buildEndpoint_cause e ms p :
  match buildEndpoint e ms p with
  | (inl err, _) =>
      buildable e ms = false
      /\ (clientFactory e = Some err
          \/ (exists m, m ∈ e_Middlewares e ++ ms
                        /\ middlewareFactory m = Some err /\ fatal m = true)
          \/ prepareRetryStrategy e = inl err)
  | (inr _, _) => buildable e ms = true
  end.
Proof.
  assert (Hfatal : forall m, m ∈ e_Middlewares e ++ ms -> fatal m = true ->
            forallb (λ m, negb (fatal m)) (e_Middlewares e ++ ms) = false).
  { intros m Hin Hm. apply not_true_is_false. intros Hall%forallb_not_fatal.
    rewrite Forall_forall in Hall. specialize (Hall _ Hin). congruence. }
  unfold buildEndpoint, buildable.
  destruct (clientFactory e) as [err|] eqn:Hc; [by split; [|left]|].
  unfold allocClient, compileEndpoint.
  set (base := if e_Stream e then TStream (TClient (p_clients p)) else TClient (p_clients p)).
  pose proof (buildMiddleware_spec (e_Middlewares e) base) as H1.
  destruct (buildMiddleware (e_Middlewares e) base) as [err|t1]; cbn [closeOnError].
  { destruct H1 as (pre & m & post & Heq & Hm & Hf & _).
    assert (m ∈ e_Middlewares e ++ ms) as Hin.
    { rewrite Heq. apply elem_of_app. left. apply elem_of_app. right. by left. }
    split; [destruct (prepareRetryStrategy e); [done|by eapply Hfatal]|].
    right; left. by exists m. }
  destruct H1 as [Hall1 ->].
  pose proof (buildMiddleware_spec ms (foldr layer base (e_Middlewares e))) as H2.
  destruct (buildMiddleware ms _) as [err|t2]; cbn [closeOnError].
  { destruct H2 as (pre & m & post & Heq & Hm & Hf & _).
    assert (m ∈ e_Middlewares e ++ ms) as Hin.
    { rewrite Heq. apply elem_of_app. right. apply elem_of_app. right. by left. }
    split; [destruct (prepareRetryStrategy e); [done|by eapply Hfatal]|].
    right; left. by exists m. }
  destruct H2 as [Hall2 _].
  destruct (prepareRetryStrategy e) as [err|rs] eqn:Hrs; cbn; [by split; [|right; right]|].
  apply forallb_not_fatal, Forall_app. by split.
Qed.

(** Why the loop of [Update] ends with an error, when it does: at the
    first endpoint that cannot be built, with the error of the factory or of
    the parser that failed; or at an endpoint that was built and that
    [router.Handle] refuses, with its error. *)
Lemma updateLoop_cause es ms router deferred p :
  match updateLoop es ms router deferred p with
  | (Some err, _, _, _) =>
      exists built e rest,
        es = built ++ e :: rest
        /\ Forall (λ e', buildable e' ms = true) built
        /\ ((buildable e ms = false
             /\ (clientFactory e = Some err
                 \/ (exists m, m ∈ e_Middlewares e ++ ms
                               /\ middlewareFactory m = Some err /\ fatal m = true)
                 \/ prepareRetryStrategy e = inl err))
            \/ (buildable e ms = true
                /\ exists table route,
                     rt_path route = e_Path e /\ rt_method route = e_Method e
                     /\ rt_host route = e_Host e
                     /\ router_Handle table route = Some err))
  | (None, _, _, _) => Forall (λ e, buildable e ms = true) es
  end.
Proof.
  revert router deferred p.
  induction es as [|e es IH]; intros router deferred p; cbn [updateLoop]; [done|].
  pose proof (buildEndpoint_cause e ms p) as Hb.
  destruct (buildEndpoint e ms p) as [[err|[h closer]] p1].
  { exists [], e, es. split_and!; [done|done|by left]. }
  destruct (router_Handle _ _) as [err|] eqn:Hh.
  { exists [], e, es. split_and!; [done|done|]. right. split; [done|].
    eexists _, _. split_and!; [| | |exact Hh]; done. }
  specialize (IH (router ++ [{| rt_path := e_Path e; rt_method := e_Method e;
                                rt_host := e_Host e; rt_handler := h;
                                rt_closer := closer |}])
                (closer :: deferred) p1).
  destruct (updateLoop es ms _ _ p1) as [[[[err|] router'] deferred'] p'].
  - destruct IH as (built & e' & rest & -> & Hbuilt & Hcause).
    exists (e :: built), e', rest. split_and!; [done|by constructor|done].
  - by constructor.
Qed.

(** C6. An [Update] fails exactly when an endpoint of the configuration
    cannot be built or is refused by [router.Handle], and then with the error
    of the first such endpoint: the error of the client factory, of a
    middleware the factory fails on, or of the retry strategy, or that of
    [router.Handle].  An [Update] that fails leaves the live table and the
    draining tables as they were and closes every client made for the
    rejected configuration, each once; an [Update] that succeeds closes none
    of them, installs a table with one route per endpoint, and hands the
    table that was live to [tryCloseRouter]. *)
Theorem Update_all_or_nothing c p :
  let ms := c_Middlewares c in
  match Update c p with
  | (Some err, p') =>
      (exists built e rest,
         c_Endpoints c = built ++ e :: rest
         /\ Forall (λ e', buildable e' ms = true) built
         /\ ((buildable e ms = false
              /\ (clientFactory e = Some err
                  \/ (exists m, m ∈ e_Middlewares e ++ ms
                                /\ middlewareFactory m = Some err /\ fatal m = true)
                  \/ prepareRetryStrategy e = inl err))
             \/ (buildable e ms = true
                 /\ exists table route,
                      rt_path route = e_Path e /\ rt_method route = e_Method e
                      /\ rt_host route = e_Host e
                      /\ router_Handle table route = Some err)))
      /\ p_router p' = p_router p /\ p_draining p' = p_draining p
      /\ exists closed,
           p_closed p' = p_closed p ++ closed
           /\ closed ≡ₚ seq (p_clients p) (p_clients p' - p_clients p)
  | (None, p') =>
      Forall (λ e, buildable e ms = true) (c_Endpoints c)
      /\ p_closed p' = p_closed p
      /\ p_draining p'
         = p_draining p ++ match p_router p with Some old => [old] | None => [] end
      /\ exists router,
           p_router p' = Some router
           /\ map rt_closer router = seq (p_clients p) (length (c_Endpoints c))
  end
  /\ ((exists e, e ∈ c_Endpoints c /\ buildable e ms = false) ->
      is_Some (Update c p).1)
  /\ (Forall (λ e, buildable e ms = true) (c_Endpoints c) ->
      (forall table route, router_Handle table route = None) ->
      (Update c p).1 = None).
Proof.
  cbv zeta.
  assert (Hmain :
    match Update c p with
    | (Some err, p') =>
        (exists built e rest,
           c_Endpoints c = built ++ e :: rest
           /\ Forall (λ e', buildable e' (c_Middlewares c) = true) built
           /\ ((buildable e (c_Middlewares c) = false
                /\ (clientFactory e = Some err
                    \/ (exists m, m ∈ e_Middlewares e ++ c_Middlewares c
                                  /\ middlewareFactory m = Some err /\ fatal m = true)
                    \/ prepareRetryStrategy e = inl err))
               \/ (buildable e (c_Middlewares c) = true
                   /\ exists table route,
                        rt_path route = e_Path e /\ rt_method route = e_Method e
                        /\ rt_host route = e_Host e
                        /\ router_Handle table route = Some err)))
        /\ p_router p' = p_router p /\ p_draining p' = p_draining p
        /\ exists closed,
             p_closed p' = p_closed p ++ closed
             /\ closed ≡ₚ seq (p_clients p) (p_clients p' - p_clients p)
    | (None, p') =>
        Forall (λ e, buildable e (c_Middlewares c) = true) (c_Endpoints c)
        /\ p_closed p' = p_closed p
        /\ p_draining p'
           = p_draining p ++ match p_router p with Some old => [old] | None => [] end
        /\ exists router,
             p_router p' = Some router
             /\ map rt_closer router = seq (p_clients p) (length (c_Endpoints c))
    end).
  { unfold Update.
    pose proof (updateLoop_spec (c_Endpoints c) (c_Middlewares c) [] [] p) as Hloop.
    pose proof (updateLoop_cause (c_Endpoints c) (c_Middlewares c) [] [] p) as Hcause.
    destruct (updateLoop _ _ _ _ _) as [[[retError router] deferred] p1].
    destruct Hloop as (Hr & Hd & Hle & ds & cs & Hdef & Hclosed & Hperm & Hok).
    rewrite app_nil_r in Hdef. subst deferred.
    destruct retError as [err|].
    - rewrite runDeferred_Some. simpl. split_and!; [done|done|done|].
      exists (cs ++ ds). split.
      + by rewrite Hclosed, <- app_assoc.
      + by rewrite <- Hperm, (Permutation_app_comm cs ds).
    - destruct (Hok eq_refl) as (-> & Hbr & routes & -> & Hcs & Hcells).
      unfold swapRouter. rewrite runDeferred_None. unfold tryCloseRouter.
      rewrite app_nil_r in Hclosed. rewrite <- Hr.
      destruct (p_router p1) as [old|]; simpl.
      + split_and!; [done|done|by rewrite Hd|]. eauto.
      + split_and!; [done|done|by rewrite Hd, app_nil_r|]. eauto. }
  split; [exact Hmain|].
  destruct (Update c p) as [[err|] p']; cbn [fst].
  - split; [by eauto|].
    intros Hall Hhandle. exfalso.
    destruct Hmain as ((built & e & rest & Heq & _ & Hcause) & _).
    destruct Hcause as [[Hno _]|[_ (table & route & _ & _ & _ & Hh)]].
    + rewrite Forall_forall in Hall. rewrite Hall in Hno; [done|].
      rewrite Heq. apply elem_of_app. right. by left.
    + by rewrite Hhandle in Hh.
  - split; [|done]. intros (e & Hin & Hno). exfalso.
    destruct Hmain as (Hall & _). rewrite Forall_forall in Hall.
    rewrite (Hall _ Hin) in Hno. done.
Qed.

Lemma serveRoute_frame h w a q cell :
  cell <> h_retryBreaker h ->
  match serveRoute h w a q with
  | Some (_, q') => p_breakers q' !! cell = p_breakers q !! cell
  | None => True
  end.
Proof.
  intros Hne. unfold serveRoute.
  destruct (p_breakers q !! h_retryBreaker h) as [b|]; [|done].
  destruct (endpointHandler _ _ _ _ _) as [sv b']. simpl.
  by apply list_lookup_insert_ne.
Qed.

(** C1 (as the code has it).  Every endpoint built by an [Update] gets a
    retry breaker of its own, made with success ratio 0.8 and request count
    10.  The breakers of two routes of the table are different cells, and a
    request served through one route, whatever it records, leaves the breaker
    of the other route, and with it every [Allow] decision for that route, as
    it was. *)
Theorem retry_breaker_per_endpoint c p p' router :
  Update c p = (None, p') ->
  p_router p' = Some router ->
  (forall i r,
     router !! i = Some r ->
     p_breakers p' !! h_retryBreaker (rt_handler r) = Some (sre_NewBreaker (8 # 10) 10))
  /\ (forall i j r1 r2,
        router !! i = Some r1 -> router !! j = Some r2 -> i <> j ->
        h_retryBreaker (rt_handler r1) <> h_retryBreaker (rt_handler r2)
        /\ forall q w a,
             match serveRoute (rt_handler r1) w a q with
             | Some (_, q') =>
                 p_breakers q' !! h_retryBreaker (rt_handler r2)
                 = p_breakers q !! h_retryBreaker (rt_handler r2)
                 /\ forall draw,
                      (λ b2, Allow b2 draw) <$> p_breakers q' !! h_retryBreaker (rt_handler r2)
                      = (λ b2, Allow b2 draw) <$> p_breakers q !! h_retryBreaker (rt_handler r2)
             | None => True
             end).
Proof.
  unfold Update.
  pose proof (updateLoop_spec (c_Endpoints c) (c_Middlewares c) [] [] p) as Hloop.
  destruct (updateLoop _ _ _ _ _) as [[[retError routes] deferred] p1].
  destruct Hloop as (_ & _ & _ & ds & cs & _ & _ & _ & Hok).
  destruct retError as [err|]; [done|].
  destruct (Hok eq_refl) as (_ & Hbr & routes' & Hrt & _ & Hcells).
  simpl in Hrt. subst routes'.
  unfold swapRouter. rewrite runDeferred_None. intros [= <-].
  replace (p_breakers (tryCloseRouter (p_router p1)
             {| p_router := Some routes; p_breakers := p_breakers p1;
                p_clients := p_clients p1; p_closed := p_closed p1;
                p_draining := p_draining p1 |})) with (p_breakers p1)
    by (unfold tryCloseRouter; by destruct (p_router p1)).
  replace (p_router (tryCloseRouter (p_router p1)
             {| p_router := Some routes; p_breakers := p_breakers p1;
                p_clients := p_clients p1; p_closed := p_closed p1;
                p_draining := p_draining p1 |})) with (Some routes)
    by (unfold tryCloseRouter; by destruct (p_router p1)).
  intros [= <-].
  assert (Hcell : forall i r, routes !! i = Some r ->
            h_retryBreaker (rt_handler r) = (length (p_breakers p) + i)%nat
            /\ (i < length (c_Endpoints c))%nat).
  { intros i r Hi.
    assert (Hm : map (λ r, h_retryBreaker (rt_handler r)) routes !! i
                 = Some (h_retryBreaker (rt_handler r)))
      by (by rewrite list_lookup_fmap, Hi).
    rewrite Hcells in Hm. apply lookup_seq in Hm. lia. }
  split.
  - intros i r Hi. destruct (Hcell _ _ Hi) as [-> Hlt].
    rewrite Hbr, lookup_app_r by lia.
    replace (length (p_breakers p) + i - length (p_breakers p))%nat with i by lia.
    by apply lookup_replicate_2.
  - intros i j r1 r2 Hi Hj Hij.
    destruct (Hcell _ _ Hi) as [Hc1 _]. destruct (Hcell _ _ Hj) as [Hc2 _].
    assert (Hne : h_retryBreaker (rt_handler r2) <> h_retryBreaker (rt_handler r1)) by lia.
    split; [lia|]. intros q w a.
    pose proof (serveRoute_frame (rt_handler r1) w a q _ Hne) as Hframe.
    destruct (serveRoute _ _ _ _) as [[sv q']|]; [|done].
    split; [done|]. intros draw. by rewrite Hframe.
Qed.

(** ** A single attempt that meets a retry condition *)

Lemma Flush_if_body (c : bool) w : w_body (if c then Flush w else w) = w_body w.
Proof. by destruct c. Qed.

Lemma Flush_if_status (c : bool) w :
  w_statusCode (if c then Flush w else w) = w_statusCode w.
Proof. by destruct c. Qed.

Lemma single_attempt_loop e strategy b a payload resp body :
  attempts strategy = 1 ->
  ctxErr (ar_upstream a 0) = None ->
  roundTrip (ar_upstream a 0) = inl resp ->
  judgeRetryRequired (conditions strategy) resp = true ->
  resp_Body resp = Some body ->
  bufferedAttempts e strategy a b payload
  = {| ls_breaker := b; ls_LastAttempt := true;
       ls_resp := Some (Response_closeBody resp); ls_err := None;
       ls_trace := [EvHandleReceivedBytes (Z.of_nat (length payload));
                    EvRoundTrip 0 true];
       ls_panicked := false |}.
Proof.
  intros Hone Hctx Htrip Hjudge Hbody.
  unfold bufferedAttempts. rewrite Hone. change (Z.to_nat 1) with 1%nat.
  cbn [attemptLoop]. unfold attemptStep, retryGate.
  rewrite Hone, Hctx, Htrip. simpl. rewrite Hjudge, Hbody. reflexivity.
Qed.

(** With one attempt configured, a response that meets a retry condition
    ends the loop: the handler makes that one round trip, writes the status
    of the response, and copies what is left to read of a body it has
    already closed, which is nothing for a body of the transport. *)
Lemma single_attempt_retriable e strategy b w a payload resp body :
  e_Stream e = false ->
  attempts strategy = 1 ->
  ar_body a = inl payload ->
  ctxErr (ar_upstream a 0) = None ->
  roundTrip (ar_upstream a 0) = inl resp ->
  judgeRetryRequired (conditions strategy) resp = true ->
  resp_Body resp = Some body ->
  w_statusCode w = None ->
  let sv := (endpointHandler e strategy b w a).1 in
  filter (λ ev, isRoundTrip ev = true) (sv_trace sv) = [EvRoundTrip 0 true]
  /\ sv_panicked sv = false
  /\ w_statusCode (sv_w sv) = Some (resp_StatusCode resp)
  /\ w_body (sv_w sv) = w_body w ++ (ioCopy (Body_Close body) (ar_copyFault a)).1
  /\ (b_kind body = TransportBody -> w_body (sv_w sv) = w_body w).
Proof.
  intros Hstream Hone Hpayload Hctx Htrip Hjudge Hbody Hfresh.
  cbv zeta. unfold endpointHandler. rewrite Hstream, Hpayload.
  rewrite (single_attempt_loop e strategy b a payload resp body) by done.
  cbn [ls_panicked ls_err ls_resp]. unfold relay, doCopyBody.
  replace (resp_Body (Response_closeBody resp)) with (Some (Body_Close body))
    by (simpl; by rewrite Hbody).
  assert (Hclosed : b_kind body = TransportBody ->
            (ioCopy (Body_Close body) (ar_copyFault a)).1 = []).
  { intros Hk. unfold ioCopy, Body_readable. simpl. by rewrite Hk. }
  destruct (ioCopy (Body_Close body) (ar_copyFault a)) as [sent [err|]];
    cbn -[filter] in *;
    repeat (rewrite ?Flush_if_body, ?Flush_if_status; cbn -[filter]);
    rewrite ?Hfresh; (split_and!; try done; try reflexivity);
    intros Hk; rewrite (Hclosed Hk); by rewrite app_nil_r.
Qed.

(** ** The middleware chain of an endpoint *)

(** X1. [buildMiddleware] wraps the tripper in the middlewares of the list
    that the factory builds, the first of the list outermost, and passes over
    those the factory does not know ([ErrNotFound]).  It fails exactly when
    the factory fails otherwise on some entry, and then with the error of
    the last such entry of the list. *)
Theorem buildMiddleware_layers (ms : list Middleware) (next : Tripper) :
  match buildMiddleware ms next with
  | inr tripper =>
      Forall (λ m, fatal m = false) ms /\ tripper = foldr layer next ms
  | inl err =>
      exists pre m post,
        ms = pre ++ m :: post
        /\ middlewareFactory m = Some err /\ fatal m = true
        /\ Forall (λ m, fatal m = false) post
  end.
Proof. apply buildMiddleware_spec. Qed.

(** X2. The transport of a built endpoint: the client the factory made,
    inside the stream tripper if the endpoint streams, inside the
    middlewares of the endpoint, inside those of the gateway; the closer
    handed back is that client.  A failed build returns the error of the
    client factory, of a middleware the factory fails on, or of the retry
    strategy. *)
Theorem buildEndpoint_tripper (e : Endpoint) (ms : list Middleware) (p : Proxy) :
  match buildEndpoint e ms p with
  | (inr (h, closer), _) =>
      closer = p_clients p
      /\ h_endpoint h = e
      /\ prepareRetryStrategy e = inr (h_strategy h)
      /\ h_tripper h
         = foldr layer
             (foldr layer
                (if e_Stream e then TStream (TClient closer) else TClient closer)
                (e_Middlewares e))
             ms
  | (inl err, _) =>
      clientFactory e = Some err
      \/ (exists m, m ∈ e_Middlewares e ++ ms
                    /\ middlewareFactory m = Some err /\ fatal m = true)
      \/ prepareRetryStrategy e = inl err
  end.
Proof.
  unfold buildEndpoint. destruct (clientFactory e) as [err|] eqn:Hc; [by left|].
  unfold allocClient, compileEndpoint.
  set (base := if e_Stream e then TStream (TClient (p_clients p)) else TClient (p_clients p)).
  pose proof (buildMiddleware_spec (e_Middlewares e) base) as H1.
  destruct (buildMiddleware (e_Middlewares e) base) as [err|t1]; cbn [closeOnError].
  { right; left. destruct H1 as (pre & m & post & -> & Hm & Hf & _).
    exists m. split_and!; try done. set_solver. }
  destruct H1 as [_ ->].
  pose proof (buildMiddleware_spec ms (foldr layer base (e_Middlewares e))) as H2.
  destruct (buildMiddleware ms _) as [err|t2]; cbn [closeOnError].
  { right; left. destruct H2 as (pre & m & post & -> & Hm & Hf & _).
    exists m. split_and!; try done. set_solver. }
  destruct H2 as [_ ->].
  destruct (prepareRetryStrategy e) as [err|rs] eqn:Hrs; cbn; [by right; right|].
  done.
Qed.

(** ** The breaker cell and the marks of the trace *)

Lemma replayMarks_app t1 t2 b :
  replayMarks (t1 ++ t2) b = replayMarks t2 (replayMarks t1 b).
Proof. apply fold_left_app. Qed.

Lemma replayMarks_quiet t b :
  Forall (λ ev, isMark ev = false) t -> replayMarks t b = b.
Proof.
  intros Hq. revert b. induction Hq as [|ev t Hev _ IH]; intros b; [done|].
  cbn [replayMarks fold_left]. fold (replayMarks t (applyMark b ev)).
  rewrite IH. by destruct ev.
Qed.

Lemma quiet_no_marks t :
  Forall (λ ev, retryCall ev = false) t -> Forall (λ ev, isMark ev = false) t.
Proof. intros Hq. eapply Forall_impl; [done|]. by intros []. Qed.

Create HintDb replay discriminated.

Lemma emit_replayed b0 evs s :
  Forall (λ ev, isMark ev = false) evs -> replayed b0 s -> replayed b0 (emit evs s).
Proof.
  unfold replayed. intros Hq Hs. cbn [emit ls_breaker ls_trace].
  by rewrite replayMarks_app, replayMarks_quiet.
Qed.

Lemma setLastAttempt_replayed b0 s : replayed b0 s -> replayed b0 (setLastAttempt s).
Proof. done. Qed.

Lemma setResp_replayed b0 r s : replayed b0 s -> replayed b0 (setResp r s).
Proof. done. Qed.

Lemma setErr_replayed b0 err s : replayed b0 s -> replayed b0 (setErr err s).
Proof. done. Qed.

Lemma panic_replayed b0 s : replayed b0 s -> replayed b0 (panic s).
Proof. done. Qed.

Lemma markFailed_replayed b0 i err s :
  replayed b0 s -> replayed b0 (markFailed i err s).
Proof.
  unfold replayed, markFailed, splitRetryMetricsHandler, retryFailed. cbn [fst snd].
  intros Hs.
  destruct (i <=? 0), (errors_Is err context_Canceled), (0 <? i);
    cbn [emit setBreaker ls_breaker ls_trace];
    rewrite ?replayMarks_app, ?app_nil_r; cbn [replayMarks fold_left applyMark];
    by rewrite <- Hs.
Qed.

Lemma markSuccess_replayed b0 i s :
  replayed b0 s -> replayed b0 (markSuccess i s).
Proof.
  unfold replayed, markSuccess, splitRetryMetricsHandler, retrySuccess. cbn [fst snd].
  intros Hs.
  destruct (i <=? 0), (0 <? i);
    cbn [emit setBreaker ls_breaker ls_trace];
    rewrite ?replayMarks_app, ?app_nil_r; cbn [replayMarks fold_left applyMark];
    by rewrite <- Hs.
Qed.

Lemma markBreaker_replayed b0 i s :
  replayed b0 s -> replayed b0 (markBreaker i s).
Proof.
  unfold markBreaker, splitRetryMetricsHandler, retryBreakerTripped. cbn [fst snd].
  intros Hs. apply emit_replayed; [|done]. destruct (i <=? 0); repeat constructor.
Qed.

#[local] Hint Resolve emit_replayed setLastAttempt_replayed setResp_replayed
  setErr_replayed panic_replayed markFailed_replayed markSuccess_replayed
  markBreaker_replayed : replay.

Lemma retryGate_replayed b0 a i s :
  replayed b0 s -> replayed b0 (retryGate a i s).1.
Proof.
  intros Hs. unfold retryGate.
  destruct (0 <? i); [|done].
  destruct (negb _); [done|].
  destruct (Allow _ _) as [err|]; cbn [fst].
  - destruct (errors_Is _ _); auto 6 with replay.
  - auto with replay.
Qed.

Lemma attemptStep_replayed b0 strategy a i s :
  replayed b0 s -> replayed b0 (attemptStep strategy a i s).1.
Proof.
  intros Hs. unfold attemptStep.
  pose proof (retryGate_replayed b0 a i s Hs) as Hg.
  destruct (retryGate a i s) as [s1 [|]]; cbn [fst] in *; [|done].
  assert (replayed b0 (if attempts strategy <=? i + 1 then setLastAttempt s1 else s1))
    as Hs2 by (destruct (_ <=? _); auto with replay).
  destruct (ctxErr _) as [err|]; cbn [fst]; [auto with replay|].
  destruct (roundTrip _) as [resp|err]; cbn [fst].
  - destruct (negb _); cbn [fst]; [auto 8 with replay|].
    destruct (resp_Body resp); cbn [fst]; auto 10 with replay.
  - auto 10 with replay.
Qed.

Lemma attemptLoop_replayed b0 strategy a fuel i s :
  replayed b0 s -> replayed b0 (attemptLoop strategy a fuel i s).
Proof.
  revert i s. induction fuel as [|fuel IH]; intros i s Hs; cbn [attemptLoop]; [done|].
  pose proof (attemptStep_replayed b0 strategy a i s Hs) as Hstep.
  destruct (attemptStep strategy a i s) as [s1 [|]]; cbn [fst] in *; auto.
Qed.

Lemma streamHooks_replayed b0 e req hooks s w :
  replayed b0 s ->
  replayed b0 (fold_left (λ sw h, streamHook e req h sw) hooks (s, w)).1.
Proof.
  revert s w. induction hooks as [|h hooks IH]; intros s w Hs; cbn [fold_left]; [done|].
  assert (replayed b0 (streamHook e req h (s, w)).1) as Hh.
  { destruct h as [err|resp]; cbn [streamHook].
    - destruct (writeError_events w req e err) as [Hq _].
      destruct (writeError w req e err) as [evs w']; cbn [fst] in *.
      apply emit_replayed; [by apply quiet_no_marks|].
      apply markFailed_replayed, emit_replayed; [repeat constructor|done].
    - cbn [fst]. do 2 (apply emit_replayed; [repeat constructor|]).
      apply markSuccess_replayed, emit_replayed; [repeat constructor|done]. }
  destruct (streamHook e req h (s, w)) as [s1 w1]. by apply IH.
Qed.

Lemma endpointHandler_replayed e strategy b w a :
  (endpointHandler e strategy b w a).2
  = replayMarks (sv_trace (endpointHandler e strategy b w a).1) b.
Proof.
  assert (forall req s w' panicked abort,
            replayed b s ->
            (served req s w' panicked abort).2
            = replayMarks (sv_trace (served req s w' panicked abort).1) b)
    as Hserved.
  { intros req s w' panicked abort Hs. cbn [served fst snd sv_trace].
    rewrite replayMarks_app. cbn. apply Hs. }
  assert (replayed b (startState e b)) as H0 by done.
  unfold endpointHandler. destruct (e_Stream e).
  - unfold proxyStream.
    set (s0 := if sr_transport (ar_stream a) then _ else _).
    assert (replayed b s0) as Hs0.
    { subst s0. destruct (sr_transport _); [|done].
      apply emit_replayed; [repeat constructor|done]. }
    pose proof (streamHooks_replayed b e (setXFFHeader (ar_req a))
                  (sr_hooks (ar_stream a)) s0 w Hs0) as Hh.
    destruct (fold_left _ _ _) as [s1 w1]; cbn [fst] in Hh.
    destruct (sr_abort (ar_stream a));
      (apply Hserved, emit_replayed;
       [repeat constructor|first [done|by apply panic_replayed]]).
  - destruct (ar_body a) as [body|err].
    + assert (replayed b (bufferedAttempts e strategy a b body)) as Hl.
      { apply attemptLoop_replayed, emit_replayed; [repeat constructor|done]. }
      destruct (ls_panicked _); [by apply Hserved|].
      destruct (ls_err _) as [err|].
      * destruct (writeError_events w (setXFFHeader (ar_req a)) e err) as [Hq _].
        destruct (writeError _ _ _ _) as [evs' w'].
        apply Hserved, emit_replayed; [by apply quiet_no_marks|done].
      * destruct (ls_resp _) as [resp|]; [|by apply Hserved].
        destruct (relay_events e a (setXFFHeader (ar_req a)) resp w) as [Hq _].
        destruct (relay _ _ _ _ _) as [evs' w'].
        apply Hserved, emit_replayed; [by apply quiet_no_marks|done].
    + destruct (writeError_events w (setXFFHeader (ar_req a)) e err) as [Hq _].
      destruct (writeError _ _ _ _) as [evs' w'].
      apply Hserved, emit_replayed; [by apply quiet_no_marks|done].
Qed.

Lemma loopCalls_single n i evs :
  n <= 1 -> 0 <= i -> loopCalls n i evs -> Forall (λ ev, isMark ev = false) evs.
Proof.
  intros Hn Hi Hloop. apply Forall_forall. intros ev Hev.
  destruct (loopCalls_elem _ _ _ _ Hloop Hev) as (j & Hj & [[? _]|[[? _]|[->|[url ->]]]]);
    first [lia | done].
Qed.

(** X3. The breaker cell a handler leaves behind is the cell it found with
    [MarkSuccess] and [MarkFailed] applied once for each such call of the
    trace, in order: nothing else writes to the cell.  A stream request and
    a request to an endpoint with at most one attempt leave it as it was. *)
Theorem breaker_replay (e : Endpoint) (strategy : retryStrategy) (b : B)
  (w : ResponseWriter) (a : Arrival) :
  let r := endpointHandler e strategy b w a in
  r.2 = replayMarks (sv_trace r.1) b
  /\ (e_Stream e = true \/ attempts strategy <= 1 -> r.2 = b).
Proof.
  cbv zeta. split; [apply endpointHandler_replayed|].
  intros Hcase. rewrite endpointHandler_replayed.
  destruct (endpointHandler_calls e strategy b w a)
    as (pre & evs & post & -> & Hpre & Hpost & Hevs).
  apply replayMarks_quiet. rewrite !Forall_app.
  split_and!; [by apply quiet_no_marks| |by apply quiet_no_marks].
  destruct (e_Stream e).
  - destruct Hevs as [-> | ->]; repeat constructor.
  - destruct Hcase as [|Hn]; [done|].
    destruct Hevs as [->|Hloop]; [constructor|].
    by apply (loopCalls_single (attempts strategy) 0).
Qed.

(** ** The access metrics of a handler run *)

Ltac list_cases H :=
  repeat (apply elem_of_cons in H as [H|H]; [try (by simplify_eq)|]);
  try (by apply elem_of_nil in H).

Lemma loopCalls_kinds n i evs :
  loopCalls n i evs ->
  Forall (λ ev, isHandleRequest ev = false /\ isHandleLatency ev = false) evs.
Proof.
  intros Hloop. apply Forall_forall. intros ev Hev.
  destruct (loopCalls_elem _ _ _ _ Hloop Hev)
    as (j & _ & [[_ [r ->]]|[[_ [->|[->|[st ->]]]]|[->|[url ->]]]]); done.
Qed.

Lemma loopCalls_no_requests n i evs :
  loopCalls n i evs ->
  countOf isHandleRequest evs = 0%nat /\ countOf isHandleLatency evs = 0%nat
  /\ forall st err, EvHandleRequest st err ∉ evs.
Proof.
  intros Hloop. pose proof (loopCalls_kinds _ _ _ Hloop) as Hk. split_and!.
  - apply countOf_zero. eapply Forall_impl; [done|]. by intros ev [].
  - apply countOf_zero. eapply Forall_impl; [done|]. by intros ev [].
  - intros st err Hin. rewrite Forall_forall in Hk. by destruct (Hk _ Hin).
Qed.

Lemma writeError_requests w r e err :
  countOf isHandleRequest (writeError w r e err).1 = 1%nat
  /\ countOf isHandleLatency (writeError w r e err).1 = 0%nat
  /\ forall st err', EvHandleRequest st err' ∈ (writeError w r e err).1 ->
       st = (mapError err).1.
Proof using Type.
  unfold writeError. destruct (mapError err) as [st [|]];
    destruct (Protocol_eqb _ _); cbn [fst app]; split_and!; try done;
    intros st' err' Hin; list_cases Hin.
Qed.

Lemma writeError_status w r e err :
  w_statusCode w = None ->
  w_statusCode (writeError w r e err).2
  = Some (if Protocol_eqb (e_Protocol e) Protocol_GRPC then 200 else (mapError err).1).
Proof.
  intros Hw. unfold writeError. destruct (mapError err) as [st logged].
  destruct (Protocol_eqb _ _); cbn; by rewrite Hw.
Qed.

Lemma writeError_written w r e err :
  w_statusCode w = None ->
  forall st err', EvHandleRequest st err' ∈ (writeError w r e err).1 ->
    w_statusCode (writeError w r e err).2 = Some st
    \/ (e_Protocol e = Protocol_GRPC /\ w_statusCode (writeError w r e err).2 = Some 200).
Proof using Type.
  intros Hw st err' Hin.
  apply writeError_requests in Hin as ->. rewrite writeError_status by done.
  destruct (e_Protocol e); cbn; eauto.
Qed.

Lemma doCopyBody_status e a resp w :
  w_statusCode (doCopyBody e a resp w).1.2 = w_statusCode w.
Proof.
  unfold doCopyBody. destruct (resp_Body resp) as [body|]; [|done].
  destruct (ioCopy body (ar_copyFault a)) as [sent [err|]]; cbn;
    by rewrite Flush_if_status.
Qed.

Lemma relay_requests e a req resp w :
  countOf isHandleRequest (relay e a req resp w).1 = 1%nat
  /\ countOf isHandleLatency (relay e a req resp w).1 = 0%nat
  /\ (forall st err', EvHandleRequest st err' ∈ (relay e a req resp w).1 ->
        st = resp_StatusCode resp)
  /\ (w_statusCode w = None ->
      w_statusCode (relay e a req resp w).2 = Some (resp_StatusCode resp)).
Proof using Type.
  unfold relay.
  set (w1 := if _ && ar_flusher a then _ else _).
  assert (w_statusCode w = None -> w_statusCode w1 = Some (resp_StatusCode resp)) as Hw1.
  { intros Hw. subst w1. rewrite Flush_if_status. cbn. by rewrite Hw. }
  pose proof (doCopyBody_status e a resp w1) as Hst.
  assert (countOf isHandleRequest (doCopyBody e a resp w1).1.1 = 0%nat
          /\ countOf isHandleLatency (doCopyBody e a resp w1).1.1 = 0%nat
          /\ forall st err', EvHandleRequest st err' ∉ (doCopyBody e a resp w1).1.1)
    as (Hr & Hl & Hn).
  { unfold doCopyBody. destruct (resp_Body resp) as [body|].
    2:{ split_and!; [done|done|]. intros st err' Hin. list_cases Hin. }
    destruct (ioCopy body (ar_copyFault a)) as [sent [err|]]; cbn;
      (split_and!; [done|done|]); intros st err' Hin; list_cases Hin. }
  destruct (doCopyBody e a resp w1) as [[evs w2] err]; cbn [fst snd] in *.
  split_and!.
  - rewrite countOf_app, Hr. by rewrite countOf_cons, countOf_nil.
  - rewrite countOf_app, Hl. by rewrite countOf_cons, countOf_nil.
  - intros st err' [Hin|Hin]%elem_of_app; [by apply Hn in Hin|]. list_cases Hin.
  - intros Hw. rewrite Hst. by apply Hw1.
Qed.

Lemma streamHooks_requests e req hooks s w :
  exists evs,
    ls_trace (fold_left (λ sw h, streamHook e req h sw) hooks (s, w)).1
    = ls_trace s ++ evs
    /\ countOf isHandleRequest evs = length hooks
    /\ countOf isHandleLatency evs = 0%nat.
Proof using Type.
  revert s w. induction hooks as [|h hooks IH]; intros s w; cbn [fold_left].
  { exists []. by rewrite app_nil_r. }
  assert (exists evs1,
            ls_trace (streamHook e req h (s, w)).1 = ls_trace s ++ evs1
            /\ countOf isHandleRequest evs1 = 1%nat
            /\ countOf isHandleLatency evs1 = 0%nat) as (evs1 & Ht1 & Hr1 & Hl1).
  { destruct h as [err|resp]; cbn [streamHook].
    - destruct (writeError_requests w req e err) as (Hr & Hl & _).
      destruct (writeError w req e err) as [evs w']; cbn [fst] in *.
      exists (EvDoneFunc {| di_Err := Some err; di_ReplyMD := None |} :: evs).
      split_and!; [simpl; by rewrite <- !app_assoc| |]; by rewrite countOf_cons.
    - eexists [_; _; _]. split_and!; [simpl; by rewrite <- !app_assoc|done|done]. }
  destruct (streamHook e req h (s, w)) as [s1 w1]; cbn [fst] in *.
  destruct (IH s1 w1) as (evs2 & Ht2 & Hr2 & Hl2).
  exists (evs1 ++ evs2). split_and!.
  - by rewrite Ht2, Ht1, app_assoc.
  - rewrite countOf_app. cbn [length]. lia.
  - rewrite countOf_app. lia.
Qed.

Lemma streamHooks_panicked e req hooks s w :
  ls_panicked s = false ->
  ls_panicked (fold_left (λ sw h, streamHook e req h sw) hooks (s, w)).1 = false.
Proof.
  revert s w. induction hooks as [|h hooks IH]; intros s w Hs; cbn [fold_left]; [done|].
  assert (ls_panicked (streamHook e req h (s, w)).1 = false) as Hstep.
  { destruct h as [err|resp]; cbn [streamHook].
    - destruct (writeError w req e err) as [evs w']. by cbn.
    - by cbn. }
  destruct (streamHook e req h (s, w)) as [s1 w1]. by apply IH.
Qed.

Lemma endpointHandler_metrics e strategy b w a :
  let sv := (endpointHandler e strategy b w a).1 in
  (exists t, sv_trace sv = t ++ [EvHandleLatency] /\ countOf isHandleLatency t = 0%nat)
  /\ countOf isHandleRequest (sv_trace sv)
     = (if e_Stream e then length (sr_hooks (ar_stream a))
        else if sv_panicked sv then 0 else 1)%nat
  /\ (if e_Stream e
      then sv_panicked sv = sr_abort (ar_stream a)
           /\ sv_abort sv = sr_abort (ar_stream a)
      else sv_abort sv = false /\ (sv_panicked sv = true -> sv_w sv = w))
  /\ (e_Stream e = false -> w_statusCode w = None ->
      forall st err,
        EvHandleRequest st err ∈ sv_trace sv ->
        w_statusCode (sv_w sv) = Some st
        \/ (e_Protocol e = Protocol_GRPC /\ w_statusCode (sv_w sv) = Some 200)).
Proof using Type.
  cbv zeta. unfold endpointHandler. destruct (e_Stream e) eqn:Hstream.
  - unfold proxyStream.
    set (s0 := if sr_transport (ar_stream a) then _ else _).
    assert (exists t0, ls_trace s0 = t0 /\ countOf isHandleRequest t0 = 0%nat
                       /\ countOf isHandleLatency t0 = 0%nat) as (t0 & Ht0 & Hr0 & Hl0).
    { subst s0. destruct (sr_transport _); eexists; split_and!; done. }
    destruct (streamHooks_requests e (setXFFHeader (ar_req a))
                (sr_hooks (ar_stream a)) s0 w) as (evs & Ht & Hr & Hl).
    assert (ls_panicked (fold_left (λ sw h, streamHook e (setXFFHeader (ar_req a)) h sw)
                           (sr_hooks (ar_stream a)) (s0, w)).1 = false) as Hquiet.
    { apply streamHooks_panicked. subst s0. by destruct (sr_transport _). }
    destruct (fold_left _ _ _) as [s1 w1]; cbn [fst] in Hquiet.
    destruct (sr_abort (ar_stream a));
      cbn [fst snd served sv_trace sv_panicked sv_abort sv_w emit ls_trace ls_panicked
           panic] in *;
      rewrite Ht, Ht0, ?Hquiet; (split_and!; try done);
      [eexists; split; [done|]; by rewrite !countOf_app, Hl0, Hl
      |rewrite !countOf_app, Hr0, Hr, !countOf_cons, countOf_nil; cbn; lia
      |eexists; split; [done|]; by rewrite !countOf_app, Hl0, Hl
      |rewrite !countOf_app, Hr0, Hr, !countOf_cons, countOf_nil; cbn; lia].
  - destruct (ar_body a) as [body|err].
    + destruct (bufferedAttempts_calls e strategy a b body) as (evs & Ht & Hloop).
      destruct (loopCalls_no_requests _ _ _ Hloop) as (Hr & Hl & Hn).
      destruct (ls_panicked _).
      { cbn [fst served sv_trace sv_panicked sv_abort sv_w]. rewrite Ht. split_and!; try done.
        - eexists. split; [done|]. by rewrite countOf_cons, Hl.
        - rewrite countOf_app, countOf_cons, Hr. done.
        - intros _ _ st err Hin. exfalso.
          apply elem_of_app in Hin as [Hin|Hin]; [|list_cases Hin].
          apply elem_of_cons in Hin as [|Hin]; [done|]. by apply Hn in Hin. }
      destruct (ls_err _) as [err|].
      * destruct (writeError_requests w (setXFFHeader (ar_req a)) e err) as (Hr' & Hl' & _).
        pose proof (writeError_written w (setXFFHeader (ar_req a)) e err) as Hw'.
        destruct (writeError _ _ _ _) as [evs' w'];
          cbn [fst snd served sv_trace sv_panicked sv_abort sv_w emit ls_trace] in *.
        rewrite Ht. split_and!; try done.
        -- eexists. split; [done|]. rewrite countOf_app, countOf_cons, Hl, Hl'. done.
        -- rewrite !countOf_app, !countOf_cons, Hr, Hr', countOf_nil. done.
        -- intros _ Hw st err' Hin.
           apply elem_of_app in Hin as [Hin|Hin]; [|list_cases Hin].
           apply elem_of_app in Hin as [Hin|Hin]; [|by eapply Hw'].
           apply elem_of_cons in Hin as [|Hin]; [done|]. by apply Hn in Hin.
      * destruct (ls_resp _) as [resp|].
        -- destruct (relay_requests e a (setXFFHeader (ar_req a)) resp w)
             as (Hr' & Hl' & Hst & Hw').
           destruct (relay _ _ _ _ _) as [evs' w'];
             cbn [fst snd served sv_trace sv_panicked sv_abort sv_w emit ls_trace] in *.
           rewrite Ht. split_and!; try done.
           ++ eexists. split; [done|]. rewrite countOf_app, countOf_cons, Hl, Hl'. done.
           ++ rewrite !countOf_app, !countOf_cons, Hr, Hr', countOf_nil. done.
           ++ intros _ Hw st err' Hin. left.
              apply elem_of_app in Hin as [Hin|Hin]; [|list_cases Hin].
              apply elem_of_app in Hin as [Hin|Hin].
              ** apply elem_of_cons in Hin as [|Hin]; [done|]. by apply Hn in Hin.
              ** apply Hst in Hin as ->. by apply Hw'.
        -- cbn [fst served sv_trace sv_panicked sv_abort sv_w]. rewrite Ht. split_and!; try done.
           ++ eexists. split; [done|]. by rewrite countOf_cons, Hl.
           ++ rewrite countOf_app, countOf_cons, Hr. done.
           ++ intros _ _ st err Hin. exfalso.
              apply elem_of_app in Hin as [Hin|Hin]; [|list_cases Hin].
              apply elem_of_cons in Hin as [|Hin]; [done|]. by apply Hn in Hin.
    + destruct (writeError_requests w (setXFFHeader (ar_req a)) e err) as (Hr' & Hl' & _).
      pose proof (writeError_written w (setXFFHeader (ar_req a)) e err) as Hw'.
      destruct (writeError _ _ _ _) as [evs' w'];
        cbn [fst snd served sv_trace sv_panicked sv_w emit ls_trace startState] in *.
      split_and!; try done.
      * eexists. split; [done|]. done.
      * rewrite !countOf_app, !countOf_cons, Hr', countOf_nil. done.
      * intros _ Hw st err' Hin.
        apply elem_of_app in Hin as [Hin|Hin]; [|list_cases Hin].
        by eapply Hw'.
Qed.

(** X4. The access metrics of one request.  [HandleLatency] is called
    exactly once, as the last call of the handler, whether it returns or
    panics.  The request counter ([HandleRequest]) is called once by a
    buffered handler that returns, not at all by a buffered handler that
    panics, and once per hook the reverse proxy runs by a stream handler,
    also when the reverse proxy aborts afterwards.  A stream handler panics
    exactly when the reverse proxy does, with [http.ErrAbortHandler]; a
    buffered handler never panics with that value, and when it panics it has
    written nothing to the client.  On the buffered path, with nothing
    written before, the status counted is the status the client gets, except
    that a gRPC client gets 200 where the proxy itself failed the request. *)
Theorem handler_accounting (e : Endpoint) (strategy : retryStrategy) (b : B)
  (w : ResponseWriter) (a : Arrival) :
  let sv := (endpointHandler e strategy b w a).1 in
  (exists t, sv_trace sv = t ++ [EvHandleLatency] /\ countOf isHandleLatency t = 0%nat)
  /\ countOf isHandleRequest (sv_trace sv)
     = (if e_Stream e then length (sr_hooks (ar_stream a))
        else if sv_panicked sv then 0 else 1)%nat
  /\ (if e_Stream e
      then sv_panicked sv = sr_abort (ar_stream a)
           /\ sv_abort sv = sr_abort (ar_stream a)
      else sv_abort sv = false /\ (sv_panicked sv = true -> sv_w sv = w))
  /\ (e_Stream e = false -> w_statusCode w = None ->
      forall st err,
        EvHandleRequest st err ∈ sv_trace sv ->
        w_statusCode (sv_w sv) = Some st
        \/ (e_Protocol e = Protocol_GRPC /\ w_statusCode (sv_w sv) = Some 200)).
Proof using Type. apply endpointHandler_metrics. Qed.

(** ** The heap across calls of [Update] *)

Lemma updateLoop_heap es ms router deferred p :
  match updateLoop es ms router deferred p with
  | (retError, _, _, p') =>
      (exists bs, p_breakers p' = p_breakers p ++ bs)
      /\ (retError = None -> p_clients p' = (p_clients p + length es)%nat)
  end.
Proof.
  revert router deferred p.
  induction es as [|e es IH]; intros router deferred p; simpl.
  { split; [exists []; by rewrite app_nil_r|]. intros _. lia. }
  pose proof (buildEndpoint_spec e ms p) as Hb.
  destruct (buildEndpoint e ms p) as [[err|[h closer]] p1].
  - destruct Hb as (Hbr & _). split; [|done]. exists []. by rewrite app_nil_r.
  - destruct Hb as (_ & _ & Hbr & _ & _ & Hc & _).
    destruct (router_Handle _ _) as [err|].
    + split; [|done]. eauto.
    + specialize (IH (router ++ [{| rt_path := e_Path e; rt_method := e_Method e;
                                    rt_host := e_Host e; rt_handler := h;
                                    rt_closer := closer |}])
                    (closer :: deferred) p1).
      destruct (updateLoop es ms _ _ p1) as [[[retError router'] deferred'] p'].
      destruct IH as [[bs Hbs] Hcl]. split.
      * eexists. by rewrite Hbs, Hbr, <- app_assoc.
      * intros Hnone. rewrite (Hcl Hnone), Hc. lia.
Qed.

(** What an [Update] does to the heap, whether it succeeds or not. *)
Lemma Update_heap c p :
  match Update c p with
  | (retError, p') =>
      (exists bs, p_breakers p' = p_breakers p ++ bs)
      /\ (p_clients p <= p_clients p')%nat
      /\ (exists cl, p_closed p' = p_closed p ++ cl
                     /\ forall x, x ∈ cl -> (p_clients p <= x < p_clients p')%nat)
      /\ (exists dr, p_draining p' = p_draining p ++ dr)
      /\ match retError with
         | Some _ => p_router p' = p_router p /\ p_draining p' = p_draining p
         | None =>
             p_closed p' = p_closed p
             /\ p_draining p'
                = p_draining p ++ match p_router p with Some old => [old] | None => [] end
             /\ exists router,
                  p_router p' = Some router
                  /\ forall r, r ∈ router ->
                       (p_clients p <= rt_closer r < p_clients p')%nat
                       /\ (h_retryBreaker (rt_handler r) < length (p_breakers p'))%nat
         end
  end.
Proof.
  unfold Update.
  pose proof (updateLoop_spec (c_Endpoints c) (c_Middlewares c) [] [] p) as Hloop.
  pose proof (updateLoop_heap (c_Endpoints c) (c_Middlewares c) [] [] p) as Hheap.
  destruct (updateLoop _ _ _ _ _) as [[[retError router] deferred] p1].
  destruct Hloop as (Hr & Hd & Hle & ds & cs & Hdef & Hclosed & Hperm & Hok).
  destruct Hheap as [Hbs Hcl].
  rewrite app_nil_r in Hdef. subst deferred.
  assert (forall x, x ∈ ds ++ cs -> (p_clients p <= x < p_clients p1)%nat) as Hfresh.
  { intros x Hx. rewrite Hperm in Hx. apply elem_of_seq in Hx. lia. }
  destruct retError as [err|].
  - rewrite runDeferred_Some. cbn. split_and!; try done.
    + exists (cs ++ ds). split; [by rewrite Hclosed, <- app_assoc|].
      intros x Hx. apply Hfresh. set_solver.
    + exists []. by rewrite Hd, app_nil_r.
  - destruct (Hok eq_refl) as (-> & Hbr & routes & -> & Hcs & Hcells).
    rewrite <- Hr.
    specialize (Hcl eq_refl).
    unfold swapRouter. rewrite runDeferred_None. unfold tryCloseRouter.
    rewrite app_nil_r in Hclosed.
    assert (forall r, r ∈ routes ->
              (p_clients p <= rt_closer r < p_clients p1)%nat
              /\ (h_retryBreaker (rt_handler r) < length (p_breakers p1))%nat) as Hroutes.
    { intros r Hin. split.
      - assert (rt_closer r ∈ map rt_closer routes) as Hc
          by (apply list_elem_of_fmap; eauto).
        rewrite Hcs in Hc. apply elem_of_seq in Hc. lia.
      - assert (h_retryBreaker (rt_handler r)
                ∈ map (λ r, h_retryBreaker (rt_handler r)) routes) as Hc
          by (apply list_elem_of_fmap; eauto).
        rewrite Hcells in Hc. apply elem_of_seq in Hc.
        rewrite Hbr, length_app, length_replicate. lia. }
    assert (exists cl, p_closed p1 = p_closed p ++ cl
                       /\ forall x, x ∈ cl -> (p_clients p <= x < p_clients p1)%nat)
      as Hnone.
    { exists []. split; [by rewrite app_nil_r|]. by intros x Hx; apply elem_of_nil in Hx. }
    destruct (p_router p1) as [old|]; cbn.
    + split_and!; try done; [|by rewrite Hd|eauto]. exists [old]. by rewrite Hd.
    + split_and!; try done; [|by rewrite Hd, app_nil_r|eauto].
      exists []. by rewrite Hd, app_nil_r.
Qed.

(** X5. What an [Update] leaves alone, whether it succeeds or fails: every
    breaker cell allocated before the call keeps its address and its
    contents; no client made before the call is closed by it; and a handler
    that could be run before the call can be run after it, so that the
    requests of a table that was replaced go on.  The tables handed to
    [tryCloseRouter] before the call stay handed over. *)
Theorem Update_keeps_older_tables (c : Gateway) (p : Proxy) :
  let p' := (Update c p).2 in
  (forall cell b, p_breakers p !! cell = Some b -> p_breakers p' !! cell = Some b)
  /\ (forall x, x ∈ p_closed p' -> x ∈ p_closed p \/ (p_clients p <= x)%nat)
  /\ (forall h w a, is_Some (serveRoute h w a p) -> is_Some (serveRoute h w a p'))
  /\ (forall t, t ∈ p_draining p -> t ∈ p_draining p').
Proof.
  cbv zeta. pose proof (Update_heap c p) as H.
  destruct (Update c p) as [retError p']. cbn [snd].
  destruct H as ([bs Hbs] & _ & (cl & Hcl & Hfresh) & [dr Hdr] & _).
  assert (forall cell b, p_breakers p !! cell = Some b -> p_breakers p' !! cell = Some b)
    as Hcells.
  { intros cell b Hcell. rewrite Hbs. by apply lookup_app_l_Some. }
  split_and!.
  - done.
  - intros x. rewrite Hcl. intros [Hx|Hx]%elem_of_app; [by left|right].
    apply Hfresh in Hx. lia.
  - intros h w a. unfold serveRoute.
    destruct (p_breakers p !! h_retryBreaker h) as [b|] eqn:Hb; [|by intros []].
    rewrite (Hcells _ _ Hb). intros _.
    destruct (endpointHandler _ _ _ _ _). eauto.
  - intros t Ht. rewrite Hdr. set_solver.
Qed.

Lemma Update_consistent c p : consistent p -> consistent (Update c p).2.
Proof.
  intros (Hclosed & Hdrain & Hlive). pose proof (Update_heap c p) as H.
  destruct (Update c p) as [retError p']. cbn [snd].
  destruct H as ([bs Hbs] & Hle & (cl & Hcl & Hfresh) & _ & Hrouter).
  destruct retError as [err|].
  - destruct Hrouter as [Hrt Hdr]. split_and!.
    + intros x. rewrite Hcl. intros [Hx|Hx]%elem_of_app.
      * apply Hclosed in Hx. lia.
      * apply Hfresh in Hx. lia.
    + intros t r. rewrite Hdr. intros Ht Hr'. specialize (Hdrain t r Ht Hr'). lia.
    + intros r Hr. unfold liveRoutes in Hr. rewrite Hrt in Hr.
      destruct (Hlive r Hr) as (Hcell & Hc & Hopen & Hapart). split_and!.
      * rewrite Hbs, length_app. lia.
      * lia.
      * rewrite Hcl. intros [Hx|Hx]%elem_of_app; [done|].
        apply Hfresh in Hx. lia.
      * intros t r'. rewrite Hdr. apply Hapart.
  - destruct Hrouter as (Hsame & Hdr & router & Hrt & Hroutes).
    assert (forall t r, t ∈ p_draining p' -> r ∈ t -> (rt_closer r < p_clients p)%nat)
      as Hold.
    { intros t r. rewrite Hdr. intros [Ht|Ht]%elem_of_app Hr'; [by eapply Hdrain|].
      unfold liveRoutes in Hlive. destruct (p_router p) as [old|].
      - apply list_elem_of_singleton in Ht as ->. by apply Hlive.
      - by apply elem_of_nil in Ht. }
    split_and!.
    + intros x. rewrite Hsame. intros Hx. apply Hclosed in Hx. lia.
    + intros t r Ht Hr'. specialize (Hold t r Ht Hr'). lia.
    + intros r Hr. unfold liveRoutes in Hr. rewrite Hrt in Hr.
      destruct (Hroutes r Hr) as [Hc Hcell]. split_and!; [done|lia| |].
      * rewrite Hsame. intros Hx. apply Hclosed in Hx. lia.
      * intros t r' Ht Hr'. specialize (Hold t r' Ht Hr'). lia.
Qed.

Lemma serveRoute_consistent h w a p sv p' :
  serveRoute h w a p = Some (sv, p') -> consistent p -> consistent p'.
Proof.
  unfold serveRoute. destruct (p_breakers p !! h_retryBreaker h) as [b|]; [|done].
  destruct (endpointHandler _ _ _ _ _) as [sv' b'].
  intros [= <- <-] (Hclosed & Hdrain & Hlive).
  split_and!; [done|done|]. intros r Hr.
  destruct (Hlive r Hr) as (Hcell & Hc & Hopen & Hapart).
  cbn. by rewrite length_insert.
Qed.

Lemma reachable_consistent p : reachable p -> consistent p.
Proof.
  induction 1 as [|c p _ IH|h w a p sv p' _ IH Hserve].
  - split_and!.
    + by intros c Hc; apply elem_of_nil in Hc.
    + by intros t r Ht; apply elem_of_nil in Ht.
    + by intros r Hr; apply elem_of_nil in Hr.
  - by apply Update_consistent.
  - by eapply serveRoute_consistent.
Qed.

(** X6. However many configurations were applied, accepted or rejected,
    and however many requests were served in between: every route of the
    live table has a client that the factory made, that no [Update] closed,
    and that belongs to no table handed to [tryCloseRouter], so that closing
    those tables cannot close it; and it has a breaker cell on the heap, so
    that a request routed to it finds its handler able to run. *)
Theorem live_table_intact (p : Proxy) :
  reachable p ->
  forall r, r ∈ liveRoutes p ->
    (rt_closer r < p_clients p)%nat
    /\ (rt_closer r ∉ p_closed p)
    /\ (forall t r', t ∈ p_draining p -> r' ∈ t -> rt_closer r' <> rt_closer r)
    /\ forall w a, is_Some (serveRoute (rt_handler r) w a p).
Proof.
  intros Hreach r Hr.
  destruct (reachable_consistent p Hreach) as (_ & _ & Hlive).
  destruct (Hlive r Hr) as (Hcell & Hc & Hopen & Hapart). split_and!; [done..|].
  intros w a. unfold serveRoute.
  destruct (lookup_lt_is_Some_2 _ _ Hcell) as [b ->].
  destruct (endpointHandler _ _ _ _ _). eauto.
Qed.

(** ** The headers of a relayed response *)

Lemma copyTrailers_lookup (trailer headers : Header) :
  (forall k v, trailer !! k = Some v ->
     copyTrailers trailer headers !! (TrailerPrefix +:+ k) = Some v)
  /\ (forall key, (forall k, is_Some (trailer !! k) -> key <> TrailerPrefix +:+ k) ->
        copyTrailers trailer headers !! key = headers !! key).
Proof.
  unfold copyTrailers.
  apply (map_fold_weak_ind
           (λ (r : Header) (m : Header),
              (forall k v, m !! k = Some v -> r !! (TrailerPrefix +:+ k) = Some v)
              /\ (forall key, (forall k, is_Some (m !! k) -> key <> TrailerPrefix +:+ k) ->
                    r !! key = headers !! key))).
  - split; [by intros k v Hk; rewrite lookup_empty in Hk|done].
  - intros i x m r Hi [IH1 IH2]. split.
    + intros k v. destruct (decide (k = i)) as [->|Hne].
      * rewrite !lookup_insert_eq. done.
      * rewrite lookup_insert_ne by done. intros Hk.
        rewrite lookup_insert_ne; [by apply IH1|].
        intros Heq. by apply (inj (String.append TrailerPrefix)) in Heq.
    + intros key Hkey. rewrite lookup_insert_ne.
      * apply IH2. intros k Hk. apply Hkey.
        destruct (decide (k = i)) as [->|Hne]; [by rewrite lookup_insert_eq|].
        by rewrite lookup_insert_ne.
      * intros Heq. apply (Hkey i); [by rewrite lookup_insert_eq|done].
Qed.

Lemma Flush_if_header (c : bool) w : w_Header (if c then Flush w else w) = w_Header w.
Proof. by destruct c. Qed.

Lemma relay_header e a req resp w :
  w_Header (relay e a req resp w).2
  = if match resp_Body resp with
       | Some body => bool_decide ((ioCopy body (ar_copyFault a)).2 = None)
       | None => false
       end
    then copyTrailers (resp_Trailer resp) (resp_Header resp ∪ w_Header w)
    else resp_Header resp ∪ w_Header w.
Proof.
  unfold relay. set (w1 := if _ && ar_flusher a then _ else _).
  assert (w_Header w1 = resp_Header resp ∪ w_Header w) as Hw1
    by (subst w1; by rewrite Flush_if_header).
  unfold doCopyBody. destruct (resp_Body resp) as [body|]; [|done].
  destruct (ioCopy body (ar_copyFault a)) as [sent [err|]]; cbn;
    rewrite Flush_if_header; cbn; by rewrite Hw1.
Qed.

(** X7. The header a buffered handler leaves on the writer when it relays
    a response.  A field of the upstream response replaces the field of the
    same name set before; the other fields set before stay.  When the
    response has a body and the body was copied without error, each trailer
    of the response is added under its name after the prefix [Trailer:];
    when the copy failed, or the response has no body, no trailer is
    added. *)
Theorem relay_headers (e : Endpoint) (a : Arrival) (req : Request) (resp : Response)
  (w : ResponseWriter) :
  let w' := (relay e a req resp w).2 in
  let copied :=
    match resp_Body resp with
    | Some body => bool_decide ((ioCopy body (ar_copyFault a)).2 = None)
    | None => false
    end in
  let relayed key :=
    match resp_Header resp !! key with
    | Some v => Some v
    | None => w_Header w !! key
    end in
  (forall k v,
     copied = true -> resp_Trailer resp !! k = Some v ->
     w_Header w' !! (TrailerPrefix +:+ k) = Some v)
  /\ (forall key,
        copied = false
        \/ (forall k, is_Some (resp_Trailer resp !! k) -> key <> TrailerPrefix +:+ k) ->
        w_Header w' !! key = relayed key).
Proof.
  cbv zeta. rewrite relay_header.
  assert (forall key,
            (resp_Header resp ∪ w_Header w) !! key
            = match resp_Header resp !! key with
              | Some v => Some v
              | None => w_Header w !! key
              end) as Hunion.
  { intros key. rewrite lookup_union.
    destruct (resp_Header resp !! key), (w_Header w !! key); done. }
  split.
  - intros k v -> Hk. by apply copyTrailers_lookup.
  - intros key [-> | Hkey]; [apply Hunion|].
    destruct (match resp_Body resp with Some _ => _ | None => false end);
      [|apply Hunion].
    rewrite <- Hunion. by apply copyTrailers_lookup.
Qed.

(** ** The entry point *)

Lemma countOf_pos f t :
  (0 < countOf f t)%nat -> exists ev, ev ∈ t /\ f ev = true.
Proof.
  induction t as [|ev t IH]; [rewrite countOf_nil; lia|].
  rewrite countOf_cons. destruct (f ev) eqn:Hev.
  - intros _. exists ev. split; [left|done].
  - intros Hpos. destruct IH as (ev' & Hin & Hev'); [lia|].
    exists ev'. split; [by right|done].
Qed.

(** X8. What [ServeHTTP] leaves on a writer nothing was written to.  When
    the router runs the handler of a route and the handler returns, the
    writer is as the handler left it, and a buffered handler always leaves a
    status.  A panic of the handler is recovered.  When its value is
    [http.ErrAbortHandler], which is how a stream handler panics and a
    buffered one never does, the deferred function returns at once: nothing
    is written or logged and the writer stays as the handler left it.  Any
    other panic is logged and the client gets 502 with the header and the
    body as they were; this happens on the buffered path only, and the
    request counter of the endpoint was not called for the request.  When no
    route matches, the fallback handler answers 404 (or 405) with the status
    text as body and counts the request under the path label [/404] (or
    [/405]), and no breaker, client or table is touched. *)
Theorem ServeHTTP_reply (router_ServeHTTP : list Route -> Request -> Dispatch)
  (http_Error_Header : Header -> Header)
  (w : ResponseWriter) (a : Arrival) (p : Proxy) :
  w_statusCode w = None ->
  match p_router p with
  | None =>
      ServeHTTP router_ServeHTTP http_Error_Header w a p
      = Some (recovered w None false, p)
  | Some table =>
      match router_ServeHTTP table (ar_req a) with
      | DispatchRoute r =>
          match ServeHTTP router_ServeHTTP http_Error_Header w a p with
          | None => p_breakers p !! h_retryBreaker (rt_handler r) = None
          | Some (rp, p') =>
              exists sv,
                rp_served rp = Some sv /\ rp_counted rp = None
                /\ rp_recovered rp = sv_panicked sv
                /\ rp_panicLogged rp = sv_panicked sv && negb (sv_abort sv)
                /\ (if e_Stream (h_endpoint (rt_handler r))
                    then sv_panicked sv = sr_abort (ar_stream a)
                         /\ sv_abort sv = sr_abort (ar_stream a)
                    else sv_abort sv = false /\ is_Some (w_statusCode (rp_w rp)))
                /\ if sv_panicked sv && negb (sv_abort sv)
                   then e_Stream (h_endpoint (rt_handler r)) = false
                        /\ w_statusCode (rp_w rp) = Some 502
                        /\ w_Header (rp_w rp) = w_Header w
                        /\ w_body (rp_w rp) = w_body w
                        /\ countOf isHandleRequest (sv_trace sv) = 0%nat
                   else rp_w rp = sv_w sv
          end
      | DispatchNotFound =>
          exists rp,
            ServeHTTP router_ServeHTTP http_Error_Header w a p = Some (rp, p)
            /\ rp_served rp = None /\ rp_recovered rp = false
            /\ rp_counted rp = Some ("/404", 404)
            /\ w_statusCode (rp_w rp) = Some 404
            /\ w_body (rp_w rp)
               = w_body w ++ String.list_byte_of_string
                               ("404 page not found" +:+ String "010" "")
      | DispatchMethodNotAllowed =>
          exists rp,
            ServeHTTP router_ServeHTTP http_Error_Header w a p = Some (rp, p)
            /\ rp_served rp = None /\ rp_recovered rp = false
            /\ rp_counted rp = Some ("/405", 405)
            /\ w_statusCode (rp_w rp) = Some 405
            /\ w_body (rp_w rp)
               = w_body w ++ String.list_byte_of_string
                               ("Method Not Allowed" +:+ String "010" "")
      end
  end.
Proof using Type.
  intros Hw. unfold ServeHTTP. destruct (p_router p) as [table|]; [|done].
  destruct (router_ServeHTTP table (ar_req a)) as [r| |].
  - unfold serveRoute.
    destruct (p_breakers p !! h_retryBreaker (rt_handler r)) as [b|]; [|done].
    destruct (endpointHandler_metrics (h_endpoint (rt_handler r))
                (h_strategy (rt_handler r)) b w a) as (_ & Hcount & Hpanic & Hstatus).
    destruct (endpointHandler _ _ _ _ _) as [sv b']. cbn [fst] in *.
    exists sv. destruct (e_Stream (h_endpoint (rt_handler r))) eqn:Hstream.
    + destruct Hpanic as [Hp Ha]. rewrite Hp, Ha.
      destruct (sr_abort (ar_stream a)); cbn; by split_and!.
    + destruct Hpanic as [Ha Hpw]. rewrite Ha.
      destruct (sv_panicked sv) eqn:Hp.
      * rewrite (Hpw eq_refl). cbn. rewrite Hw. by split_and!.
      * cbn. split_and!; try done.
        destruct (countOf_pos isHandleRequest (sv_trace sv)) as (ev & Hin & Hev); [lia|].
        destruct ev; try done.
        destruct (Hstatus eq_refl Hw _ _ Hin) as [-> | [_ ->]]; eauto.
  - eexists. split; [done|]. cbn. by rewrite Hw.
  - eexists. split; [done|]. cbn. by rewrite Hw.
Qed.

(** ** The bodies a stream request registers *)

Lemma wrapStreamRequestBody_cases EqualFold hasBody req s :
  wrapStreamRequestBody EqualFold hasBody req s
  = if hasBody
       && ((req_ProtoMajor req =? 2)
           || (req_ProtoMajor req =? 1) && negb (isWebSocketRequest EqualFold req))
    then MetaStream.WrapBody s else s.
Proof.
  unfold wrapStreamRequestBody.
  destruct hasBody; [|done]. cbn [negb andb].
  destruct (Z.eqb_spec (req_ProtoMajor req) 1) as [->|H1].
  - by destruct (isWebSocketRequest EqualFold req).
  - by destruct (req_ProtoMajor req =? 2).
Qed.

Lemma builtinStreamTripper_cases isReadWriteCloser hasOptions hasContext answer s :
  (builtinStreamTripper isReadWriteCloser hasOptions hasContext answer s).1 = answer
  /\ (builtinStreamTripper isReadWriteCloser hasOptions hasContext answer s).2
     = if hasOptions && hasContext
          && match answer with
             | inl resp =>
                 bool_decide (is_Some (resp_Body resp))
                 && ((resp_ProtoMajor resp =? 1) || (resp_ProtoMajor resp =? 2))
             | inr _ => false
             end
       then MetaStream.WrapBody s else s.
Proof.
  unfold builtinStreamTripper.
  destruct hasOptions, hasContext; cbn [negb andb]; try done.
  destruct answer as [resp|err]; [|done]. split; [done|]. cbn [snd].
  unfold wrapStreamResponseBody. destruct (resp_Body resp) as [body|]; [|done].
  rewrite bool_decide_true by eauto. cbn [andb].
  destruct (resp_ProtoMajor resp =? 1); [by destruct (isReadWriteCloser body)|].
  by destruct (resp_ProtoMajor resp =? 2).
Qed.

(** X9. The bodies a stream request registers with its tracker, and when
    the on-finish hooks run for them.  The request body is wrapped when it
    is set and the request is HTTP/2, or HTTP/1 and not a WebSocket upgrade;
    the response body is wrapped when the options and the context are found,
    the client returned a response with a body, and the response is HTTP/1
    or HTTP/2.  The tripper hands on what the client returned.  With no
    body wrapped the tracker is untouched and no close can make it run the
    hooks; with one body they run at its close; with two they run at the
    second close, whichever body is closed first.  But when the request
    body is closed before the tripper returns, the hooks run at that close,
    before the response body is registered, and not again. *)
Theorem stream_bodies (EqualFold : string -> string -> bool)
  (isReadWriteCloser : Body -> bool)
  (hasBody : bool) (req : Request) (hasOptions hasContext : bool)
  (answer : Response + error) :
  let requestWrapped :=
    hasBody
    && ((req_ProtoMajor req =? 2)
        || (req_ProtoMajor req =? 1) && negb (isWebSocketRequest EqualFold req)) in
  let responseWrapped :=
    hasOptions && hasContext
    && match answer with
       | inl resp =>
           bool_decide (is_Some (resp_Body resp))
           && ((resp_ProtoMajor resp =? 1) || (resp_ProtoMajor resp =? 2))
       | inr _ => false
       end in
  let s1 := wrapStreamRequestBody EqualFold hasBody req MetaStream.initStream in
  let r := builtinStreamTripper isReadWriteCloser hasOptions hasContext answer s1 in
  r.1 = answer
  /\ MetaStream.doneOnce r.2
     = (if requestWrapped then [false] else []) ++ (if responseWrapped then [false] else [])
  /\ match requestWrapped, responseWrapped with
     | false, false =>
         r.2 = MetaStream.initStream
         /\ forall acts, Forall (λ act, act <> MetaStream.ActWrap) acts ->
              MetaStream.run acts r.2 = r.2
     | true, true =>
         MetaStream.onFinishRuns (MetaStream.Close 0 r.2) = []
         /\ MetaStream.onFinishRuns (MetaStream.Close 1 r.2) = []
         /\ MetaStream.onFinishRuns (MetaStream.Close 1 (MetaStream.Close 0 r.2))
            = [(2, 2)]%nat
         /\ MetaStream.onFinishRuns (MetaStream.Close 0 (MetaStream.Close 1 r.2))
            = [(2, 2)]%nat
         /\ let early :=
              (builtinStreamTripper isReadWriteCloser hasOptions hasContext answer
                 (MetaStream.Close 0 s1)).2 in
            MetaStream.onFinishRuns early = [(1, 1)]%nat
            /\ MetaStream.onFinishRuns (MetaStream.Close 1 early) = [(1, 1)]%nat
     | _, _ => MetaStream.onFinishRuns (MetaStream.Close 0 r.2) = [(1, 1)]%nat
     end.
Proof.
  cbv zeta.
  rewrite wrapStreamRequestBody_cases.
  destruct (builtinStreamTripper_cases isReadWriteCloser hasOptions hasContext answer
              (if hasBody
                  && ((req_ProtoMajor req =? 2)
                      || (req_ProtoMajor req =? 1) && negb (isWebSocketRequest EqualFold req))
               then MetaStream.WrapBody MetaStream.initStream
               else MetaStream.initStream)) as [-> ->].
  split; [done|].
  pose proof (builtinStreamTripper_cases isReadWriteCloser hasOptions hasContext answer
                (MetaStream.Close 0
                   (if hasBody
                       && ((req_ProtoMajor req =? 2)
                           || (req_ProtoMajor req =? 1) && negb (isWebSocketRequest EqualFold req))
                    then MetaStream.WrapBody MetaStream.initStream
                    else MetaStream.initStream))) as [_ Hearly].
  rewrite Hearly. clear Hearly.
  destruct (hasBody && _); destruct (hasOptions && hasContext && _);
    (split; [done|]); [by vm_compute..|].
  split; [done|]. intros acts Hacts.
  induction Hacts as [|act acts Hact _ IH]; [done|].
  destruct act as [|b|t|]; [done| | |]; cbn [MetaStream.run fold_left MetaStream.step].
  - replace (MetaStream.closeBegin b MetaStream.initStream) with MetaStream.initStream;
      [done|]. unfold MetaStream.closeBegin. by destruct b.
  - replace (MetaStream.closeLoad t MetaStream.initStream) with MetaStream.initStream;
      [done|]. unfold MetaStream.closeLoad. by destruct t.
  - done.
Qed.

(** ** The attempts that reach the upstream *)

Lemma filter_trips_none t :
  countOf isRoundTrip t = 0%nat -> filter (λ ev, isRoundTrip ev = true) t = [].
Proof. unfold countOf. apply length_zero_iff_nil. Qed.

Lemma quiet_no_trips t :
  Forall (λ ev, retryCall ev = false) t -> filter (λ ev, isRoundTrip ev = true) t = [].
Proof. intros Hq. apply filter_trips_none. by apply quiet_counts. Qed.

Lemma filter_trip_keep i last t :
  filter (λ ev, isRoundTrip ev = true) (EvRoundTrip i last :: t)
  = EvRoundTrip i last :: filter (λ ev, isRoundTrip ev = true) t.
Proof. by rewrite filter_cons. Qed.

(** The round trips of the attempt loop from index [i] on carry the
    indices [i], [i + 1], ... without a gap. *)
Lemma loopCalls_trips n i evs :
  loopCalls n i evs ->
  exists k : nat,
    filter (λ ev, isRoundTrip ev = true) evs
    = (λ d : nat, EvRoundTrip (i + Z.of_nat d) (n <=? i + Z.of_nat d + 1)) <$> seq 0 k
    /\ (k = 0%nat \/ i + Z.of_nat k <= n).
Proof.
  induction 1 as [i Hi|i g Hi Hg|i g b Hi Hg Hb|i g b rest Hi Hg Hb Hrest IH].
  - exists 0%nat. split; [done|by left].
  - exists 0%nat. split; [|by left]. apply filter_trips_none.
    by destruct (gateCalls_count _ _ _ Hg) as (-> & _).
  - rewrite filter_app, (filter_trips_none g)
      by (by destruct (gateCalls_count _ _ _ Hg) as (-> & _)).
    cbn [app]. inversion Hb; subst.
    + exists 0%nat. split; [|by left]. apply filter_trips_none.
      by destruct (failedEvents_count i err) as [-> _].
    + exists 1%nat. rewrite filter_trip_keep, filter_trips_none
        by (by destruct (successEvents_count i) as [-> _]).
      cbn. rewrite Z.add_0_r. split; [done|right; lia].
    + exists 1%nat. rewrite filter_trip_keep, filter_trips_none
        by (by destruct (failedEvents_count i (errors_New "assertion failed")) as [-> _]).
      cbn. rewrite Z.add_0_r. split; [done|right; lia].
  - destruct IH as (k & Hk & Hbound).
    exists (S k). split.
    + rewrite !filter_app, (filter_trips_none g)
        by (by destruct (gateCalls_count _ _ _ Hg) as (-> & _)).
      cbn [app]. rewrite Hk.
      assert (filter (λ ev, isRoundTrip ev = true) b = [EvRoundTrip i (n <=? i + 1)]) as ->.
      { inversion Hb; subst; rewrite filter_trip_keep.
        - rewrite filter_app, filter_trips_none
            by (by destruct (failedEvents_count i err) as [-> _]).
          done.
        - by rewrite filter_trips_none
            by (by destruct (failedEvents_count i (errors_New "assertion failed"))
                  as [-> _]). }
      cbn [app seq fmap list_fmap]. rewrite Z.add_0_r. f_equal.
      rewrite <- fmap_S_seq, <- list_fmap_compose.
      apply list_fmap_ext. intros _ d _. unfold compose.
      by replace (i + Z.of_nat (S d)) with (i + 1 + Z.of_nat d) by lia.
    + right. destruct Hbound as [-> | Hle]; lia.
Qed.

(** X15. The attempts of one request that reach the upstream.  On the
    buffered path they are numbered 0, 1, 2, ... in the order they are made,
    without a gap; there are at most as many as the retry strategy has
    attempts; and each is made with the last-attempt flag set exactly when
    it is the last the strategy allows.  On the stream path there is at most
    one, numbered 0 and flagged as the last. *)
Theorem round_trips_numbered (e : Endpoint) (strategy : retryStrategy) (b : B)
  (w : ResponseWriter) (a : Arrival) :
  let trips := filter (λ ev, isRoundTrip ev = true)
                 (sv_trace (endpointHandler e strategy b w a).1) in
  if e_Stream e
  then trips = [] \/ trips = [EvRoundTrip 0 true]
  else
    exists k : nat,
      trips = (λ d : nat, EvRoundTrip (Z.of_nat d) (attempts strategy <=? Z.of_nat d + 1))
              <$> seq 0 k
      /\ Z.of_nat k <= Z.max (attempts strategy) 0.
Proof using Type.
  cbv zeta.
  destruct (endpointHandler_calls e strategy b w a)
    as (pre & evs & post & -> & Hpre & Hpost & Hevs).
  rewrite !filter_app, (quiet_no_trips pre), (quiet_no_trips post), app_nil_r by done.
  cbn [app]. destruct (e_Stream e).
  - destruct Hevs as [-> | ->]; [by left|by right].
  - destruct Hevs as [->|Hloop].
    + exists 0%nat. split; [done|lia].
    + destruct (loopCalls_trips _ _ _ Hloop) as (k & Hk & Hbound).
      exists k. split; [|lia]. rewrite Hk. apply list_fmap_ext.
      intros _ d _. cbn. by rewrite Z.add_0_l.
Qed.

(** ** What the client is answered with *)

Lemma failedEvents_no_trip i err :
  Forall (λ ev, isRoundTrip ev = false) (failedEvents i err).
Proof.
  unfold failedEvents, retryFailed.
  destruct (i <=? 0), (errors_Is err context_Canceled), (0 <? i); repeat constructor.
Qed.

Lemma successEvents_no_trip i :
  Forall (λ ev, isRoundTrip ev = false) (successEvents i).
Proof.
  unfold successEvents, retrySuccess. destruct (i <=? 0), (0 <? i); repeat constructor.
Qed.

Lemma markFailed_fields i err s :
  ls_resp (markFailed i err s) = ls_resp s
  /\ ls_err (markFailed i err s) = ls_err s
  /\ ls_panicked (markFailed i err s) = ls_panicked s.
Proof. unfold markFailed. by destruct (0 <? i). Qed.

Lemma markSuccess_fields i s :
  ls_resp (markSuccess i s) = ls_resp s
  /\ ls_err (markSuccess i s) = ls_err s
  /\ ls_panicked (markSuccess i s) = ls_panicked s.
Proof. unfold markSuccess. by destruct (0 <? i). Qed.

(** The head of the loop body leaves [resp], [err] and the panic flag
    alone and makes no round trip. *)
Lemma retryGate_fields a i s :
  ls_resp (retryGate a i s).1 = ls_resp s
  /\ ls_err (retryGate a i s).1 = ls_err s
  /\ ls_panicked (retryGate a i s).1 = ls_panicked s
  /\ exists g, ls_trace (retryGate a i s).1 = ls_trace s ++ g
               /\ Forall (λ ev, isRoundTrip ev = false) g.
Proof.
  unfold retryGate. destruct (0 <? i).
  2:{ split_and!; try done. exists []. by rewrite app_nil_r. }
  destruct (negb _).
  { split_and!; try done. exists []. by rewrite app_nil_r. }
  destruct (Allow _ _) as [err|]; cbn [fst].
  - destruct (errors_Is _ _).
    + split_and!; try done. unfold markBreaker, splitRetryMetricsHandler,
        retryBreakerTripped. cbn [snd emit ls_trace].
      eexists. rewrite <- app_assoc. split; [done|].
      destruct (i <=? 0); repeat constructor.
    + destruct (markFailed_fields i err (emit [EvAllow i (Some err)] s))
        as (-> & -> & ->).
      split_and!; try done. rewrite markFailed_trace. cbn [emit ls_trace].
      eexists. rewrite <- app_assoc. split; [done|].
      apply Forall_app. split; [repeat constructor|apply failedEvents_no_trip].
  - split_and!; try done. eexists. split; [done|]. repeat constructor.
Qed.

Lemma answered_more strategy a s s' evs :
  ls_resp s' = ls_resp s -> ls_panicked s' = ls_panicked s ->
  ls_trace s' = ls_trace s ++ evs -> Forall (λ ev, isRoundTrip ev = false) evs ->
  (forall err, ls_err s' = Some err ->
     ls_err s = Some err
     \/ exists j, 0 <= j /\ (ctxErr (ar_upstream a j) = Some err
                             \/ roundTrip (ar_upstream a j) = inr err)) ->
  answered strategy a s -> answered strategy a s'.
Proof.
  intros Hresp Hpanic Htrace Hevs Herr Hs Hp.
  rewrite Hpanic in Hp. destruct (Hs Hp) as [He Hr]. split.
  - intros err Herr'. destruct (Herr err Herr') as [Hold|Hnew]; [by apply He|done].
  - intros r. rewrite Hresp. intros Hr'.
    destruct (Hr r Hr') as (j & resp & pre & post & last & Ht & Hpost & Hc & Hrt & ->).
    exists j, resp, pre, (post ++ evs), last. split_and!; try done.
    + by rewrite Htrace, Ht, <- app_assoc.
    + by apply Forall_app.
Qed.

Lemma attemptStep_answered strategy a i s :
  0 <= i -> answered strategy a s -> answered strategy a (attemptStep strategy a i s).1.
Proof.
  intros Hi Hs. unfold attemptStep.
  destruct (retryGate_fields a i s) as (Hgr & Hge & Hgp & g & Hgt & Hg).
  assert (answered strategy a (retryGate a i s).1) as Hs1.
  { eapply (answered_more _ _ s); try done. rewrite Hge. eauto. }
  destruct (retryGate a i s) as [s1 [|]]; cbn [fst] in *; [|done].
  set (s2 := if attempts strategy <=? i + 1 then setLastAttempt s1 else s1).
  assert (ls_resp s2 = ls_resp s1 /\ ls_err s2 = ls_err s1
          /\ ls_panicked s2 = ls_panicked s1 /\ ls_trace s2 = ls_trace s1)
    as (Hr2 & He2 & Hp2 & Ht2) by (subst s2; by destruct (_ <=? _)).
  destruct (ctxErr (ar_upstream a i)) as [err|] eqn:Hctx; cbn [fst].
  { destruct (markFailed_fields i err (setErr (Some err) s2)) as (Hr & He & Hp).
    eapply (answered_more _ _ s1 _ (failedEvents i err)).
    - by rewrite Hr.
    - by rewrite Hp.
    - rewrite markFailed_trace. cbn. by rewrite Ht2.
    - apply failedEvents_no_trip.
    - rewrite He. cbn. intros err' [= <-]. right. exists i. eauto.
    - done. }
  destruct (roundTrip (ar_upstream a i)) as [resp|err] eqn:Hrt; cbn [fst].
  - destruct (negb (judgeRetryRequired (conditions strategy) resp)) eqn:Hjudge; cbn [fst].
    + apply negb_true_iff in Hjudge.
      destruct (markSuccess_fields i
                  (setLastAttempt
                     (setResp (Some resp)
                        (emit [EvRoundTrip i (ls_LastAttempt (setErr None s2))]
                           (setErr None s2))))) as (Hr & He & Hp).
      intros _. split.
      * intros err. by rewrite He.
      * intros r. rewrite Hr. cbn. intros [= <-].
        exists i, resp, (ls_trace s1), (successEvents i), (ls_LastAttempt s2).
        rewrite markSuccess_trace. cbn. rewrite Ht2, Hjudge, <- app_assoc.
        split_and!; try done. apply successEvents_no_trip.
    + apply negb_false_iff in Hjudge.
      destruct (resp_Body resp) as [body|] eqn:Hbody; cbn [fst]; [|done].
      destruct (markFailed_fields i (errors_New "assertion failed")
                  (setResp (Some resp)
                     (emit [EvRoundTrip i (ls_LastAttempt (setErr None s2))]
                        (setErr None s2)))) as (Hr & He & Hp).
      intros _. split.
      * intros err. cbn [ls_err setResp]. by rewrite He.
      * intros r. cbn [ls_resp setResp]. intros [= <-].
        exists i, resp, (ls_trace s1),
          (failedEvents i (errors_New "assertion failed")), (ls_LastAttempt s2).
        cbn [ls_trace setResp].
        rewrite markFailed_trace. cbn. rewrite Ht2, Hjudge, <- app_assoc.
        split_and!; try done. apply failedEvents_no_trip.
  - destruct (markFailed_fields i err
                (setErr (Some err)
                   (setResp None
                      (emit [EvRoundTrip i (ls_LastAttempt (setErr None s2))]
                         (setErr None s2))))) as (Hr & He & Hp).
    intros _. cbn [ls_err ls_resp emit]. split.
    + intros err'. rewrite He. cbn. intros [= <-]. exists i. eauto.
    + intros r. by rewrite Hr.
Qed.

Lemma attemptLoop_answered strategy a fuel i s :
  0 <= i -> answered strategy a s -> answered strategy a (attemptLoop strategy a fuel i s).
Proof.
  revert i s. induction fuel as [|fuel IH]; intros i s Hi Hs; cbn [attemptLoop]; [done|].
  pose proof (attemptStep_answered strategy a i s Hi Hs) as Hstep.
  destruct (attemptStep strategy a i s) as [s1 [|]]; cbn [fst] in *; [|done].
  apply IH; [lia|done].
Qed.

Lemma bufferedAttempts_answered e strategy a b body :
  answered strategy a (bufferedAttempts e strategy a b body).
Proof.
  apply attemptLoop_answered; [done|]. intros _. split; [done|]. by intros r.
Qed.

(** X16. What the client of a buffered request is answered with, when
    the handler does not panic.  When the body of the request cannot be
    read, the error mapper answers for the read error and no upstream call is
    made.  Otherwise either the error mapper answers, for the error of the
    request context or of the tripper at some index of the loop: never for a
    refusal of the breaker nor for a response that called for a retry.  Or
    the answer of the upstream to the last round trip is relayed, its body
    closed beforehand if it called for a retry; a request the breaker or the
    feature gate stops short of the next attempt is answered with what the
    attempt before it left. *)
Theorem client_gets_last_attempt (e : Endpoint) (strategy : retryStrategy) (b : B)
  (w : ResponseWriter) (a : Arrival) :
  e_Stream e = false ->
  sv_panicked (endpointHandler e strategy b w a).1 = false ->
  let sv := (endpointHandler e strategy b w a).1 in
  let req := setXFFHeader (ar_req a) in
  match ar_body a with
  | inr err =>
      sv_w sv = (writeError w req e err).2
      /\ countOf isRoundTrip (sv_trace sv) = 0%nat
  | inl _ =>
      (exists j err,
         0 <= j
         /\ (ctxErr (ar_upstream a j) = Some err \/ roundTrip (ar_upstream a j) = inr err)
         /\ sv_w sv = (writeError w req e err).2)
      \/ (exists j resp pre post last,
            sv_trace sv = pre ++ EvRoundTrip j last :: post
            /\ Forall (λ ev, isRoundTrip ev = false) post
            /\ ctxErr (ar_upstream a j) = None
            /\ roundTrip (ar_upstream a j) = inl resp
            /\ sv_w sv
               = (relay e a req
                    (if judgeRetryRequired (conditions strategy) resp
                     then Response_closeBody resp else resp) w).2)
  end.
Proof using Type.
  intros Hstream. cbv zeta. unfold endpointHandler. rewrite Hstream.
  destruct (ar_body a) as [payload|err].
  2:{ intros _.
      destruct (writeError_events w (setXFFHeader (ar_req a)) e err) as [Hq _].
      destruct (writeError _ _ _ _) as [evs w'].
      cbn [fst snd served sv_trace sv_w emit ls_trace startState app] in *.
      split; [done|]. rewrite countOf_app.
      rewrite (proj2 (quiet_counts _ Hq)). by rewrite countOf_cons, countOf_nil. }
  pose proof (bufferedAttempts_answered e strategy a b payload) as Hs.
  destruct (ls_panicked (bufferedAttempts e strategy a b payload)) eqn:Hp; [done|].
  destruct (Hs Hp) as [He Hr].
  destruct (ls_err _) as [err|].
  - intros _. left. destruct (He err eq_refl) as (j & Hj & Herr).
    exists j, err. destruct (writeError _ _ _ _) as [evs w']. by split_and!.
  - destruct (ls_resp _) as [r|]; [|done]. intros _. right.
    destruct (Hr r eq_refl) as (j & resp & pre & post & last & Ht & Hpost & Hc & Hrt & ->).
    pose proof (relay_events e a (setXFFHeader (ar_req a))
                  (if judgeRetryRequired (conditions strategy) resp
                   then Response_closeBody resp else resp) w) as [Hq _].
    exists j, resp, pre,
      (post ++ (relay e a (setXFFHeader (ar_req a))
                  (if judgeRetryRequired (conditions strategy) resp
                   then Response_closeBody resp else resp) w).1
            ++ [EvHandleLatency]), last.
    set (relayed := relay e a (setXFFHeader (ar_req a))
                      (if judgeRetryRequired (conditions strategy) resp
                       then Response_closeBody resp else resp) w) in *.
    destruct relayed as [evs w'].
    cbn [fst snd served sv_trace sv_w emit ls_trace] in *.
    split_and!; try done.
    + by rewrite Ht, <- !app_assoc.
    + rewrite !Forall_app. split_and!; [done| |repeat constructor].
      eapply Forall_impl; [done|]. by intros [].
Qed.

End Dataplane.

(** ** The stream body tracker *)

Import MetaStream.












Lemma step_bodies s a : (length (doneOnce s) <= length (doneOnce (step s a)))%nat.
Proof.
  destruct a as [|b|t|]; simpl.
  - rewrite length_app. simpl. lia.
  - unfold closeBegin. destruct (doneOnce s !! b) as [[|]|]; try done.
    simpl. by rewrite length_insert.
  - unfold closeLoad. by destruct (inFlight s !! t).
  - unfold closeEnd. destruct (notified s); [done|].
    unfold finishOnce_Do. simpl. by destruct (finishOnce _).
Qed.

Lemma run_snoc acts a s : run (acts ++ [a]) s = step (run acts s) a.
Proof. unfold run. by rewrite fold_left_app. Qed.

Lemma run_bodies acts1 acts2 s :
  (length (doneOnce (run acts1 s)) <= length (doneOnce (run (acts1 ++ acts2) s)))%nat.
Proof.
  induction acts2 as [|a acts2 IH] using rev_ind; [by rewrite app_nil_r|].
  rewrite app_assoc, run_snoc.
  pose proof (step_bodies (run (acts1 ++ acts2) s) a). lia.
Qed.



(** [Close] run without interruption is its three steps run back to back,
    when no other [Close] stands before [finishOnce.Do]. *)
Lemma Close_three_steps b s :
  notified s = 0%nat ->
  Close b s = closeEnd (closeLoad (length (inFlight s)) (closeBegin b s)).
Proof.
  intros Hn. unfold Close, closeBegin, closeLoad, closeEnd, notifyBodyClosed.
  destruct (doneOnce s !! b) as [[|]|] eqn:Hb; simpl.
  - rewrite lookup_ge_None_2 by done. by rewrite Hn.
  - rewrite lookup_app_r, Nat.sub_diag by done. simpl.
    assert (Hdel : delete (length (inFlight s))
                     (inFlight s ++ [AddInt32 (closedCount (ctxValue s)) 1])
                   = inFlight s).
    { clear. induction (inFlight s) as [|x l IH]; simpl; [done|]. by rewrite IH. }
    rewrite Hdel, Hn.
    destruct (loadExpected _ _); [|by destruct s].
    unfold finishOnce_Do, closedBodies. simpl. by destruct (finishOnce _).
  - rewrite lookup_ge_None_2 by done. by rewrite Hn.
Qed.



(** The hooks run after, not at, the moment every registered body was
    closed: a body wrapped between the load of [bodiesCount] and
    [finishOnce.Do] is still open when they run. *)
Example onFinish_with_open_body :
  onFinishRuns (run [ActWrap; ActCloseBegin 0; ActCloseLoad 0; ActWrap; ActCloseEnd]
                  initStream)
  = [(1%nat, 2%nat)].
Proof. reflexivity. Qed.

(** ** The model at work *)

Local Abbreviation handle :=
  (endpointHandler Sample.SplitHostPort Sample.ToGRPCCode Sample.Itoa
     Sample.judgeRetryRequired Sample.isNoBufferingResponse).

Local Abbreviation update :=
  (Update sre.NewBreaker Sample.prepareRetryStrategy Sample.clientFactory
     Sample.middlewareFactory Sample.router_Handle).

Local Abbreviation serve :=
  (serveAll Sample.SplitHostPort Sample.ToGRPCCode Sample.Itoa
     Sample.judgeRetryRequired Sample.isNoBufferingResponse).

(** The happy path of the spec: status, header and body reach the client,
    and the client address is put in the forwarded-for header. *)
Example happy_path :
  let sv := (handle (Sample.endpoint "/foo/bar") (Sample.strategy 1)
               (sre.NewBreaker (8 # 10) 10) newResponseWriter
               (Sample.always 200 Sample.oops)).1 in
  w_statusCode (sv_w sv) = Some 200
  /\ w_Header (sv_w sv) !! "Testkey" = Some (Some ["testValue"])
  /\ w_body (sv_w sv) = Sample.oops
  /\ req_Header (sv_req sv) !! "X-Forwarded-For" = Some (Some ["10.0.0.7"])
  /\ sv_LastAttempt sv = true.
Proof. vm_compute. done. Qed.

(** Prior forwarded-for values are folded into one. *)
Example forwarded_for_folds :
  req_Header
    (setXFFHeader Sample.SplitHostPort
       (Sample.request "10.0.0.7:4242" {[ "X-Forwarded-For" := Some ["1.1.1.1"; "2.2.2.2"] ]}))
  !! "X-Forwarded-For" = Some (Some ["1.1.1.1, 2.2.2.2, 10.0.0.7"]).
Proof. vm_compute. done. Qed.

(** Scenario 3 of the spec: a 500 followed by a 200 reaches the client as
    the 200 alone, with one retry event labelled "true". *)
Example retry_to_success :
  let sv := (handle (Sample.endpoint "/retryable") (Sample.strategy 3)
               (sre.NewBreaker (8 # 10) 10) newResponseWriter
               (Sample.flaky Sample.oops)).1 in
  w_statusCode (sv_w sv) = Some 200
  /\ w_body (sv_w sv) = Sample.oops
  /\ filter (λ ev, isHandleRetry ev = true) (sv_trace sv) = [EvHandleRetry 1 "true"]
  /\ filter (λ ev, isRoundTrip ev = true) (sv_trace sv)
     = [EvRoundTrip 0 false; EvRoundTrip 1 false].
Proof. vm_compute. done. Qed.

(** C2, at the input where the code departs from it: one attempt, the
    upstream answers 500 with the body "oops" and 500 is a retry condition.
    The handler makes the one round trip and relays status and header, but
    it has closed the body before it copies it: no byte of "oops" reaches
    the client, and the selector is told of a read error. *)
Theorem retriable_last_response_loses_body :
  let sv := (handle (Sample.endpoint "/retryable") (Sample.strategy 1)
               (sre.NewBreaker (8 # 10) 10) newResponseWriter
               (Sample.always 500 Sample.oops)).1 in
  countOf isRoundTrip (sv_trace sv) = 1%nat
  /\ w_statusCode (sv_w sv) = Some 500
  /\ w_Header (sv_w sv) !! "Testkey" = Some (Some ["testValue"])
  /\ w_body (sv_w sv) = []
  /\ Sample.oops <> []
  /\ filter (λ ev, isDoneFunc ev = true) (sv_trace sv)
     = [EvDoneFunc {| di_Err := Some (errors_New "http: read on closed response body");
                      di_ReplyMD := None |}].
Proof. vm_compute. split_and!; done. Qed.

(** The same request against a body whose [Close] does nothing, as in the
    tests of the package: the body is relayed. *)
Example retriable_last_response_nop_closer :
  let a := Sample.arrival
             (λ _, Sample.answer (inl (Sample.response 500 (Some (Sample.nopBody Sample.oops))))) in
  let sv := (handle (Sample.endpoint "/retryable") (Sample.strategy 1)
               (sre.NewBreaker (8 # 10) 10) newResponseWriter a).1 in
  w_statusCode (sv_w sv) = Some 500 /\ w_body (sv_w sv) = Sample.oops.
Proof. vm_compute. done. Qed.

(** Stream mode: the reverse proxy reaches the transport and calls the
    response modifier; the selector hears of it once and the flag is set. *)
Example stream_passthrough :
  let a := {| ar_req := Sample.request "10.0.0.7:4242" ∅; ar_body := inl [];
              ar_upstream := λ _, Sample.answer (inr (errors_New "unused"));
              ar_copyFault := None;
              ar_stream := {| sr_transport := true;
                              sr_hooks := [HookModifyResponse (Sample.response 200 None)];
                              sr_abort := false |};
              ar_flusher := true |} in
  let sv := (handle Sample.streamEndpoint (Sample.strategy 1)
               (sre.NewBreaker (8 # 10) 10) newResponseWriter a).1 in
  countOf isDoneFunc (sv_trace sv) = 1%nat
  /\ filter (λ ev, isRoundTrip ev = true) (sv_trace sv) = [EvRoundTrip 0 true]
  /\ sv_LastAttempt sv = true.
Proof. vm_compute. done. Qed.

(** A retry-eligible response without a body: closing the body panics. *)
Example retriable_bodiless_panics :
  let sv := (handle (Sample.endpoint "/retryable") (Sample.strategy 1)
               (sre.NewBreaker (8 # 10) 10) newResponseWriter
               Sample.bodiless500).1 in
  sv_panicked sv = true /\ w_statusCode (sv_w sv) = None.
Proof. vm_compute. done. Qed.

(** The gRPC scenario of the spec: a deadline exceeded on a gRPC endpoint
    reaches the client as HTTP 200 with Grpc-Status 4. *)
Lemma writeError_mapping_witness :
  let w' := (writeError Sample.ToGRPCCode Sample.Itoa newResponseWriter
               (Sample.request "10.0.0.7:4242" ∅) Sample.grpcEndpoint
               (Sentinel context_DeadlineExceeded)).2 in
  w_statusCode newResponseWriter = None
  /\ w_Header w' !! "Grpc-Status" = Some (Some ["4"])
  /\ w_Header w' !! "Grpc-Message" = Some (Some ["context deadline exceeded"])
  /\ w_statusCode w' = Some 200.
Proof.
  split; [reflexivity|].
  destruct (writeError_mapping Sample.ToGRPCCode Sample.Itoa newResponseWriter
              (Sample.request "10.0.0.7:4242" ∅) Sample.grpcEndpoint
              (Sentinel context_DeadlineExceeded) eq_refl)
    as (_ & _ & _ & Hstatus & Hmessage & Hcode).
  split; [exact Hstatus|]. split; [exact Hmessage|exact Hcode].
Defined.

(** Two endpoints built by one [Update]: two breaker cells. *)
Lemma retry_breaker_per_endpoint_witness :
  let p' := (update Sample.twoEndpoints New).2 in
  let router := default [] (p_router p') in
  update Sample.twoEndpoints New = (None, p')
  /\ p_router p' = Some router
  /\ forall r1 r2,
       router !! 0%nat = Some r1 -> router !! 1%nat = Some r2 ->
       h_retryBreaker (rt_handler r1) <> h_retryBreaker (rt_handler r2).
Proof.
  split; [reflexivity|]. split; [reflexivity|].
  intros r1 r2 H1 H2.
  exact (proj1 (proj2 (retry_breaker_per_endpoint
                         sre.NewBreaker Sample.SplitHostPort Sample.ToGRPCCode
                         Sample.Itoa Sample.judgeRetryRequired
                         Sample.isNoBufferingResponse Sample.prepareRetryStrategy
                         Sample.clientFactory Sample.middlewareFactory
                         Sample.router_Handle Sample.twoEndpoints New
                         (update Sample.twoEndpoints New).2
                         (default [] (p_router (update Sample.twoEndpoints New).2))
                         eq_refl eq_refl)
                       0%nat 1%nat r1 r2 H1 H2 ltac:(discriminate))).
Defined.

(** C1, as stated, fails.  Five requests through the first of two
    endpoints, each retried twice against an upstream that keeps answering
    500, trip the breaker of that endpoint; the breaker of the second
    endpoint is as [Update] made it and grants the retry the first one
    refuses. *)
Lemma retry_breaker_not_shared :
  exists r1 r2 p',
    update Sample.twoEndpoints New = (None, p')
    /\ p_router p' = Some [r1; r2]
    /\ let q := serve (rt_handler r1) (replicate 5 (Sample.always 500 Sample.oops)) p' in
       ((λ b, Allow b 0) <$> p_breakers q !! h_retryBreaker (rt_handler r1))
       = Some (Some (Sentinel circuitbreaker_ErrNotAllowed))
       /\ ((λ b, Allow b 0) <$> p_breakers q !! h_retryBreaker (rt_handler r2))
          = Some None
       /\ p_breakers q !! h_retryBreaker (rt_handler r2)
          = p_breakers p' !! h_retryBreaker (rt_handler r2).
Proof.
  eexists _, _, _. split; [vm_compute; reflexivity|]. split; [reflexivity|].
  vm_compute. done.
Qed.

(** Two attempts are configured and the first round trip fails; then the
    breaker refuses the retry, or the deadline of the request has passed.
    The request makes two attempts, the second without a round trip, and
    emits one retry event. *)
Example refused_retry_is_an_attempt :
  let e := Sample.endpoint "/retryable" in
  let tripped := (handle e (Sample.strategy 2) Sample.trippedBreaker newResponseWriter
                    Sample.unreachable).1 in
  let expired := (handle e (Sample.strategy 2) (sre.NewBreaker (8 # 10) 10)
                    newResponseWriter Sample.expiring).1 in
  (attemptsMade Sample.judgeRetryRequired e (Sample.strategy 2) Sample.unreachable
     Sample.trippedBreaker = 2%nat
   /\ countOf isRoundTrip (sv_trace tripped) = 1%nat
   /\ filter (λ ev, isHandleRetry ev = true) (sv_trace tripped)
      = [EvHandleRetry 1 "breaker"])
  /\ (attemptsMade Sample.judgeRetryRequired e (Sample.strategy 2) Sample.expiring
        (sre.NewBreaker (8 # 10) 10) = 2%nat
      /\ countOf isRoundTrip (sv_trace expired) = 1%nat
      /\ filter (λ ev, isHandleRetry ev = true) (sv_trace expired)
         = [EvHandleRetry 1 "false"]).
Proof. vm_compute. done. Qed.

(** C8, as stated, fails.  Three attempts are configured and the first
    round trip succeeds: the only upstream call of the request, hence its
    last, ran with [LastAttempt] unset. *)
Lemma last_call_without_lastAttempt :
  let sv := (handle (Sample.endpoint "/foo/bar") (Sample.strategy 3)
               (sre.NewBreaker (8 # 10) 10) newResponseWriter
               (Sample.always 200 Sample.oops)).1 in
  filter (λ ev, isRoundTrip ev = true) (sv_trace sv) = [EvRoundTrip 0 false]
  /\ w_statusCode (sv_w sv) = Some 200.
Proof. vm_compute. done. Qed.

(** C9, as stated, fails.  Two attempts are configured and 500 calls for
    a retry.  The upstream answers the first round trip with 500 and a body;
    before the second one the deadline of the request has passed.  The
    request reached the upstream and was answered by it, the client gets
    504, and the handler has not called [DoneFunc]. *)
Lemma upstream_reached_without_doneFunc :
  let sv := (handle (Sample.endpoint "/retryable") (Sample.strategy 2)
               (sre.NewBreaker (8 # 10) 10) newResponseWriter
               Sample.lateDeadline).1 in
  roundTrip (ar_upstream Sample.lateDeadline 0)
  = inl (Sample.response 500 (Some (Sample.transportBody Sample.oops)))
  /\ filter (λ ev, isRoundTrip ev = true) (sv_trace sv) = [EvRoundTrip 0 false]
  /\ countOf isDoneFunc (sv_trace sv) = 0%nat
  /\ sv_panicked sv = false
  /\ w_statusCode (sv_w sv) = Some 504.
Proof. vm_compute. done. Qed.

(** The same happens without an answer of the upstream, when the only
    round trip fails, and with an answer that has no body. *)
Example failed_round_trip_without_doneFunc :
  let failed := (handle (Sample.endpoint "/foo/bar") (Sample.strategy 1)
                   (sre.NewBreaker (8 # 10) 10) newResponseWriter
                   Sample.unreachable).1 in
  let bodiless := (handle (Sample.endpoint "/foo/bar") (Sample.strategy 1)
                     (sre.NewBreaker (8 # 10) 10) newResponseWriter
                     Sample.bodiless).1 in
  (countOf isRoundTrip (sv_trace failed) = 1%nat
   /\ countOf isDoneFunc (sv_trace failed) = 0%nat
   /\ w_statusCode (sv_w failed) = Some 502)
  /\ (countOf isRoundTrip (sv_trace bodiless) = 1%nat
      /\ countOf isDoneFunc (sv_trace bodiless) = 0%nat
      /\ w_statusCode (sv_w bodiless) = Some 200).
Proof. vm_compute. done. Qed.

(** The count of registered bodies is the one at the moment of the close:
    when the request body is closed before the response body is wrapped,
    the hooks run then, and the later close of the response body does not
    run them again. *)
Example onFinish_before_late_body :
  onFinishRuns (Close 1 (WrapBody (Close 0 (WrapBody initStream)))) = [(1%nat, 1%nat)].
Proof. reflexivity. Qed.

(** * The namespace middleware *)

Section NamespaceFacts.

Import Namespace.

Lemma whitelist_lookup (l : list string) (m : gmap string bool) (ns : string) :
  fold_left (λ m ns, <[ns := true]> m) l m !! ns
  = if bool_decide (ns ∈ l) then Some true else m !! ns.
Proof.
  revert m. induction l as [|x l IH]; intros m; cbn [fold_left]; [done|].
  rewrite IH. destruct (decide (ns = x)) as [->|Hne].
  - rewrite lookup_insert_eq, (bool_decide_true (x ∈ x :: l)) by left.
    by destruct (bool_decide (x ∈ l)).
  - rewrite lookup_insert_ne by done.
    destruct (bool_decide_reflect (ns ∈ l)) as [Hin|Hin].
    + by rewrite bool_decide_true by (by right).
    + rewrite bool_decide_false; [done|].
      by intros [?|?]%elem_of_cons.
Qed.

Lemma whitelist_listed (l : list string) (ns : string) :
  default false (fold_left (λ m ns, <[ns := true]> m) l (∅ : gmap string bool) !! ns)
  = bool_decide (ns ∈ l).
Proof. rewrite whitelist_lookup, lookup_empty. by destruct (bool_decide (ns ∈ l)). Qed.

(** What [Middleware] hands to the closure it returns. *)
Lemma Middleware_built W decoded b :
  Middleware W decoded = inl b ->
  (forall ns, default false (whitelistMap b !! ns)
              = bool_decide (ns ∈ o_AllowedNamespaces (options b)))
  /\ (is_Some (httpClient b) -> is_Some (o_ValidateApi (options b)))
  /\ (validation b = ValidateAPI -> is_Some (httpClient b)).
Proof.
  unfold Middleware.
  destruct (match decoded with Some r => r | None => inl noOptions end) as [o|err];
    [|done].
  destruct (o_ValidateApi o) as [api|] eqn:Hapi;
    repeat case_bool_decide; try done;
    intros [= <-]; cbn; rewrite ?Hapi;
    (split_and!; [apply whitelist_listed|..]); try done; eauto.
Qed.

Lemma validateNamespaceViaAPI_spec W client ns api :
  let r := validateNamespaceViaAPI W client ns (Some api) in
  let successCodes :=
    if (length (api_SuccessStatusCodes api) =? 0)%nat then [200]
    else api_SuccessStatusCodes api in
  (length r.1 <= 1)%nat
  /\ (forall req,
        req ∈ r.1 ->
        rq_Header req !! "Content-Type" = Some (Some ["application/json"])
        /\ rq_Method req = (if bool_decide (api_Method api = "") then "POST"
                            else api_Method api)
        /\ rq_Url req = api_Url api)
  /\ match r.2 with
     | Allowed =>
         exists req statusCode,
           r.1 = [req] /\ client_Do W client req = inl statusCode
           /\ MetaStream.wrap32 statusCode ∈ successCodes
     | Denied (ErrorForbidden _) =>
         exists req statusCode,
           r.1 = [req] /\ client_Do W client req = inl statusCode
           /\ MetaStream.wrap32 statusCode ∉ successCodes
     | Denied (ErrorInternal _) =>
         r.1 = [] \/ exists req err, r.1 = [req] /\ client_Do W client req = inr err
     | NilDereference => False
     end.
Proof.
  cbv zeta. unfold validateNamespaceViaAPI.
  set (body := if bool_decide (api_BodyTemplate api = "") then _ else _).
  assert (forall err, body = inr err -> exists m, err = ErrorInternal m) as Hbody.
  { subst body. intros err. case_bool_decide; [done|].
    destruct (template_Parse W _); [intros [= <-]; eauto|].
    destruct (template_Execute W _ _); [done|intros [= <-]; eauto]. }
  destruct body as [body|err].
  2:{ destruct (Hbody err eq_refl) as [m ->]. cbn.
      split_and!; [lia|by intros req Hreq%elem_of_nil|by left]. }
  clear Hbody.
  destruct (http_NewRequest W _ _) as [err|].
  { cbn. split_and!; [lia|by intros req Hreq%elem_of_nil|by left]. }
  set (req := {| rq_Method := _; rq_Url := _; rq_Body := _; rq_Header := _ |}).
  assert (forall req', req' ∈ [req] ->
            rq_Header req' !! "Content-Type" = Some (Some ["application/json"])
            /\ rq_Method req' = (if bool_decide (api_Method api = "") then "POST"
                                 else api_Method api)
            /\ rq_Url req' = api_Url api) as Hreq.
  { intros req' ->%list_elem_of_singleton. subst req. cbn [rq_Header rq_Method rq_Url].
    split_and!; [|done|done]. unfold Header_Set. by rewrite lookup_insert_eq. }
  destruct (client_Do W client req) as [statusCode|err] eqn:Hdo.
  - destruct (bool_decide (MetaStream.wrap32 statusCode ∈ _)) eqn:Hok;
      cbn [negb fst snd length].
    + apply bool_decide_eq_true in Hok. split_and!; [lia|done|]. eauto.
    + apply bool_decide_eq_false in Hok. split_and!; [lia|done|]. eauto.
  - cbn [fst snd length]. split_and!; [lia|done|]. right. eauto.
Qed.

(** X10. One validation through the API.  At most one request is sent;
    it goes to the configured URL with the configured method, POST when
    none is configured, with content type [application/json] whatever the
    configured headers say, and with the rendered template as body, if there
    is a template.  The namespace is allowed exactly when the API answered
    with one of the configured success codes, 200 when none is configured,
    and an answer with another code gives a forbidden error that names the
    code.  A template that does not parse, a template that does not execute
    and a request that cannot be built give an internal error without any
    request being sent; an API that cannot be reached gives an internal
    error; each error carries the text of its cause. *)
Theorem validation_call (W : World) (client : Z) (ns : string) (api : ValidateApi) :
  let r := validateNamespaceViaAPI W client ns (Some api) in
  let successCodes :=
    if (length (api_SuccessStatusCodes api) =? 0)%nat then [200]
    else api_SuccessStatusCodes api in
  let tpl := api_BodyTemplate api in
  let method := if bool_decide (api_Method api = "") then "POST" else api_Method api in
  (length r.1 <= 1)%nat
  /\ (forall req,
        req ∈ r.1 ->
        rq_Header req !! "Content-Type" = Some (Some ["application/json"])
        /\ rq_Method req = method
        /\ rq_Url req = api_Url api
        /\ if bool_decide (tpl = "") then rq_Body req = None
           else exists buf, template_Execute W tpl ns = inl buf /\ rq_Body req = Some buf)
  /\ match r.2 with
     | Allowed =>
         exists req statusCode,
           r.1 = [req] /\ client_Do W client req = inl statusCode
           /\ MetaStream.wrap32 statusCode ∈ successCodes
     | Denied (ErrorForbidden _) =>
         exists req statusCode,
           r.1 = [req] /\ client_Do W client req = inl statusCode
           /\ MetaStream.wrap32 statusCode ∉ successCodes
     | Denied (ErrorInternal _) =>
         r.1 = [] \/ exists req err, r.1 = [req] /\ client_Do W client req = inr err
     | NilDereference => False
     end
  /\ (tpl <> "" ->
      forall err,
        template_Parse W tpl = Some err ->
        r = ([], Denied (ErrorInternal ("failed to parse body template: " +:+ Error err))))
  /\ (tpl <> "" -> template_Parse W tpl = None ->
      forall err,
        template_Execute W tpl ns = inr err ->
        r = ([], Denied (ErrorInternal
                           ("failed to execute body template: " +:+ Error err))))
  /\ (tpl = "" \/ (template_Parse W tpl = None
                   /\ exists buf, template_Execute W tpl ns = inl buf) ->
      forall err,
        http_NewRequest W method (api_Url api) = Some err ->
        r = ([], Denied (ErrorInternal
                           ("failed to create validation request: " +:+ Error err))))
  /\ (forall req err,
        r.1 = [req] -> client_Do W client req = inr err ->
        r.2 = Denied (ErrorInternal ("failed to validate namespace: " +:+ Error err)))
  /\ (forall req statusCode,
        r.1 = [req] -> client_Do W client req = inl statusCode ->
        r.2 = if bool_decide (MetaStream.wrap32 statusCode ∈ successCodes)
              then Allowed
              else Denied (ErrorForbidden
                             ("namespace validation failed: status code "
                              +:+ Itoa W statusCode))).
Proof.
  pose proof (validateNamespaceViaAPI_spec W client ns api) as (Hone & Hreq & Hverdict).
  cbv zeta in *.
  split; [exact Hone|]. split; [|split; [exact Hverdict|]].
  - intros req Hin. destruct (Hreq req Hin) as (Hh & Hm & Hu).
    split_and!; [done|done|done|]. clear Hone Hreq Hverdict Hh Hm Hu.
    revert Hin. unfold validateNamespaceViaAPI.
    destruct (decide (api_BodyTemplate api = "")) as [Htpl|Htpl];
      [rewrite !(bool_decide_true (api_BodyTemplate api = "")) by done
      |rewrite !(bool_decide_false (api_BodyTemplate api = "")) by done].
    + destruct (http_NewRequest W _ _); [by intros ?%elem_of_nil|].
      destruct (client_Do W client _) as [code|err]; [destruct (negb _)|];
        by intros ->%list_elem_of_singleton.
    + destruct (template_Parse W _); [by intros ?%elem_of_nil|].
      destruct (template_Execute W _ _) as [buf|err]; [|by intros ?%elem_of_nil].
      destruct (http_NewRequest W _ _); [by intros ?%elem_of_nil|].
      destruct (client_Do W client _) as [code|err]; [destruct (negb _)|];
        intros ->%list_elem_of_singleton; by exists buf.
  - clear Hone Hreq Hverdict. unfold validateNamespaceViaAPI. split_and!.
    + intros Htpl err Hparse.
      rewrite (bool_decide_false (api_BodyTemplate api = "")) by done.
      by rewrite Hparse.
    + intros Htpl Hparse err Hexec.
      rewrite (bool_decide_false (api_BodyTemplate api = "")) by done.
      by rewrite Hparse, Hexec.
    + intros Hbody err Hnew.
      destruct Hbody as [Htpl|[Hparse [buf Hexec]]].
      * rewrite (bool_decide_true (api_BodyTemplate api = "")) by done. by rewrite Hnew.
      * destruct (decide (api_BodyTemplate api = "")) as [Htpl|Htpl].
        -- rewrite (bool_decide_true (api_BodyTemplate api = "")) by done.
           by rewrite Hnew.
        -- rewrite (bool_decide_false (api_BodyTemplate api = "")) by done.
           by rewrite Hparse, Hexec, Hnew.
    + intros req err.
      destruct (decide (api_BodyTemplate api = "")) as [Htpl|Htpl];
        [rewrite (bool_decide_true (api_BodyTemplate api = "")) by done
        |rewrite (bool_decide_false (api_BodyTemplate api = "")) by done].
      * destruct (http_NewRequest W _ _); [done|].
        destruct (client_Do W client _) as [code|err'] eqn:Hdo; [destruct (negb _)|];
          cbn [fst snd]; intros [= <-] Hdo'; congruence.
      * destruct (template_Parse W _); [done|].
        destruct (template_Execute W _ _) as [buf|err']; [|done].
        destruct (http_NewRequest W _ _); [done|].
        destruct (client_Do W client _) as [code|err''] eqn:Hdo; [destruct (negb _)|];
          cbn [fst snd]; intros [= <-] Hdo'; congruence.
    + intros req statusCode.
      destruct (decide (api_BodyTemplate api = "")) as [Htpl|Htpl];
        [rewrite (bool_decide_true (api_BodyTemplate api = "")) by done
        |rewrite (bool_decide_false (api_BodyTemplate api = "")) by done].
      * destruct (http_NewRequest W _ _); [done|].
        destruct (client_Do W client _) as [code|err'] eqn:Hdo;
          [|cbn [fst snd]; intros [= <-] Hdo'; congruence].
        destruct (bool_decide (MetaStream.wrap32 code ∈ _)) eqn:Hok;
          cbn [negb fst snd]; intros [= <-] Hdo'; rewrite Hdo in Hdo';
          injection Hdo' as <-; by rewrite Hok.
      * destruct (template_Parse W _); [done|].
        destruct (template_Execute W _ _) as [buf|err']; [|done].
        destruct (http_NewRequest W _ _); [done|].
        destruct (client_Do W client _) as [code|err''] eqn:Hdo;
          [|cbn [fst snd]; intros [= <-] Hdo'; congruence].
        destruct (bool_decide (MetaStream.wrap32 code ∈ _)) eqn:Hok;
          cbn [negb fst snd]; intros [= <-] Hdo'; rewrite Hdo in Hdo';
          injection Hdo' as <-; by rewrite Hok.
Qed.

(** X11. Which requests the namespace middleware forwards.  A request
    without namespace is forwarded unless a namespace is required.  A
    request with a namespace is forwarded in whitelist mode and in the
    default mode exactly when the namespace is on the whitelist, and in API
    mode exactly when the API allows it.  In the default mode the API is
    asked about a namespace that is not on the whitelist, and whatever it
    answers the request is rejected.  A forwarded request gets the answer of
    the next tripper; a rejected one gets the forbidden response made from an
    error of package [merr], and the next tripper is not called.  The
    middleware never meets a nil API configuration. *)
Theorem namespace_decision (W : World) (decoded : option (Options + error)) :
  match Middleware W decoded with
  | inr _ => True
  | inl b =>
      forall next req,
        let ns := Header_Get (req_Header req) (CanonicalHeaderKey W (namespaceKey b)) in
        let listed := bool_decide (ns ∈ o_AllowedNamespaces (options b)) in
        let api :=
          validateNamespaceViaAPI W (default 0 (httpClient b)) ns
            (o_ValidateApi (options b)) in
        let admitted :=
          if bool_decide (ns = "") then negb (o_Required (options b))
          else
            match validation b with
            | ValidateAPI => match api.2 with Allowed => true | _ => false end
            | _ => listed
            end in
        (RoundTrip W b next req).1
        = (if bool_decide (ns = "") then []
           else
             match validation b with
             | ValidateWhitelist => []
             | ValidateAPI => api.1
             | ValidateDefault =>
                 if listed then []
                 else match httpClient b with Some _ => api.1 | None => [] end
             end)
        /\ match (RoundTrip W b next req).2 with
           | Forwarded answer => admitted = true /\ answer = next req
           | Rejected answer =>
               admitted = false /\ exists err, answer = newForbiddenResponse W err
           | Panicked => False
           end
  end.
Proof.
  destruct (Middleware W decoded) as [b|] eqn:Hb; [|done].
  destruct (Middleware_built W decoded b Hb) as (Hlisted & Hclient & Hmode).
  intros next req. cbv zeta. unfold RoundTrip.
  set (ns := Header_Get _ _).
  case_bool_decide as Hns.
  { destruct (o_Required (options b)); cbn; eauto. }
  rewrite andb_false_r. cbn [negb].
  unfold validationFunc. rewrite Hlisted.
  destruct (validation b) eqn:Hv.
  - destruct (bool_decide (ns ∈ _)); cbn; eauto.
  - destruct (Hmode eq_refl) as [client Hc]. rewrite Hc.
    change (default 0 (Some client)) with client.
    destruct (Hclient ltac:(eauto)) as [api Hapi]. rewrite Hapi.
    pose proof (validateNamespaceViaAPI_spec W client ns api) as (_ & _ & Hr).
    destruct (validateNamespaceViaAPI W client ns (Some api)) as [calls [|err|]];
      cbn in *; try done; eauto.
  - destruct (bool_decide (ns ∈ _)) eqn:Hin.
    + assert ((0 <? size (whitelistMap b))%nat = true) as ->.
      { apply Nat.ltb_lt. specialize (Hlisted ns). rewrite Hin in Hlisted.
        destruct (whitelistMap b !! ns) as [v|] eqn:Hl; [|done].
        destruct (decide (size (whitelistMap b) = 0%nat)) as [H0|]; [|lia].
        apply map_size_empty_iff in H0. by rewrite H0, lookup_empty in Hl. }
      cbn. eauto.
    + rewrite andb_false_r.
      destruct (httpClient b) as [client|] eqn:Hc; [|cbn; eauto].
      change (default 0 (Some client)) with client.
      destruct (Hclient ltac:(eauto)) as [api Hapi]. rewrite Hapi.
      pose proof (validateNamespaceViaAPI_spec W client ns api) as (_ & _ & Hr).
      destruct (validateNamespaceViaAPI W client ns (Some api)) as [calls [|err|]];
        cbn in *; try done; eauto.
Qed.

End NamespaceFacts.

(** * The discovery registry *)

Section DiscoveryFacts.

Import Discovery.

Context {Impl : Type}.

(** X12. [Create] looks the factory up under the name of the
    configuration: a factory registered under that name replaces any
    registered before, and one registered under another name changes
    nothing.  Without a configuration there is neither an implementation nor
    an error.  With one, an implementation is returned only when a factory is
    registered under its name and succeeds; a configuration with an empty
    name is an error also when the discovery is not required, unless a
    factory was registered under the empty name. *)
Theorem Register_Create (d : discoveryRegistry (Impl := Impl)) (name : string)
  (factory : Factory) (cfg : Config) :
  Create (Register name factory d) (Some cfg)
  = (if bool_decide (name = d_Name cfg)
     then
       if d_Required cfg && bool_decide (d_Name cfg = "")
       then (None, Some (errors_New "discovery is required"))
       else
         match factory cfg with
         | inl impl => (Some impl, None)
         | inr err => (None, Some (errors_New ("create discovery error: " +:+ Error err)))
         end
     else Create d (Some cfg))
  /\ Create d None = (None, None)
  /\ match Create d (Some cfg) with
     | (Some impl, None) =>
         exists f, d !! d_Name cfg = Some f /\ f cfg = inl impl
                   /\ (d_Required cfg = false \/ d_Name cfg <> "")
     | (None, Some _) =>
         (d_Name cfg = "" -> d_Required cfg = false -> d !! "" = None
                             \/ exists f err, d !! "" = Some f /\ f cfg = inr err)
     | _ => False
     end.
Proof.
  unfold Create, Register, discoveryRegistry, Factory in *. split_and!.
  - destruct (decide (name = d_Name cfg)) as [->|Hne].
    + rewrite (bool_decide_true (d_Name cfg = d_Name cfg)) by done.
      by rewrite lookup_insert_eq.
    + rewrite (bool_decide_false (name = d_Name cfg)) by done.
      by rewrite lookup_insert_ne.
  - done.
  - destruct (d_Required cfg) eqn:Hreq; cbn [andb].
    + case_bool_decide as Hempty; [done|].
      destruct (d !! d_Name cfg) as [f|] eqn:Hf; [|done].
      destruct (f cfg) as [impl|err] eqn:Himpl; [eauto 6|done].
    + destruct (d !! d_Name cfg) as [f|] eqn:Hf.
      * destruct (f cfg) as [impl|err] eqn:Himpl; [eauto 6|].
        intros Hempty _. rewrite Hempty in Hf. eauto.
      * intros Hempty _. rewrite Hempty in Hf. eauto.
Qed.

End DiscoveryFacts.

(** * The control service *)

Section ControlFacts.

Import Control.

Context {Gateway PriorityConfig : Type}.
Variable marshalGateway : Gateway -> string + error.
Variable marshalPriorityConfig : PriorityConfig -> string + error.
Variable TrimSpace : string -> string.
Variable Ext : string -> string.

Local Abbreviation call' := (call marshalGateway marshalPriorityConfig TrimSpace Ext).
Local Abbreviation serve' := (serve marshalGateway marshalPriorityConfig TrimSpace Ext).

(** A call that meets a waiting writer waits as well. *)
Lemma call_stuck (c : Call) (s : ControlService) :
  (0 < writers (mu s))%nat -> call' c s = (waits c, s).
Proof.
  intros Hw. apply Nat.ltb_lt in Hw.
  destruct c; cbn [call]; unfold GetGatewayRelease, GetGatewayFeatures, RLock;
    by rewrite Hw.
Qed.

Lemma serve_stuck (cs : list Call) (s : ControlService) :
  (0 < writers (mu s))%nat -> serve' cs s = (waits <$> cs, s).
Proof.
  intros Hw. induction cs as [|c cs IH]; [done|].
  cbn [serve]. rewrite call_stuck by done. by rewrite IH.
Qed.

(** A call to a service that has loaded nothing and whose mutex is free. *)
Lemma call_fresh (c : Call) :
  call' c NewControlService
  = if decodes c
    then (waits c,
          {| mu := {| readers := 1; writers := 1 |}; configs := ∅; features := ∅ |})
    else (unloaded c, NewControlService).
Proof.
  destruct c as [gateway lastVersion lastPV files|gateway file]; cbn.
  - unfold GetGatewayRelease, loadConfigFromFile. cbn.
    by destruct (cf_config files).
  - unfold GetGatewayFeatures, loadFeaturesFromFile. cbn. by destruct file.
Qed.

Lemma serve_fresh (cs : list Call) :
  configs (serve' cs NewControlService).2 = ∅
  /\ features (serve' cs NewControlService).2 = ∅
  /\ forall i c,
       cs !! i = Some c ->
       (serve' cs NewControlService).1 !! i
       = Some (if existsb decodes (take (S i) cs) then waits c else unloaded c).
Proof.
  induction cs as [|c cs IH]; [done|].
  cbn [serve]. rewrite call_fresh. destruct (decodes c) eqn:Hc.
  - rewrite serve_stuck by (cbn; lia). cbn [fst snd configs features].
    split_and!; [done|done|]. intros i c' Hi. rewrite lookup_cons in Hi. rewrite lookup_cons.
    cbn [take existsb]. rewrite Hc. cbn [orb].
    destruct i as [|i]; [by simplify_eq|].
    by rewrite list_lookup_fmap, Hi.
  - destruct (serve' cs NewControlService) as [rs s'] eqn:Hs. cbn [fst snd] in *.
    destruct IH as (Hcfg & Hft & Hrs). split_and!; [done|done|].
    intros i c' Hi. rewrite lookup_cons in Hi. rewrite lookup_cons.
    cbn [take existsb]. rewrite Hc. cbn [orb].
    destruct i as [|i]; [by simplify_eq|].
    by apply Hrs.
Qed.

(** X13. The control service never loads a configuration.  Whatever
    calls reach a new service, and whatever files they find: its two maps
    stay empty; a call whose file is missing is answered 404 (the empty
    feature set, for the features), a call whose file cannot be read or
    decoded gets that error; the first call whose file decodes asks for the
    write lock while it holds the read lock and waits for ever, and every
    call that starts after it waits for the read lock behind it.  No call is
    ever answered with a release. *)
Theorem control_never_loads (cs : list Call) :
  let r := serve' cs NewControlService in
  configs r.2 = ∅
  /\ features r.2 = ∅
  /\ length r.1 = length cs
  /\ (forall i c,
        cs !! i = Some c ->
        r.1 !! i = Some (if existsb decodes (take (S i) cs) then waits c else unloaded c))
  /\ forall resp, ReplyRelease (Done (inl resp)) ∉ r.1.
Proof.
  cbv zeta. destruct (serve_fresh cs) as (Hcfg & Hft & Hrs).
  assert (length (serve' cs NewControlService).1 = length cs) as Hlen.
  { clear. generalize (@NewControlService Gateway PriorityConfig).
    induction cs as [|c cs IH]; intros s; [done|]. cbn [serve].
    destruct (call' c s) as [r s1]. specialize (IH s1).
    destruct (serve' cs s1) as [rs s2]. cbn in *. by rewrite IH. }
  split_and!; try done.
  intros resp Hin. apply list_elem_of_lookup in Hin as [i Hi].
  destruct (lookup_lt_is_Some_2 cs i) as [c Hc].
  { rewrite <- Hlen. by eapply lookup_lt_Some. }
  rewrite (Hrs i c Hc) in Hi.
  destruct (existsb _ _); destruct c as [? ? ? files|? file]; by cbn in Hi.
Qed.

Lemma map_fold_or {A} (f : string -> A -> bool) (m : gmap string A) :
  map_fold (λ k v changed, changed || f k v) false m = false
  <-> forall k v, m !! k = Some v -> f k v = false.
Proof.
  apply (map_fold_weak_ind
           (λ (r : bool) (m : gmap string A),
              r = false <-> forall k v, m !! k = Some v -> f k v = false)).
  - split; [|done]. intros _ k v Hk. by rewrite lookup_empty in Hk.
  - intros i x m' r Hi IH. rewrite orb_false_iff, IH. split.
    + intros [Hm Hx] k v. destruct (decide (k = i)) as [->|Hne].
      * rewrite lookup_insert_eq. by intros [= <-].
      * rewrite lookup_insert_ne by done. apply Hm.
    + intros Hall. split.
      * intros k v Hk. apply Hall. rewrite lookup_insert_ne; [done|].
        intros <-. by rewrite Hi in Hk.
      * apply Hall. by rewrite lookup_insert_eq.
Qed.

(** X14. When a service that holds the configuration of a gateway answers
    304.  The gateway must report a version, and it must be the version
    held.  If it reports no priority versions, none must be held; if it
    reports some, each key it reports must be held with the version it
    reports.  Keys held that the gateway does not report are not looked at:
    a priority configuration added on the service goes unnoticed as long as
    the gateway reports another key that is current. *)
Theorem release_not_modified (cfg : GatewayConfig) (lastVersion : string)
  (lastPriorityVersions : gmap string string) :
  (exists message,
     release marshalGateway marshalPriorityConfig cfg lastVersion lastPriorityVersions
     = inr (statusError 304 message))
  <-> lastVersion <> "" /\ gc_Version cfg = lastVersion
      /\ (lastPriorityVersions = ∅ -> gc_PriorityConfigs cfg = ∅)
      /\ forall key version,
           lastPriorityVersions !! key = Some version ->
           exists pc, gc_PriorityConfigs cfg !! key = Some pc /\ pc_Version pc = version.
Proof.
  assert (priorityChanged cfg lastPriorityVersions = false
          <-> (lastPriorityVersions = ∅ -> gc_PriorityConfigs cfg = ∅)
              /\ forall key version,
                   lastPriorityVersions !! key = Some version ->
                   exists pc, gc_PriorityConfigs cfg !! key = Some pc
                              /\ pc_Version pc = version) as Hchanged.
  { unfold priorityChanged.
    destruct (decide (lastPriorityVersions = ∅)) as [->|Hne].
    - rewrite map_size_empty. cbn.
      destruct (size (gc_PriorityConfigs cfg)) as [|n] eqn:Hsz.
      + apply map_size_empty_iff in Hsz. split; [|done]. intros _.
        split; [done|]. intros key version Hk. by rewrite lookup_empty in Hk.
      + split; [done|]. intros [Hnone _]. rewrite Hnone in Hsz by done.
        by rewrite map_size_empty in Hsz.
    - assert ((0 <? size lastPriorityVersions)%nat = true) as ->.
      { apply Nat.ltb_lt. apply map_size_non_empty_iff in Hne. lia. }
      rewrite (map_fold_or
                 (λ key version,
                    match gc_PriorityConfigs cfg !! key with
                    | Some pc => negb (bool_decide (pc_Version pc = version))
                    | None => true
                    end)).
      split.
      + intros Hall. split; [done|]. intros key version Hk.
        specialize (Hall key version Hk).
        destruct (gc_PriorityConfigs cfg !! key) as [pc|]; [|done].
        exists pc. split; [done|]. apply negb_false_iff, bool_decide_eq_true in Hall. done.
      + intros [_ Hall] key version Hk.
        destruct (Hall key version Hk) as (pc & -> & <-).
        by rewrite bool_decide_true. }
  unfold release. split.
  - intros [message Hr].
    destruct (negb (bool_decide (lastVersion = ""))) eqn:Hv; cbn [andb] in Hr.
    2:{ destruct (marshalGateway _); done. }
    destruct (bool_decide (gc_Version cfg = lastVersion)) eqn:Hsame; cbn [andb] in Hr.
    2:{ destruct (marshalGateway _); done. }
    destruct (priorityChanged cfg lastPriorityVersions) eqn:Hpc; cbn [negb] in Hr.
    { destruct (marshalGateway _); done. }
    apply negb_true_iff, bool_decide_eq_false in Hv.
    apply bool_decide_eq_true in Hsame.
    split_and!; [done|done|apply Hchanged; done..].
  - intros (Hv & Hsame & Hrest). exists "config not modified".
    rewrite (bool_decide_false (lastVersion = "")) by done.
    rewrite (bool_decide_true (gc_Version cfg = lastVersion)) by done.
    assert (priorityChanged cfg lastPriorityVersions = false) as ->
      by (by apply Hchanged).
    done.
Qed.

End ControlFacts.

(** * More of the model at work *)

(** After a configuration with two endpoints was applied to a new proxy,
    the first route of the live table has a client that is open. *)
Lemma live_table_intact_witness :
  let p := (update Sample.twoEndpoints New).2 in
  exists r,
    liveRoutes p !! 0%nat = Some r
    /\ (rt_closer r < p_clients p)%nat
    /\ rt_closer r ∉ p_closed p.
Proof.
  cbv zeta.
  assert (reachable sre.NewBreaker Sample.SplitHostPort Sample.ToGRPCCode Sample.Itoa
            Sample.judgeRetryRequired Sample.isNoBufferingResponse
            Sample.prepareRetryStrategy Sample.clientFactory Sample.middlewareFactory
            Sample.router_Handle (update Sample.twoEndpoints New).2) as Hreach
    by (apply reach_Update, reach_New).
  destruct (liveRoutes (update Sample.twoEndpoints New).2 !! 0%nat) as [r|] eqn:Hr;
    [|by vm_compute in Hr].
  exists r. split; [reflexivity|].
  destruct (live_table_intact sre.NewBreaker Sample.SplitHostPort Sample.ToGRPCCode
              Sample.Itoa Sample.judgeRetryRequired Sample.isNoBufferingResponse
              Sample.prepareRetryStrategy Sample.clientFactory Sample.middlewareFactory
              Sample.router_Handle (update Sample.twoEndpoints New).2 Hreach r
              (list_elem_of_lookup_2 _ _ _ Hr)) as (Hmade & Hopen & _ & _).
  split; [exact Hmade|exact Hopen].
Defined.

(** A request whose retry-eligible answer has no body makes the handler
    panic; [ServeHTTP] recovers and the client gets 502. *)
Lemma ServeHTTP_reply_witness :
  let p := (update Sample.oneEndpoint New).2 in
  w_statusCode newResponseWriter = None
  /\ match ServeHTTP Sample.SplitHostPort Sample.ToGRPCCode Sample.Itoa
             Sample.judgeRetryRequired Sample.isNoBufferingResponse
             Sample.router_ServeHTTP Sample.http_Error_Header
             newResponseWriter Sample.bodiless500 p with
     | Some (rp, _) => rp_recovered rp = true /\ w_statusCode (rp_w rp) = Some 502
     | None => False
     end.
Proof.
  cbv zeta. split; [reflexivity|].
  pose proof (ServeHTTP_reply Sample.SplitHostPort Sample.ToGRPCCode Sample.Itoa
                Sample.judgeRetryRequired Sample.isNoBufferingResponse
                Sample.router_ServeHTTP Sample.http_Error_Header
                newResponseWriter Sample.bodiless500
                (update Sample.oneEndpoint New).2 eq_refl) as H.
  vm_compute in H. destruct H as (sv & Hsv & _ & Hrec & _ & [Habort _] & Hpanic).
  rewrite <- Hrec, Habort in Hpanic. destruct Hpanic as (_ & Hstatus & _).
  vm_compute. split; [reflexivity|exact Hstatus].
Defined.

(** A stream request whose copy to the client fails: the reverse proxy
    aborts, [ServeHTTP] recovers the panic and returns without writing 502
    and without logging; the request counter was called by the response
    hook. *)
Example stream_abort_recovered :
  let e := {| e_Path := "/foo/bar"; e_Method := "GET"; e_Host := "";
              e_Protocol := Protocol_HTTP; e_Stream := true; e_Middlewares := [] |} in
  let p := (update {| c_Endpoints := [e]; c_Middlewares := [] |} New).2 in
  match ServeHTTP Sample.SplitHostPort Sample.ToGRPCCode Sample.Itoa
          Sample.judgeRetryRequired Sample.isNoBufferingResponse
          Sample.router_ServeHTTP Sample.http_Error_Header
          newResponseWriter Sample.abortedStream p with
  | Some (rp, _) =>
      rp_recovered rp = true /\ rp_panicLogged rp = false
      /\ w_statusCode (rp_w rp) = None
      /\ (countOf isHandleRequest <$> (sv_trace <$> rp_served rp)) = Some 1%nat
  | None => False
  end.
Proof. vm_compute. done. Qed.

(** An upstream that answers 500 and then 200: the client gets the status
    of an answer the upstream gave. *)
Lemma client_gets_last_attempt_witness :
  let a := Sample.flaky Sample.oops in
  let e := Sample.endpoint "/a" in
  let sv := (handle e (Sample.strategy 3) (sre.NewBreaker (8 # 10) 10)
               newResponseWriter a).1 in
  e_Stream e = false /\ sv_panicked sv = false
  /\ exists j resp,
       roundTrip (ar_upstream a j) = inl resp
       /\ w_statusCode (sv_w sv) = Some (resp_StatusCode resp).
Proof.
  cbv zeta. split; [reflexivity|]. split; [reflexivity|].
  pose proof (@client_gets_last_attempt sre.Breaker sre.breaker
                Sample.SplitHostPort Sample.ToGRPCCode Sample.Itoa
                Sample.judgeRetryRequired Sample.isNoBufferingResponse
                (Sample.endpoint "/a") (Sample.strategy 3) (sre.NewBreaker (8 # 10) 10)
                newResponseWriter (Sample.flaky Sample.oops) eq_refl
                ltac:(vm_compute; reflexivity)) as Hanswer.
  cbv zeta in Hanswer.
  change (ar_body (Sample.flaky Sample.oops)) with (@inl (list byte) error []) in Hanswer.
  cbv iota in Hanswer.
  destruct Hanswer
    as [(j & err & _ & [H|H] & _)|(j & resp & pre & post & last & _ & _ & _ & Hrt & Hw)].
  - discriminate H.
  - discriminate H.
  - exists j, resp. split; [exact Hrt|]. rewrite Hw.
    destruct (relay_requests Sample.isNoBufferingResponse (Sample.endpoint "/a")
                (Sample.flaky Sample.oops)
                (setXFFHeader Sample.SplitHostPort (ar_req (Sample.flaky Sample.oops)))
                (if Sample.judgeRetryRequired (conditions (Sample.strategy 3)) resp
                 then Response_closeBody resp else resp) newResponseWriter)
      as (_ & _ & _ & Hstatus).
    rewrite (Hstatus eq_refl).
    destruct (Sample.judgeRetryRequired _ resp); reflexivity.
Defined.

(** The namespace middleware in its default mode, with a validation API
    that answers 200 and no whitelist: the API is asked, and the request is
    rejected all the same. *)
Example namespace_api_allows_in_vain :
  let next := λ _ : Request, inl (Sample.response 200 None) in
  let req := Sample.request "10.0.0.7:4242" {[ "X-Namespace" := Some ["team-a"] ]} in
  match Namespace.Middleware Namespace.sampleWorld (Some (inl Namespace.sampleOptions)) with
  | inl built =>
      Namespace.validation built = Namespace.ValidateDefault
      /\ (Namespace.validateNamespaceViaAPI Namespace.sampleWorld 5000000000 "team-a"
            (Namespace.o_ValidateApi Namespace.sampleOptions)).2
         = Namespace.Allowed
      /\ match Namespace.RoundTrip Namespace.sampleWorld built next req with
         | ([call], Namespace.Rejected (inl resp)) =>
             Namespace.rq_Method call = "POST"
             /\ Namespace.rq_Header call !! "Content-Type"
                = Some (Some ["application/json"])
             /\ resp_StatusCode resp = 403
         | _ => False
         end
  | inr _ => False
  end.
Proof. vm_compute. by split_and!. Qed.

(** The control service: a request for a gateway without files is
    answered 404; the first request that finds a configuration it can decode
    never returns, and the request for the features that comes after it
    waits as well. *)
Example control_first_load_blocks :
  let files (cfg : Control.Loaded unit) : Control.ConfigFiles :=
    {| Control.cf_config := cfg; Control.cf_versionData := None;
       Control.cf_priority := None |} in
  (Control.serve (PriorityConfig := unit) (λ _, inl "{}") (λ _, inl "{}") (λ s, s) (λ s, s)
     [Control.CallRelease "edge" "" ∅ (files Control.Missing);
      Control.CallRelease "edge" "" ∅ (files (Control.Decoded ()));
      Control.CallFeatures "edge" Control.Missing]
     Control.NewControlService).1
  = [Control.ReplyRelease
       (Control.Done (inr (Control.statusError 404 "gateway config not found")));
     Control.ReplyRelease Control.Blocked;
     Control.ReplyFeatures Control.Blocked].
Proof. reflexivity. Qed.

(** * Cutting a string at its first separator *)

Lemma append_cons (c : ascii) (a b : string) : String c a +:+ b = String c (a +:+ b).
Proof. done. Qed.

Lemma splitFirst_Some sep s head tail :
  splitFirst sep s = Some (head, tail) ->
  s = head +:+ String sep tail /\ splitFirst sep head = None.
Proof.
  revert head. induction s as [|c rest IH]; intros head; cbn [splitFirst]; [done|].
  destruct (Ascii.eqb_spec c sep) as [->|Hne].
  - by intros [= <- <-].
  - destruct (splitFirst sep rest) as [[h t]|]; [|done].
    intros [= <- <-]. destruct (IH h eq_refl) as [-> Hh].
    split; [by rewrite append_cons|]. cbn [splitFirst].
    destruct (Ascii.eqb_spec c sep); [done|]. by rewrite Hh.
Qed.

Lemma splitFirst_None sep s head tail :
  splitFirst sep s = None -> s <> head +:+ String sep tail.
Proof.
  revert head. induction s as [|c rest IH]; intros head Hs Heq.
  - by destruct head.
  - cbn [splitFirst] in Hs. destruct (Ascii.eqb_spec c sep) as [->|Hne]; [done|].
    destruct (splitFirst sep rest) as [[h t]|] eqn:Hrest; [done|].
    destruct head as [|c' head]; rewrite ?append_cons in Heq.
    + injection Heq as Hc _. done.
    + injection Heq as _ Heq. by eapply IH.
Qed.

(** * The token middleware *)

Section JwtFacts.

Import Jwt.

(** X17. Which requests the token middleware forwards: those whose
    [Authorization] header is a scheme without space that folds to
    [Bearer], one space, and a token that [jwtv5.Parse] returns as valid
    without error; the token handed to the parser is everything after the
    first space.  Any other request is answered with the forbidden response
    for [invalid token 0] (no space in the header, or another scheme),
    [invalid token 1] (the parser fails) or [invalid token 2] (the token is
    not valid), and the next tripper is not called. *)
Theorem jwt_decision (W : World) (options : Options) (next : Request -> Response + error)
  (req : Request) :
  let header := Header_Get (req_Header req) "Authorization" in
  match RoundTrip W options next req with
  | Forwarded answer =>
      answer = next req
      /\ exists scheme token,
           header = scheme +:+ String " " token
           /\ splitFirst " " scheme = None
           /\ EqualFold W scheme "Bearer" = true
           /\ jwt_Parse W options token = inl true
  | Rejected answer =>
      (answer = newForbiddenResponse W (ErrorForbidden "invalid token 0")
       /\ ((forall scheme token, header <> scheme +:+ String " " token)
           \/ exists scheme token,
                header = scheme +:+ String " " token
                /\ splitFirst " " scheme = None
                /\ EqualFold W scheme "Bearer" = false))
      \/ (answer = newForbiddenResponse W (ErrorForbidden "invalid token 1")
          /\ exists scheme token err,
               header = scheme +:+ String " " token
               /\ splitFirst " " scheme = None
               /\ jwt_Parse W options token = inr err)
      \/ (answer = newForbiddenResponse W (ErrorForbidden "invalid token 2")
          /\ exists scheme token,
               header = scheme +:+ String " " token
               /\ splitFirst " " scheme = None
               /\ jwt_Parse W options token = inl false)
  end.
Proof.
  cbv zeta. unfold RoundTrip, SplitN2.
  destruct (splitFirst " " (Header_Get (req_Header req) "Authorization"))
    as [[scheme token]|] eqn:Hsplit.
  - apply splitFirst_Some in Hsplit as [Hheader Hscheme].
    destruct (EqualFold W scheme "Bearer") eqn:Hfold; cbn [negb].
    + destruct (jwt_Parse W options token) as [[|]|err] eqn:Hparse; cbn [negb].
      * split; [done|]. by exists scheme, token.
      * right; right. split; [done|]. by exists scheme, token.
      * right; left. split; [done|]. by exists scheme, token, err.
    + left. split; [done|]. right. by exists scheme, token.
  - left. split; [done|]. left. intros scheme token. by apply splitFirst_None.
Qed.

End JwtFacts.

(** * The release endpoint of the control service *)

Section ControlEndpoint.

Import Control.

Context {Gateway PriorityConfig : Type}.
Variable marshalGateway : Gateway -> string + error.
Variable marshalPriorityConfig : PriorityConfig -> string + error.
Variable TrimSpace : string -> string.
Variable Ext : string -> string.
Variable encodeError : string -> list byte.
Variable encodeRelease : LoadResponse -> list byte.

Lemma parse_fold (key : string) (l : list string) (m : gmap string string) :
  fold_left
    (λ lastPriorityVersions v,
       match SplitN2 v "=" with
       | [k; version] => <[k := version]> lastPriorityVersions
       | _ => lastPriorityVersions
       end) l m !! key
  = match last (omap (versionFor key) l) with
    | Some version => Some version
    | None => m !! key
    end.
Proof.
  revert m. induction l as [|v l IH]; intros m; [done|].
  cbn [fold_left]. rewrite IH.
  assert (omap (versionFor key) (v :: l)
          = match versionFor key v with
            | Some version => version :: omap (versionFor key) l
            | None => omap (versionFor key) l
            end) as -> by done.
  clear IH. generalize (omap (versionFor key) l) as rest. intros rest.
  unfold SplitN2, versionFor.
  destruct (splitFirst "=" v) as [[k version]|]; [|done].
  case_bool_decide as Hk.
  - subst k. rewrite lookup_insert_eq.
    change (version :: rest) with ([version] ++ rest).
    rewrite last_app. by destruct (last rest).
  - by rewrite lookup_insert_ne.
Qed.

(** X18. The priority versions the release handler reads from a query.
    Nothing is read unless [supportPriorityConfig] is [1].  Each value of
    [lastPriorityVersions] is cut at its first [=] into key and version, so a
    version may contain [=]; a value without [=] is dropped; and of several
    values for one key the last one counts. *)
Theorem priority_versions_parsed (q : Query) (key : string) :
  parsePriorityVersions q !! key
  = if bool_decide (Query_Get q "supportPriorityConfig" = "1")
    then last (omap (versionFor key) (q "lastPriorityVersions"))
    else None.
Proof.
  unfold parsePriorityVersions. case_bool_decide; [|done].
  rewrite parse_fold, lookup_empty. by destruct (last _).
Qed.

(** X19. The answers of the release endpoint of a service that holds no
    configuration, which every service is, on a writer nothing was written
    to.  A method other than GET gets 405 and no body.  A GET does not
    return while a writer holds the mutex or waits for it, nor when the
    configuration file decodes: then the handler waits for the write lock
    under its own read lock.  Otherwise a GET gets 404 with the error
    [gateway config not found] when the file is missing, and 500 with the
    error of the read when the file cannot be read or decoded.  These are
    all the cases: the endpoint never answers with a release, and the service
    holds no configuration afterwards either. *)
Theorem release_endpoint_answers (method : string) (q : Query) (files : ConfigFiles)
  (w : ResponseWriter) (s : ControlService) :
  configs s = ∅ ->
  w_statusCode w = None ->
  let r := releaseHandler marshalGateway marshalPriorityConfig TrimSpace Ext
             encodeError encodeRelease method q files w s in
  configs r.2 = ∅
  /\ r.1
     = (if bool_decide (method = "GET")
        then if (0 <? writers (mu s))%nat then Blocked
             else match cf_config files with
                  | Missing =>
                      Done (Write (encodeError "gateway config not found")
                              (WriteHeader 404 w))
                  | Failed err =>
                      Done (Write (encodeError (Error err)) (WriteHeader 500 w))
                  | Decoded _ => Blocked
                  end
        else Done (WriteHeader 405 w))
  /\ match r.1 with
     | Done w' =>
         (method <> "GET" /\ w_statusCode w' = Some 405 /\ w_body w' = w_body w)
         \/ (method = "GET" /\ writers (mu s) = 0%nat /\ cf_config files = Missing
             /\ w_statusCode w' = Some 404
             /\ w_body w' = w_body w ++ encodeError "gateway config not found")
         \/ (method = "GET" /\ writers (mu s) = 0%nat
             /\ exists err, cf_config files = Failed err
                            /\ w_statusCode w' = Some 500
                            /\ w_body w' = w_body w ++ encodeError (Error err))
     | Blocked =>
         method = "GET"
         /\ ((0 < writers (mu s))%nat \/ exists cfg, cf_config files = Decoded cfg)
     end.
Proof.
  intros Hcfg Hw. cbv zeta. unfold releaseHandler.
  case_bool_decide as Hmethod; cbn [negb].
  2:{ do 2 (split; [done|]). left. cbn. by rewrite Hw. }
  unfold GetGatewayRelease, RLock.
  destruct (Nat.ltb_spec 0 (writers (mu s))) as [Hwriters|Hwriters].
  { do 2 (split; [done|]). split; [done|]. by left. }
  assert (writers (mu s) = 0%nat) as Hnone by lia.
  cbn [setMu configs]. rewrite Hcfg, lookup_empty.
  unfold loadConfigFromFile. destruct (cf_config files) as [|err|cfg] eqn:Hfile.
  - cbn [setMu configs mu fst snd]. rewrite Hcfg, lookup_empty. cbn.
    do 2 (split; [done|]). right; left. by rewrite Hw.
  - cbn. do 2 (split; [done|]). right; right. do 2 (split; [done|]).
    exists err. by rewrite Hw.
  - cbn. do 2 (split; [done|]). split; [done|]. right. by exists cfg.
Qed.

End ControlEndpoint.

(** A new service asked with GET for a gateway that has no file answers
    404 with the error as body; asked for a gateway whose file decodes, it
    does not answer. *)
Lemma release_endpoint_answers_witness :
  let files (config : Control.Loaded unit)
    : Control.ConfigFiles (Gateway := unit) (PriorityConfig := unit) :=
    {| Control.cf_config := config; Control.cf_versionData := None;
       Control.cf_priority := None |} in
  let answer config :=
    (Control.releaseHandler (λ _, inl "{}") (λ _, inl "{}") (λ v, v) (λ v, v)
       String.list_byte_of_string (λ _, []) "GET" (λ _, []) (files config)
       newResponseWriter Control.NewControlService).1 in
  Control.configs (Gateway := unit) (PriorityConfig := unit) Control.NewControlService = ∅
  /\ w_statusCode newResponseWriter = None
  /\ answer Control.Missing
     = Control.Done (Write (String.list_byte_of_string "gateway config not found")
                       (WriteHeader 404 newResponseWriter))
  /\ answer (Control.Decoded tt) = Control.Blocked.
Proof.
  cbv zeta. split; [reflexivity|]. split; [reflexivity|]. split.
  - exact (proj1 (proj2 (release_endpoint_answers
                           (λ _, inl "{}") (λ _, inl "{}") (λ v, v) (λ v, v)
                           String.list_byte_of_string (λ _, []) "GET" (λ _, [])
                           {| Control.cf_config := Control.Missing;
                              Control.cf_versionData := None;
                              Control.cf_priority := None |}
                           newResponseWriter Control.NewControlService
                           eq_refl eq_refl))).
  - exact (proj1 (proj2 (release_endpoint_answers
                           (λ _, inl "{}") (λ _, inl "{}") (λ v, v) (λ v, v)
                           String.list_byte_of_string (λ _, []) "GET" (λ _, [])
                           {| Control.cf_config := Control.Decoded tt;
                              Control.cf_versionData := None;
                              Control.cf_priority := None |}
                           newResponseWriter Control.NewControlService
                           eq_refl eq_refl))).
Defined.

(** A query with three priority versions: the second value for [a]
    replaces the first, the value without [=] is dropped, and the version of
    [b] keeps its [=]. *)
Example priority_versions_sample :
  let q : Control.Query := λ key,
    if bool_decide (key = "supportPriorityConfig") then ["1"]
    else if bool_decide (key = "lastPriorityVersions")
         then ["a=v1"; "b=x=y"; "novalue"; "a=v2"]
         else [] in
  Control.parsePriorityVersions q = {[ "a" := "v2"; "b" := "x=y" ]}.
Proof. by vm_compute. Qed.
